(** * CardMaker (src/core.js): shallow embedding and verified properties

    The class [CardMaker] keeps one mutable configuration object per
    instance, creates a canvas, and renders a template (background, image
    layers, text items) through promises and zero-delay timers.

    Modelling choices, all taken from the source:
    - JavaScript values are the inductive [value]; plain objects used as
      records are finite maps from property names to values.  Numbers are
      the integer-valued ones ([Z]); inherited members of [Object.prototype]
      are not part of an object's map.
    - Synchronous code lives in a state-and-exception monad [M] over the
      [world] of an instance (its configuration, the calls made on canvas
      contexts, the timer queue, DOM effects and console warnings).
    - Promises are trees of pending work ([promise]); an event loop executes
      reaction jobs (microtasks), zero-delay timers in the order they were
      set, and image-load events in any order.
    - The imports of [./utils] and the browser primitives are the fields
      of the class [Host]. *)

From Stdlib Require Import ZArith.
From stdpp Require Import gmap strings list fin_maps pretty.

Set Warnings "-register-all".

(** ** JavaScript values and the operators the source uses *)

Module JS.

Inductive value :=
| VUndef
| VNull
| VBool (b : bool)
| VNum (n : Z)
| VStr (s : string)
| VArr (l : list value)
| VObj (o : gmap string value)
| VElem (h : nat)                 (* a DOM element, by handle *)
| VImg (id : nat) (w h : Z).      (* a loaded image with its natural size *)

(** [throw new Error(msg)] and the runtime's own [TypeError]. *)
Inductive js_error :=
| Error (msg : string)
| TypeError.

Inductive result (A : Type) :=
| Ok (a : A)
| Throw (e : js_error).
Arguments Ok {A} a.
Arguments Throw {A} e.

Definition rbind {A B} (r : result A) (k : A → result B) : result B :=
  match r with
  | Ok a => k a
  | Throw e => Throw e
  end.

(** [ToBoolean]: the test of [if (x)], [!x] and [x || y]. *)
Definition truthy (v : value) : bool :=
  match v with
  | VUndef | VNull => false
  | VBool b => b
  | VNum n => negb (n =? 0)%Z
  | VStr s => negb (String.eqb s "")
  | VArr _ | VObj _ | VElem _ | VImg _ _ _ => true
  end.

(** [Array.prototype.join(',')] on already converted elements. *)
Fixpoint join_comma (l : list string) : string :=
  match l with
  | [] => ""
  | [s] => s
  | s :: rest => s +:+ "," +:+ join_comma rest
  end.

(** [ToString]: template literals and property keys.  The numbers of the
    model are integers and are printed in full, which is what JavaScript
    prints for an integer below 2^53 in absolute value; from 1e21 on it
    prints the exponent form, so larger numbers are outside the domain on
    which [to_str] is the code's conversion (see [printable]). *)
Fixpoint to_str (v : value) : string :=
  match v with
  | VUndef => "undefined"
  | VNull => "null"
  | VBool true => "true"
  | VBool false => "false"
  | VNum n => pretty n
  | VStr s => s
  | VArr l =>
      join_comma
        ((fix elems (l : list value) : list string :=
            match l with
            | [] => []
            | x :: rest =>
                match x with
                | VUndef | VNull => ""
                | _ => to_str x
                end :: elems rest
            end) l)
  | VObj _ => "[object Object]"
  | VElem _ => "[object HTMLCanvasElement]"
  | VImg _ _ _ => "[object HTMLImageElement]"
  end.

(** [typeof v]. *)
Definition typeof (v : value) : string :=
  match v with
  | VUndef => "undefined"
  | VBool _ => "boolean"
  | VNum _ => "number"
  | VStr _ => "string"
  | VNull | VArr _ | VObj _ | VElem _ | VImg _ _ _ => "object"
  end.

(** [v == undefined] (loose): true of [undefined] and [null] only. *)
Definition nullish (v : value) : bool :=
  match v with
  | VUndef | VNull => true
  | _ => false
  end.

(** [v == ''] (loose equality with the empty string): booleans and
    numbers are compared as numbers with [ToNumber('') = 0], strings as
    strings, objects through their string form. *)
Definition loose_eq_empty (v : value) : bool :=
  match v with
  | VUndef | VNull => false
  | VBool b => negb b
  | VNum n => (n =? 0)%Z
  | VStr s => String.eqb s ""
  | VArr _ | VObj _ | VElem _ | VImg _ _ _ => String.eqb (to_str v) ""
  end.

(** [v === 'lit'], the test of a [switch] over string cases. *)
Definition is_string (v : value) (lit : string) : bool :=
  match v with
  | VStr s => String.eqb s lit
  | _ => false
  end.

(** [a || b], with [b] evaluated only when [a] is falsy. *)
Definition or_else (a : value) (b : result value) : result value :=
  if truthy a then Ok a else b.

(** A parameter with a default value ([f(x = d)]): the default replaces
    [undefined] only. *)
Definition default_arg (v d : value) : value :=
  match v with
  | VUndef => d
  | _ => v
  end.

(** Own-property read of a plain object. *)
Definition field (o : gmap string value) (k : string) : value :=
  default VUndef (o !! k).

(** [v[k]] / [v.k] for the identifier keys the source reads: a read on
    [undefined] or [null] is a [TypeError]; strings and arrays have
    [length]; images have [width] and [height]. *)
Definition get_prop (v : value) (k : string) : result value :=
  match v with
  | VUndef | VNull => Throw TypeError
  | VStr s => Ok (if String.eqb k "length" then VNum (Z.of_nat (String.length s)) else VUndef)
  | VArr l => Ok (if String.eqb k "length" then VNum (Z.of_nat (length l)) else VUndef)
  | VObj o => Ok (field o k)
  | VImg _ w h =>
      Ok (if String.eqb k "width" then VNum w
          else if String.eqb k "height" then VNum h
          else VUndef)
  | VBool _ | VNum _ | VElem _ => Ok VUndef
  end.

(** The members every plain object inherits from [Object.prototype].  A
    read [o[k]] of such a key on an object without an own property of that
    name yields the inherited member, and an assignment to [__proto__] runs
    a setter instead of creating a property: [field] and the insert of a
    finite map describe neither.  The properties that speak of arbitrary
    keys are therefore stated for the other keys. *)
Definition object_prototype_keys : list string :=
  ["constructor"; "__defineGetter__"; "__defineSetter__"; "hasOwnProperty";
   "__lookupGetter__"; "__lookupSetter__"; "isPrototypeOf";
   "propertyIsEnumerable"; "toString"; "valueOf"; "__proto__"; "toLocaleString"].

Definition plain_key (k : string) : bool :=
  forallb (λ p, negb (String.eqb k p)) object_prototype_keys.

(** The values whose string form, in a template literal or as a property
    key, is the one [to_str] computes: the primitive values, a number only
    within the safe integers (a larger one is printed with fewer digits or
    in exponent form). *)
Definition printable (v : value) : bool :=
  match v with
  | VUndef | VNull | VBool _ | VStr _ => true
  | VNum n => (Z.abs n <? 2 ^ 53)%Z
  | VArr _ | VObj _ | VElem _ | VImg _ _ _ => false
  end.

End JS.
Export JS.

(** ** The host: imports of [./utils] and browser primitives *)

Class Host := {
  (** [StringToNumber] of the runtime; [None] is [NaN]. *)
  StringToNumber : string → option Z;
  (** [isColor] of [./utils]. *)
  isColor : value → bool;
  (** [colorNameToHex] of [./utils]. *)
  colorNameToHex : value → value;
  (** [makeElement] of [./utils]: a new, unattached element. *)
  makeElement : string → value → nat;
  (** [document.querySelector]: [Ok None] is [null]. *)
  querySelector : value → result (option nat);
  (** [canvas.toDataURL(type, quality)]. *)
  toDataURL : nat → string → value → string
}.

(** A concrete host, used to run the model on examples: [blue] and
    [black] are colours, [#cardmaker] resolves to element 7, [#save] to
    element 8, and the canvas made by [makeElement] is element 1. *)
Module Demo.

#[export] Instance host : Host := {|
  StringToNumber := λ s, if String.eqb s "" then Some 0%Z else None;
  isColor := λ v,
    match v with
    | VStr s => String.eqb s "blue" || String.eqb s "black"
    | _ => false
    end;
  colorNameToHex := λ v,
    match v with
    | VStr "black" => VStr "#000000"
    | _ => v
    end;
  makeElement := λ _ _, 1;
  querySelector := λ v,
    match v with
    | VStr "#cardmaker" => Ok (Some 7)
    | VStr "#save" => Ok (Some 8)
    | _ => Ok None
    end;
  toDataURL := λ h type _, "data:" +:+ type +:+ ";base64,"
|}.

End Demo.

(** ** The world of one instance *)

(** Calls on a canvas 2D context, as the source issues them. *)
Inductive ctx_call :=
| beginPath
| closePath
| set_fillStyle (v : value)
| rect (x y w h : value)
| fill
| drawImage5 (img dx dy dw dh : value)
| drawImage9 (img sx sy sw sh dx dy dw dh : value)
| set_textAlign (v : value)
| set_font (s : string)
| fillText (t x y : value).

(** The callbacks handed to [setTimeout(..., 0)], with what they capture:
    [renderImage]'s closure over [ctx], [img] and [prop], and
    [renderText]'s closure over the text item. *)
Inductive timer :=
| draw_layer (ctx : option nat) (img prop : value)
| write_text (val : value).

Inductive dom_effect :=
| appendChild (parent : nat) (child : value)
| addEventListener (target : nat) (type : string).

Record world := mkWorld {
  config : gmap string value;          (* _config.get(this) *)
  calls : list (nat * ctx_call);       (* context calls, per canvas element *)
  timers : list timer;                 (* zero-delay timers, oldest first *)
  dom : list dom_effect;
  console : list string                (* console.warn *)
}.

(** Synchronous code: state and exceptions.  A throw keeps the effects
    made before it. *)
Definition M (A : Type) : Type := world → result A * world.

Definition ret {A} (a : A) : M A := λ w, (Ok a, w).
Definition throw {A} (e : js_error) : M A := λ w, (Throw e, w).
Definition bind {A B} (m : M A) (k : A → M B) : M B := λ w,
  match m w with
  | (Ok a, w') => k a w'
  | (Throw e, w') => (Throw e, w')
  end.
Definition lift {A} (r : result A) : M A := λ w, (r, w).

Notation "'let*' x ':=' m 'in' k" := (bind m (λ x, k))
  (at level 10, x name, m at level 100, k at level 200).
Notation "m ';;' k" := (bind m (λ _, k))
  (at level 100, k at level 200, right associativity).

Definition read_config : M (gmap string value) := λ w, (Ok (config w), w).
Definition write_config (c : gmap string value) : M unit := λ w,
  (Ok tt, mkWorld c (calls w) (timers w) (dom w) (console w)).
Definition emit (h : nat) (c : ctx_call) : M unit := λ w,
  (Ok tt, mkWorld (config w) (calls w ++ [(h, c)]) (timers w) (dom w) (console w)).
Definition setTimeout (t : timer) : M unit := λ w,
  (Ok tt, mkWorld (config w) (calls w) (timers w ++ [t]) (dom w) (console w)).
Definition dom_do (d : dom_effect) : M unit := λ w,
  (Ok tt, mkWorld (config w) (calls w) (timers w) (dom w ++ [d]) (console w)).
Definition warn (msg : string) : M unit := λ w,
  (Ok tt, mkWorld (config w) (calls w) (timers w) (dom w) (console w ++ [msg])).

(** A method call on the context returned by [getContext()]: on
    [undefined] it is a [TypeError]. *)
Definition ctx_do (ctx : option nat) (c : ctx_call) : M unit :=
  match ctx with
  | Some h => emit h c
  | None => throw TypeError
  end.

(** ** Promises *)

(** A promise, seen as the work still hanging on it:
    - [resolved v], [rejected e]: settled;
    - [loading src k]: waits for [makeImage(src)]; [k img] is what follows
      the load, a failed load rejects;
    - [queued p]: a reaction job sitting in the microtask queue;
    - [job m k]: the body of a callback, run inside a reaction job; a throw
      rejects;
    - [spawn q p]: the callback created promise [q] and did not return it. *)
Inductive promise :=
| resolved (v : value)
| rejected (e : js_error)
| loading (src : value) (k : value → promise)
| queued (p : promise)
| job (m : M value) (k : value → promise)
| spawn (q p : promise).

(** [p.then(f)]: [f] runs in a reaction job once [p] is fulfilled; a
    rejection passes through. *)
Fixpoint then_ (p : promise) (f : value → promise) : promise :=
  match p with
  | resolved v => queued (f v)
  | rejected e => rejected e
  | loading src k => loading src (λ img, then_ (k img) f)
  | queued p' => queued (then_ p' f)
  | job m k => job m (λ v, then_ (k v) f)
  | spawn q p' => spawn q (then_ p' f)
  end.

(** [makeImage(src)] of [./utils]: settles when the image has loaded. *)
Definition makeImage (src : value) : promise := loading src resolved.

Definition each_error : js_error := Error "Non array passed to each".

(** [Promise.each(arr, fn)] (core.js 16-24).  [fn] is given as the tree of
    its body.  A value that is not an array has no [reduce]. *)
Definition Promise_each (arr : value) (fn : value → promise) : result promise :=
  if negb (truthy arr) then Ok (rejected each_error)
  else
    rbind (get_prop arr "length") (λ len,
      if negb (truthy len) then Ok (rejected each_error)
      else
        match len with
        | VNum 0 => Ok (resolved VUndef)
        | _ =>
            match arr with
            | VArr l =>
                Ok (foldl (λ prev cur, then_ prev (λ _, fn cur)) (resolved VUndef) l)
            | _ => Throw TypeError
            end
        end).

(** [Promise.all([undefined, p])] as [render] uses it: settles after [p],
    with the array of both results. *)
Definition Promise_all2 (p : promise) : promise :=
  then_ p (λ v, resolved (VArr [VUndef; v])).

(** ** The class [CardMaker] *)

Section CardMaker.

Context `{Host}.

(** [ToNumber], as the comparisons [x > 0] and [k < key.length] apply it. *)
Definition to_number (v : value) : option Z :=
  match v with
  | VUndef => None
  | VNull => Some 0%Z
  | VBool b => Some (if b then 1 else 0)%Z
  | VNum n => Some n
  | VStr s => StringToNumber s
  | VArr _ | VObj _ | VElem _ | VImg _ _ _ => StringToNumber (to_str v)
  end.

(** [v > 0]. *)
Definition gt_zero (v : value) : bool :=
  match to_number v with
  | Some n => (0 <? n)%Z
  | None => false
  end.

(** The default configuration (core.js 33-78). *)
Definition default_config : gmap string value :=
  <["align" := VStr "left"]>
  (<["background" := VUndef]>
  (<["canvas" := VUndef]>
  (<["color" := VStr "black"]>
  (<["download" := VStr ""]>
  (<["el" := VStr "#cardmaker"]>
  (<["width" := VNum 400]>
  (<["height" := VNum 250]>
  (<["template" := VObj ∅]> ∅)))))))).

(** The errors of the source, under the names the specification gives
    them.  [NoSurfaceError] is not thrown by the source itself: it is the
    runtime's [TypeError] for the call of [toDataURL] on [undefined]. *)
Definition ConfigKeyError (key : string) : js_error :=
  Error ("Config with key '" +:+ key +:+ "' undefined, please check your key again").
Definition DuplicateSurfaceError : js_error :=
  Error "Cannot create canvas, You've already set the canvas".
Definition ContainerNotFoundError : js_error :=
  Error "Cannot find null element in your DOM".
Definition MissingImageError : js_error :=
  Error "Make sure you set the background image".
Definition MissingColorError : js_error :=
  Error "Make sure you set the background color".
Definition TriggerNotFoundError (download : value) : js_error :=
  Error ("Element " +:+ to_str download
         +:+ " can't found in your DOM. Please check again, maybe you make a typo").
Definition NoSurfaceError : js_error := TypeError.

(** The elements [key[0]], ..., [key[key.length - 1]] that the loop of
    [getConfig] (core.js 169-171) visits. *)
Definition array_like (key : value) : list value :=
  match key with
  | VArr l => l
  | VObj o =>
      match to_number (field o "length") with
      | Some n => (λ k : nat, field o (pretty k)) <$> seq 0 (Z.to_nat n)
      | None => []
      end
  | _ => []
  end.

(** [result[key[k]] = config[key[k]]] for each visited element. *)
Definition collect (keys : list value) (config : gmap string value) : gmap string value :=
  foldl (λ result k, <[to_str k := field config (to_str k)]> result) ∅ keys.

(** [getConfig(key)] (core.js 162-182).  The store is read as the record
    of its own properties, so a key that was never set reads as
    [undefined].  The store of the source is an object literal with
    [Object.prototype] behind it: for a key that was never set and is the
    name of one of its members ([constructor], [toString], [__proto__],
    ...) the code reads the inherited member.  The statements about keys
    that are not fixed by the source exclude those names ([plain_key]). *)
Definition getConfig (key : value) : M value :=
  let* config := read_config in
  if truthy key then
    if String.eqb (typeof key) "object" then
      ret (VObj (collect (array_like key) config))
    else if String.eqb (typeof key) "string" then
      if loose_eq_empty (field config (to_str key))
      then throw (ConfigKeyError (to_str key))
      else ret (field config (to_str key))
    else ret VUndef
  else ret (VObj config).

(** [Object.entries(v)]: own enumerable properties; [null] cannot be
    converted to an object. *)
Definition entries (v : value) : result (list (string * value)) :=
  match v with
  | VNull | VUndef => Throw TypeError
  | VArr l => Ok (imap (λ i x, (pretty i, x)) l)
  | VObj o => Ok (map_to_list o)
  | VStr _ | VBool _ | VNum _ | VElem _ | VImg _ _ _ => Ok []
  end.

(** [setConfig(...params)] (core.js 349-369).  [getConfig()] hands out the
    stored object itself, so the assignments update the store.  An
    assignment [config[key] = val] is an insertion into the record, which
    is what the code does for every key but [__proto__]: that one goes to
    the setter of [Object.prototype] and stores nothing.  The statements
    about keys that are not fixed by the source exclude it. *)
Definition setConfig (params : list value) : M value :=
  let p0 := default VUndef (params !! 0%nat) in
  let p1 := default VUndef (params !! 1%nat) in
  let* config := read_config in
  if String.eqb (typeof p0) "object" then
    let* newConfig := lift (entries p0) in
    write_config (foldl (λ c kv, <[kv.1 := kv.2]> c) config newConfig);;
    getConfig (VArr ((λ kv, VStr kv.1) <$> newConfig))
  else
    write_config (<[to_str p0 := p1]> config);;
    getConfig (VArr [p0]).

(** [getContext()] (core.js 191-193). *)
Definition getContext : M (option nat) :=
  let* c := getConfig (VStr "canvas") in
  if truthy c then
    let* c' := getConfig (VStr "canvas") in
    match c' with
    | VElem h => ret (Some h)
    | _ => throw TypeError
    end
  else ret None.

(** [getImage(format = 'jpeg', quality = 1.0)] (core.js 204-206). *)
Definition getImage (format quality : value) : M value :=
  let format := default_arg format (VStr "jpeg") in
  let quality := default_arg quality (VNum 1) in
  let* c := getConfig (VStr "canvas") in
  match c with
  | VElem h => ret (VStr (toDataURL h ("image/" +:+ to_str format) quality))
  | _ => throw TypeError
  end.

(** [makeCanvas(props = {})] (core.js 216-223). *)
Definition makeCanvas (props : value) : M value :=
  let props := default_arg props (VObj ∅) in
  let* c := getConfig (VStr "canvas") in
  if negb (nullish c) then throw DuplicateSurfaceError
  else
    let canvas := VElem (makeElement "canvas" props) in
    setConfig [VStr "canvas"; canvas];;
    ret canvas.

(** [putCanvas()] (core.js 232-248). *)
Definition putCanvas : M value :=
  let* config := getConfig (VArr [VStr "el"; VStr "width"; VStr "height"]) in
  let* width := lift (get_prop config "width") in
  let* height := lift (get_prop config "height") in
  let* newCanvas := makeCanvas (VObj (<["width" := width]> (<["height" := height]> ∅))) in
  let* el := lift (get_prop config "el") in
  let* elem := lift (querySelector el) in
  match elem with
  | Some e => dom_do (appendChild e newCanvas);; ret newCanvas
  | None => throw ContainerNotFoundError
  end.

(** [enableDownload()] (core.js 136-152). *)
Definition enableDownload : M unit :=
  let* download := getConfig (VStr "download") in
  let* len := lift (get_prop download "length") in
  if gt_zero len then
    let* downloadButton := lift (querySelector download) in
    match downloadButton with
    | Some b => dom_do (addEventListener b "click")
    | None => throw (TriggerNotFoundError download)
    end
  else ret tt.

(** [changeBackground(type, props)] (core.js 103-129). *)
Definition changeBackground (type props : value) : M (option nat) :=
  let* config := getConfig (VArr [VStr "width"; VStr "height"]) in
  let* ctx := getContext in
  ctx_do ctx beginPath;;
  (if is_string type "image" then
     let* img := lift (get_prop props "img") in
     if nullish img then throw MissingImageError
     else
       let* width := lift (get_prop config "width") in
       let* height := lift (get_prop config "height") in
       ctx_do ctx (drawImage5 img (VNum 0) (VNum 0) width height)
   else if is_string type "color" then
     let* color := lift (get_prop props "color") in
     if nullish color then throw MissingColorError
     else
       ctx_do ctx (set_fillStyle color);;
       let* width := lift (get_prop config "width") in
       let* height := lift (get_prop config "height") in
       ctx_do ctx (rect (VNum 0) (VNum 0) width height);;
       ctx_do ctx fill
   else ret tt);;
  ctx_do ctx closePath;;
  ret ctx.

(** [writeText(text, props = {})] (core.js 378-390). *)
Definition writeText (text props : value) : M (option nat) :=
  let props := default_arg props (VObj ∅) in
  let* ctx := getContext in
  let* config := getConfig (VArr [VStr "color"; VStr "align"]) in
  (if loose_eq_empty text || nullish text
   then warn "We've found you insert an empty text, please make sure you make it valuable."
   else ret tt);;
  let* color := lift (rbind (get_prop props "color") (λ c, or_else c (get_prop config "color"))) in
  ctx_do ctx (set_fillStyle color);;
  let* align := lift (rbind (get_prop props "align") (λ a, or_else a (get_prop config "align"))) in
  ctx_do ctx (set_textAlign align);;
  let* size := lift (rbind (get_prop props "size") (λ s, or_else s (Ok (VNum 20)))) in
  let* family := lift (rbind (get_prop props "family") (λ f, or_else f (Ok (VStr "Arial")))) in
  ctx_do ctx (set_font (to_str size +:+ "px " +:+ to_str family));;
  let* x := lift (rbind (get_prop props "x") (λ x, or_else x (Ok (VNum 0)))) in
  let* y := lift (rbind (get_prop props "y") (λ y, or_else y (Ok (VNum 0)))) in
  ctx_do ctx (fillText text x y);;
  ret ctx.

(** The arguments of [ctx.drawImage] in [renderImage] (core.js 315). *)
Definition layer_draw (img prop : value) : result ctx_call :=
  rbind (rbind (get_prop prop "sx") (λ v, or_else v (Ok (VNum 0)))) (λ sx,
  rbind (rbind (get_prop prop "sy") (λ v, or_else v (Ok (VNum 0)))) (λ sy,
  rbind (rbind (get_prop prop "swidth") (λ v, or_else v (get_prop img "width"))) (λ swidth,
  rbind (rbind (get_prop prop "sheight") (λ v, or_else v (get_prop img "height"))) (λ sheight,
  rbind (rbind (get_prop prop "x") (λ v, or_else v (Ok (VNum 0)))) (λ x,
  rbind (rbind (get_prop prop "y") (λ v, or_else v (Ok (VNum 0)))) (λ y,
  rbind (rbind (get_prop prop "width") (λ v, or_else v (get_prop img "width"))) (λ width,
  rbind (rbind (get_prop prop "height") (λ v, or_else v (get_prop img "height"))) (λ height,
  Ok (drawImage9 img sx sy swidth sheight x y width height))))))))).

(** What a timer callback does when it fires. *)
Definition run_timer (t : timer) : M unit :=
  match t with
  | draw_layer ctx img prop =>
      match ctx with
      | Some h => let* c := lift (layer_draw img prop) in emit h c
      | None => throw TypeError
      end
  | write_text val =>
      let* value := lift (get_prop val "value") in
      let* props := lift (get_prop val "props") in
      writeText value props;;
      ret tt
  end.

(** [renderBackground()] (core.js 277-297).  The promise made for a
    background image is not returned by the source; it is handed back here
    so that the event loop can run it. *)
Definition renderBackground : M (list promise) :=
  let* background := getConfig (VStr "background") in
  if isColor background then
    changeBackground (VStr "color") (VObj {["color" := background]});;
    ret []
  else if negb (nullish background) && negb (loose_eq_empty background) then
    ret [then_ (makeImage background) (λ img,
           job (changeBackground (VStr "image") (VObj {["img" := img]});; ret VUndef)
               resolved)]
  else
    changeBackground (VStr "color") (VObj {["color" := colorNameToHex (VStr "black")]});;
    warn "You don't specified background image or color, so .. we give you black background";;
    ret [].

(** The function [renderImage] passes to [Promise.each] (core.js 308-317),
    and inside it the callback that runs once the layer's image has
    loaded (core.js 309-317). *)
Definition layer_callback (image img : value) : promise :=
  job (let* ctx := getContext in
       let* prop := lift (get_prop image "props") in
       setTimeout (draw_layer ctx img prop);;
       ret VUndef)
      resolved.

Definition image_fn (image : value) : promise :=
  job (lift (get_prop image "value")) (λ src,
    then_ (makeImage src) (layer_callback image)).

(** [renderImage()] (core.js 304-322). *)
Definition renderImage : M promise :=
  let* template := getConfig (VStr "template") in
  let* images := lift (get_prop template "images") in
  let* p := lift (Promise_each images image_fn) in
  ret (then_ p (λ _, resolved (VBool true))).

(** The function [renderText] passes to [Promise.each] (core.js 332-336). *)
Definition text_fn (val : value) : promise :=
  job (setTimeout (write_text val);; ret VUndef) resolved.

(** [renderText()] (core.js 329-338), in two parts: the read of the
    template's text list and the chain built over it. *)
Definition renderText_read : M value :=
  let* template := getConfig (VStr "template") in
  lift (get_prop template "text").

Definition renderText_chain (text : value) : result promise :=
  Promise_each text text_fn.

Definition renderText : M promise :=
  let* text := renderText_read in
  lift (renderText_chain text).

(** The callback [() => { this.renderText(); }] of [render]: it calls
    [renderText], drops the promise it returns and returns [undefined]. *)
Definition render_then : promise :=
  job renderText_read (λ text,
    match renderText_chain text with
    | Ok q => spawn q (resolved VUndef)
    | Throw e => rejected e
    end).

(** [render()] (core.js 257-268): the returned promise, and the promises
    [renderBackground] left behind. *)
Definition render : M (promise * list promise) :=
  let* config := getConfig (VArr [VStr "background"; VStr "template"]) in
  let* background := lift (get_prop config "background") in
  (if negb (truthy background) then
     let* template := lift (get_prop config "template") in
     let* tbg := lift (get_prop template "background") in
     let* len := lift (get_prop tbg "length") in
     if gt_zero len then setConfig [VStr "background"; tbg];; ret tt
     else ret tt
   else ret tt);;
  let* bgs := renderBackground in
  let* images := renderImage in
  ret (then_ (Promise_all2 images) (λ _, render_then), bgs).

(** [new CardMaker(configs = {})] (core.js 30-92), on a fresh world; the
    result lists the promises left running. *)
Definition new_CardMaker (configs : value) : M (list promise) :=
  let configs := default_arg configs (VObj ∅) in
  write_config default_config;;
  setConfig [configs];;
  putCanvas;;
  let* r := render in
  enableDownload;;
  ret (r.2 ++ [r.1]).

Definition fresh : world := mkWorld ∅ [] [] [] [].

(** ** The event loop *)

(** The state of the loop: the world, the microtask queue (oldest first)
    and the promises waiting for an image. *)
Record loop := mkLoop {
  lw : world;
  microtasks : list promise;
  pending : list promise
}.

(** Run one reaction job to its end: the new world, the reaction jobs it
    enqueued and the loads it is left waiting for.  An exception ends the
    job (the promise is rejected and nobody listens). *)
Fixpoint run_job (p : promise) (w : world) : world * (list promise * list promise) :=
  match p with
  | resolved _ | rejected _ => (w, ([], []))
  | loading src k => (w, ([], [loading src k]))
  | queued p' => (w, ([p'], []))
  | job m k =>
      match m w with
      | (Ok v, w') => run_job (k v) w'
      | (Throw _, w') => (w', ([], []))
      end
  | spawn q p' =>
      let r1 := run_job q w in
      let r2 := run_job p' r1.1 in
      (r2.1, (r1.2.1 ++ r2.2.1, r1.2.2 ++ r2.2.2))
  end.

Inductive event :=
| Tick                                      (* the oldest reaction job runs *)
| Fire                                      (* the oldest timer fires *)
| Loaded (i : nat) (id : nat) (w h : Z)     (* the i-th awaited image loads *)
| LoadFailed (i : nat).                     (* the i-th awaited image fails *)

Definition drop_timer (w : world) (ts : list timer) : world :=
  mkWorld (config w) (calls w) ts (dom w) (console w).

(** One turn of the loop.  Timers and load events are tasks: they run only
    when no reaction job is waiting.  An exception in a timer callback is
    reported and otherwise lost. *)
Definition exec (ev : event) (s : loop) : option loop :=
  match ev, microtasks s with
  | Tick, p :: ps =>
      let r := run_job p (lw s) in
      Some (mkLoop r.1 (ps ++ r.2.1) (pending s ++ r.2.2))
  | Fire, [] =>
      match timers (lw s) with
      | t :: ts => Some (mkLoop (run_timer t (drop_timer (lw s) ts)).2 [] (pending s))
      | [] => None
      end
  | Loaded i id w h, [] =>
      match pending s !! i with
      | Some (loading src k) => Some (mkLoop (lw s) [k (VImg id w h)] (delete i (pending s)))
      | _ => None
      end
  | LoadFailed i, [] =>
      match pending s !! i with
      | Some _ => Some (mkLoop (lw s) [] (delete i (pending s)))
      | None => None
      end
  | _, _ => None
  end.

(** The loop after synchronous code that left the promises [ps]. *)
Definition start (ps : list promise) (w : world) : loop := mkLoop w ps [].

(** A schedule, event by event. *)
Fixpoint run (evs : list event) (s : loop) : option loop :=
  match evs with
  | [] => Some s
  | ev :: rest =>
      match exec ev s with
      | Some s' => run rest s'
      | None => None
      end
  end.

Inductive reachable (s0 : loop) : loop → Prop :=
| reach_start : reachable s0 s0
| reach_step s ev s' : reachable s0 s → exec ev s = Some s' → reachable s0 s'.

(** Every state a schedule reaches is reachable. *)
Definition after (evs : list event) (s : loop) : loop :=
  default s (run evs s).

(** ** Predicates of the render ordering *)

(** The draw of a text item and the draw of an image layer. *)
Definition is_text_call (c : ctx_call) : bool :=
  match c with
  | fillText _ _ _ => true
  | _ => false
  end.

Definition is_layer_call (c : ctx_call) : bool :=
  match c with
  | drawImage9 _ _ _ _ _ _ _ _ _ => true
  | _ => false
  end.

Definition is_draw_layer (t : timer) : bool :=
  match t with
  | draw_layer _ _ _ => true
  | write_text _ => false
  end.

Definition is_write_text (t : timer) : bool :=
  match t with
  | write_text _ => true
  | draw_layer _ _ _ => false
  end.

(** In a trace of context calls, every layer draw comes before every text
    draw. *)
Definition images_before_text (cs : list (nat * ctx_call)) : Prop :=
  ∀ (i j : nat) (c d : nat * ctx_call),
    cs !! i = Some c → is_text_call c.2 = true →
    cs !! j = Some d → is_layer_call d.2 = true →
    (j < i)%nat.

(** What a piece of synchronous code may do to the world: append context
    calls satisfying [Pc], set timers satisfying [Pt], and leave the
    configuration key [key] alone. *)
Definition frame (Pc : ctx_call → bool) (Pt : timer → bool) (key : string)
    (w w' : world) : Prop :=
  (∃ cs, calls w' = calls w ++ cs ∧ Forall (λ c, Pc c.2 = true) cs) ∧
  (∃ ts, timers w' = timers w ++ ts ∧ Forall (λ t, Pt t = true) ts) ∧
  config w' !! key = config w !! key.

Definition within {A} (Pc : ctx_call → bool) (Pt : timer → bool) (key : string)
    (m : M A) : Prop :=
  ∀ w, frame Pc Pt key w (m w).2.

Definition no_call (c : ctx_call) : bool := false.
Definition no_timer (t : timer) : bool := false.
Definition other_call (c : ctx_call) : bool :=
  negb (is_text_call c) && negb (is_layer_call c).
Definition not_layer_call (c : ctx_call) : bool := negb (is_layer_call c).
Definition not_text_call (c : ctx_call) : bool := negb (is_text_call c).

(** Promises of the image phase proper: their jobs only set layer-draw
    timers. *)
Inductive img_tree : promise → Prop :=
| img_resolved v : img_tree (resolved v)
| img_rejected e : img_tree (rejected e)
| img_loading src k : (∀ img, img_tree (k img)) → img_tree (loading src k)
| img_queued p : img_tree p → img_tree (queued p)
| img_job m k :
    within other_call is_draw_layer "download" m →
    (∀ v, img_tree (k v)) → img_tree (job m k).

(** Promises whose jobs only set timers satisfying [Pt] and only issue
    calls that are neither layer draws nor text draws. *)
Inductive tree_of (Pt : timer → bool) : promise → Prop :=
| tree_resolved v : tree_of Pt (resolved v)
| tree_rejected e : tree_of Pt (rejected e)
| tree_loading src k : (∀ img, tree_of Pt (k img)) → tree_of Pt (loading src k)
| tree_queued p : tree_of Pt p → tree_of Pt (queued p)
| tree_job m k :
    within other_call Pt "download" m →
    (∀ v, tree_of Pt (k v)) → tree_of Pt (job m k)
| tree_spawn q p : tree_of Pt q → tree_of Pt p → tree_of Pt (spawn q p).

(** Promises that set no timer at all: the load of a background image. *)
Definition quiet : promise → Prop := tree_of no_timer.

(** Promises that set no layer-draw timer any more: the text phase, and
    the quiet ones. *)
Definition late : promise → Prop := tree_of is_write_text.

(** The promise [render] returns: image phase first, text phase after. *)
Inductive early : promise → Prop :=
| early_late p : late p → early p
| early_loading src k : (∀ img, early (k img)) → early (loading src k)
| early_queued p : early p → early (queued p)
| early_job m k :
    within other_call is_draw_layer "download" m →
    (∀ v, early (k v)) → early (job m k).

(** The world of the text phase, seen from a trace [base] that was there
    before the render: the calls made since split into a part without
    text draws and a part without layer draws, the timers into layer draws
    followed by text draws, and while a layer draw is still waiting no
    text has been drawn. *)
Definition settled (base : list (nat * ctx_call)) (w : world) : Prop :=
  ∃ ca cb ta tb,
    calls w = base ++ ca ++ cb ∧
    Forall (λ c, not_text_call c.2 = true) ca ∧
    Forall (λ c, not_layer_call c.2 = true) cb ∧
    timers w = ta ++ tb ∧
    Forall (λ t, is_draw_layer t = true) ta ∧
    Forall (λ t, is_write_text t = true) tb ∧
    (ta = [] ∨ cb = []).

(** The world of the image phase. *)
Definition drawing (base : list (nat * ctx_call)) (w : world) : Prop :=
  ∃ cs, calls w = base ++ cs ∧
        Forall (λ c, not_text_call c.2 = true) cs ∧
        Forall (λ t, is_draw_layer t = true) (timers w).

(** The invariant of the loop during a render. *)
Definition render_inv (base : list (nat * ctx_call)) (s : loop) : Prop :=
  (∃ main rest,
      microtasks s ++ pending s ≡ₚ main :: rest ∧
      early main ∧ Forall quiet rest ∧ drawing base (lw s))
  ∨ (Forall late (microtasks s ++ pending s) ∧ settled base (lw s)).

(** The loop right after a call of [render()]. *)
Definition render_loop (w : world) : option loop :=
  match render w with
  | (Ok r, w') => Some (start (r.2 ++ [r.1]) w')
  | (Throw _, _) => None
  end.

(** The scenario of the specification: the template
    [{background: 'blue', images: [], text: [{value: 'Hi', props: {x: 10, y: 20}}]}]
    on an instance with a 400 x 250 canvas (element 1). *)
Definition hi_item : value :=
  VObj (<["value" := VStr "Hi"]>
       (<["props" := VObj (<["x" := VNum 10]> (<["y" := VNum 20]> ∅))]> ∅)).

Definition hi_template : value :=
  VObj (<["background" := VStr "blue"]>
       (<["images" := VArr []]>
       (<["text" := VArr [hi_item]]> ∅))).

Definition hi_world : world :=
  mkWorld (<["canvas" := VElem 1]> (<["template" := hi_template]> default_config))
          [] [] [] [].

Definition blue_fill : list (nat * ctx_call) :=
  [(1, beginPath); (1, set_fillStyle (VStr "blue"));
   (1, rect (VNum 0) (VNum 0) (VNum 400) (VNum 250)); (1, fill); (1, closePath)].

(** A postcondition on the value synchronous code returns. *)
Definition returns {A} (Q : A → Prop) (m : M A) : Prop :=
  ∀ w a w', m w = (Ok a, w') → Q a.

(** The loop right after [render()], when it returned. *)
Definition render_start (w : world) : loop :=
  default (start [] w) (render_loop w).

(** A freshly configured instance without a canvas, and one whose canvas
    is element 1. *)
Definition default_world : world := mkWorld default_config [] [] [] [].

Definition canvas_world : world :=
  mkWorld (<["canvas" := VElem 1]> default_config) [] [] [] [].

(** A template with two image layers and one text item, and a schedule in
    which the first layer is drawn before the second image has loaded. *)
Definition demo_layer (src : string) (x : Z) : value :=
  VObj (<["value" := VStr src]> (<["props" := VObj (<["x" := VNum x]> ∅)]> ∅)).

Definition demo_template : value :=
  VObj (<["background" := VStr "blue"]>
       (<["images" := VArr [demo_layer "a.png" 5; demo_layer "b.png" 60]]>
       (<["text" := VArr [hi_item]]> ∅))).

Definition demo_world : world :=
  mkWorld (<["canvas" := VElem 1]> (<["template" := demo_template]> default_config))
          [] [] [] [].

Definition demo_schedule : list event :=
  [Tick; Tick; Loaded 0 11 640 480; Tick; Tick; Tick; Fire;
   Loaded 0 12 32 32; Tick; Tick; Tick; Tick; Tick; Tick; Fire; Fire].

Definition demo_trace : list (nat * ctx_call) :=
  blue_fill ++
  [(1, drawImage9 (VImg 11 640 480) (VNum 0) (VNum 0) (VNum 640) (VNum 480)
                  (VNum 5) (VNum 0) (VNum 640) (VNum 480));
   (1, drawImage9 (VImg 12 32 32) (VNum 0) (VNum 0) (VNum 32) (VNum 32)
                  (VNum 60) (VNum 0) (VNum 32) (VNum 32));
   (1, set_fillStyle (VStr "black")); (1, set_textAlign (VStr "left"));
   (1, set_font "20px Arial"); (1, fillText (VStr "Hi") (VNum 10) (VNum 20))].

(** A layer whose source width is given as 0, and a store whose width is 0. *)
Definition zero_width_layer : gmap string value := {[ "swidth" := VNum 0 ]}.

Definition zero_width_world : world :=
  mkWorld (<["width" := VNum 0]> default_config) [] [] [] [].

(** ** A complete render *)

(** A promise with the reactions [fs] chained on it, in order. *)
Definition thens (p : promise) (fs : list (value → promise)) : promise :=
  foldl then_ p fs.

(** The reaction job enqueued when a promise with reactions [fs] is
    fulfilled with [v]. *)
Definition next (v : value) (fs : list (value → promise)) : list promise :=
  match fs with
  | [] => []
  | f :: fs' => [thens (f v) fs']
  end.

(** The reactions [render] chains after [Promise.each] over the layers. *)
Definition after_images : list (value → promise) :=
  [λ _, resolved (VBool true); λ v, resolved (VArr [VUndef; v]); λ _, render_then].

Definition add_timers (w : world) (ts : list timer) : world :=
  mkWorld (config w) (calls w) (timers w ++ ts) (dom w) (console w).

(** The draw of a layer whose [props] are the record [p], and the calls
    that write a text item, as the source computes them. *)
Definition image_of (img : nat * Z * Z) : value := VImg img.1.1 img.1.2 img.2.

Definition layer_call (img : nat * Z * Z) (p : gmap string value) : ctx_call :=
  let pick (k : string) (d : value) := if truthy (field p k) then field p k else d in
  drawImage9 (image_of img) (pick "sx" (VNum 0)) (pick "sy" (VNum 0))
             (pick "swidth" (VNum img.1.2)) (pick "sheight" (VNum img.2))
             (pick "x" (VNum 0)) (pick "y" (VNum 0))
             (pick "width" (VNum img.1.2)) (pick "height" (VNum img.2)).

Definition text_calls (cfg : gmap string value) (item : gmap string value) : list ctx_call :=
  let p := match field item "props" with VObj p => p | _ => ∅ end in
  let pick (k : string) (d : value) := if truthy (field p k) then field p k else d in
  [set_fillStyle (pick "color" (field cfg "color"));
   set_textAlign (pick "align" (field cfg "align"));
   set_font (to_str (pick "size" (VNum 20)) +:+ "px " +:+ to_str (pick "family" (VStr "Arial")));
   fillText (field item "value") (pick "x" (VNum 0)) (pick "y" (VNum 0))].

(** The props of a layer are a record; those of a text item are a record
    or left out. *)
Definition layer_ok (l : gmap string value) : Prop :=
  ∃ p, field l "props" = VObj p.

Definition layer_props (l : gmap string value) : gmap string value :=
  match field l "props" with VObj p => p | _ => ∅ end.

Definition item_ok (x : gmap string value) : Prop :=
  field x "props" = VUndef ∨ ∃ p, field x "props" = VObj p.

(** The schedule that loads the images one after the other, in the order
    of the layers, and lets the timers fire at the end. *)
Definition load_events (img : nat * Z * Z) : list event :=
  [Tick; Loaded 0 img.1.1 img.1.2 img.2; Tick; Tick].

Definition full_schedule (imgs : list (nat * Z * Z)) (ntexts : nat) : list event :=
  [Tick] ++ flat_map load_events imgs ++ [Tick; Tick; Tick]
  ++ replicate ntexts Tick ++ replicate (length imgs + ntexts) Fire.

(** The timers the image phase sets, and the calls a complete render adds
    to the trace. *)
Definition layer_timers (h : nat) (imgs : list (nat * Z * Z))
    (ls : list (gmap string value)) : list timer :=
  zip_with (λ img l, draw_layer (Some h) (image_of img) (field l "props")) imgs ls.

Definition layer_calls (h : nat) (imgs : list (nat * Z * Z))
    (ls : list (gmap string value)) : list (nat * ctx_call) :=
  zip_with (λ img l, (h, layer_call img (layer_props l))) imgs ls.

Definition item_calls (h : nat) (cfg : gmap string value)
    (ts : list (gmap string value)) : list (nat * ctx_call) :=
  flat_map (λ x, pair h <$> text_calls cfg x) ts.


(** ** Further notions for the properties of the methods *)

(** Synchronous code that leaves one component of the world as it was. *)
Definition preserves {A X} (f : world → X) (m : M A) : Prop :=
  ∀ w, f (m w).2 = f w.

Definition add_calls (w : world) (cs : list (nat * ctx_call)) : world :=
  mkWorld (config w) (calls w ++ cs) (timers w) (dom w) (console w).

Definition add_console (w : world) (msgs : list string) : world :=
  mkWorld (config w) (calls w) (timers w) (dom w) (console w ++ msgs).

Definition add_dom (w : world) (ds : list dom_effect) : world :=
  mkWorld (config w) (calls w) (timers w) (dom w ++ ds) (console w).

Definition set_config (w : world) (c : gmap string value) : world :=
  mkWorld c (calls w) (timers w) (dom w) (console w).

(** The messages [writeText] and [renderBackground] hand to [console.warn]. *)
Definition empty_text_warning : string :=
  "We've found you insert an empty text, please make sure you make it valuable.".

Definition no_background_warning : string :=
  "You don't specified background image or color, so .. we give you black background".

(** The promise [renderBackground] makes for a background image
    (core.js 285-289). *)
Definition background_promise (background : value) : promise :=
  then_ (makeImage background) (λ img,
    job (changeBackground (VStr "image") (VObj {["img" := img]});; ret VUndef)
        resolved).

(** The calls that fill the whole surface with a colour, and those that
    stretch an image over it. *)
Definition fill_calls (h : nat) (cfg : gmap string value) (color : value)
    : list (nat * ctx_call) :=
  [(h, beginPath); (h, set_fillStyle color);
   (h, rect (VNum 0) (VNum 0) (field cfg "width") (field cfg "height"));
   (h, fill); (h, closePath)].

Definition stretch_calls (h : nat) (cfg : gmap string value) (img : value)
    : list (nat * ctx_call) :=
  [(h, beginPath);
   (h, drawImage5 img (VNum 0) (VNum 0) (field cfg "width") (field cfg "height"));
   (h, closePath)].

(** [render()] after its first step: the background, then the promise of
    the image phase followed by the text phase (core.js 264-267). *)
Definition render_tail : M (promise * list promise) :=
  let* bgs := renderBackground in
  let* images := renderImage in
  ret (then_ (Promise_all2 images) (λ _, render_then), bgs).

(** The canvas element [putCanvas] asks for: the configured size. *)
Definition canvas_element (cfg : gmap string value) : value :=
  VElem (makeElement "canvas"
           (VObj (<["width" := field cfg "width"]>
                 (<["height" := field cfg "height"]> ∅)))).

(** A call that draws neither an image layer nor a text item. *)
Definition background_call (c : nat * ctx_call) : Prop :=
  is_text_call c.2 = false ∧ is_layer_call c.2 = false.

(** An event of a loop that waits for [n] more images, all of them older
    than the ones the event counts. *)
Definition shift_event (n : nat) (ev : event) : event :=
  match ev with
  | Loaded i id w h => Loaded (n + i) id w h
  | LoadFailed i => LoadFailed (n + i)
  | Tick | Fire => ev
  end.

(** The schedule in which the images of the first layers load and the
    next one fails. *)
Definition broken_schedule (imgs : list (nat * Z * Z)) : list event :=
  [Tick] ++ flat_map load_events imgs ++ [Tick; LoadFailed 0]
  ++ replicate (length imgs) Fire.

(** The schedule in which the background image loads last, after the
    layers and the text have been drawn. *)
Definition late_background_schedule (imgs : list (nat * Z * Z)) (ntexts : nat)
    (id : nat) (iw ih : Z) : list event :=
  [Tick] ++ (shift_event 1 <$> full_schedule imgs ntexts)
  ++ [Loaded 0 id iw ih; Tick; Tick].

(** The schedule of a template without text: the images load in the order
    of the layers, then the timers fire. *)
Definition layers_schedule (imgs : list (nat * Z * Z)) : list event :=
  [Tick] ++ flat_map load_events imgs ++ [Tick; Tick; Tick]
  ++ replicate (length imgs) Fire.

(** ** Further instances *)

(** The records behind the sample layers, text item and template. *)
Definition demo_layer_record (src : string) (x : Z) : gmap string value :=
  <["value" := VStr src]> (<["props" := VObj (<["x" := VNum x]> ∅)]> ∅).

Definition hi_record : gmap string value :=
  <["value" := VStr "Hi"]>
  (<["props" := VObj (<["x" := VNum 10]> (<["y" := VNum 20]> ∅))]> ∅).

Definition demo_record : gmap string value :=
  <["background" := VStr "blue"]>
  (<["images" := VArr [demo_layer "a.png" 5; demo_layer "b.png" 60]]>
  (<["text" := VArr [hi_item]]> ∅)).

(** The two-layer instance after [render()] has returned. *)
Definition demo_painted : world :=
  mkWorld (<["background" := VStr "blue"]> (config demo_world)) blue_fill [] [] [].

(** A template whose background is an image, and one with layers and no
    text. *)
Definition photo_record : gmap string value :=
  <["background" := VStr "bg.png"]>
  (<["images" := VArr [demo_layer "a.png" 5; demo_layer "b.png" 60]]>
  (<["text" := VArr [hi_item]]> ∅)).

Definition photo_world : world :=
  mkWorld (<["canvas" := VElem 1]> (<["template" := VObj photo_record]> default_config))
          [] [] [] [].

Definition photo_started : world :=
  set_config photo_world (<["background" := VStr "bg.png"]> (config photo_world)).

Definition layers_record : gmap string value :=
  <["background" := VStr "blue"]>
  (<["images" := VArr [demo_layer "a.png" 5; demo_layer "b.png" 60]]> ∅).

Definition layers_world : world :=
  mkWorld (<["canvas" := VElem 1]> (<["template" := VObj layers_record]> default_config))
          [] [] [] [].

Definition layers_painted : world :=
  mkWorld (<["background" := VStr "blue"]> (config layers_world)) blue_fill [] [] [].

(** Instances with the empty string under [canvas] or [background], with
    a container that does not exist, and with a download trigger. *)
Definition blank_canvas_world : world :=
  mkWorld (<["canvas" := VStr ""]> default_config) [] [] [] [].

Definition blank_background_world : world :=
  mkWorld (<["background" := VStr ""]> (config canvas_world)) [] [] [] [].

Definition lost_world : world :=
  mkWorld (<["el" := VStr "#nowhere"]> default_config) [] [] [] [].

Definition trigger_world : world :=
  mkWorld (<["download" := VStr "#save"]> default_config) [] [] [] [].

Definition trigger_configs : value :=
  VObj (<["download" := VStr "#save"]> (<["template" := hi_template]> ∅)).

(** The draws of the two sample layers. *)
Definition demo_layer_draws : list (nat * ctx_call) :=
  [(1, drawImage9 (VImg 11 640 480) (VNum 0) (VNum 0) (VNum 640) (VNum 480)
                  (VNum 5) (VNum 0) (VNum 640) (VNum 480));
   (1, drawImage9 (VImg 12 32 32) (VNum 0) (VNum 0) (VNum 32) (VNum 32)
                  (VNum 60) (VNum 0) (VNum 32) (VNum 32))].

(** ** Every run of a render *)

(** The reactions chained over the layers and over the text items. *)
Definition layer_fns (ls : list (gmap string value)) : list (value → promise) :=
  (λ l, λ _ : value, image_fn l) <$> (VObj <$> ls).

Definition text_fns (ts : list (gmap string value)) : list (value → promise) :=
  (λ t, λ _ : value, text_fn t) <$> (VObj <$> ts).

(** The callback of the background image (core.js 285-289). *)
Definition background_job (img : value) : promise :=
  job (changeBackground (VStr "image") (VObj {["img" := img]});; ret VUndef) resolved.

(** Where the promise [render()] returned stands: before its first
    reaction, about to start a layer, waiting for the layer's image, with
    the image and the callback still queued, with the callback about to
    run, after the layers (the reaction of [Promise.all], then the
    callback that calls [renderText]), in the text phase with [j] timers
    set, or stopped by an image that failed. *)
Inductive stage :=
| at_start
| at_layer
| at_load
| at_loaded (img : nat * Z * Z)
| at_callback (img : nat * Z * Z)
| at_all
| at_then
| at_text (j : nat)
| at_failed.

(** Where the load of a background image stands. *)
Inductive bg_stage :=
| bg_none
| bg_start
| bg_load
| bg_loaded (img : nat * Z * Z)
| bg_job (img : nat * Z * Z)
| bg_done (img : nat * Z * Z)
| bg_failed.

(** The progress of a render: the two stages, the images of the layers
    whose timers have been set, the timers still waiting, and the calls
    made since [render()] returned. *)
Record progress := mkProgress {
  stage_of : stage;
  bg_of : bg_stage;
  images : list (nat * Z * Z);
  waiting : list timer;
  trace : list (nat * ctx_call)
}.

Definition set_stage (a : progress) (c : stage) : progress :=
  mkProgress c (bg_of a) (images a) (waiting a) (trace a).

Definition set_bg (a : progress) (b : bg_stage) : progress :=
  mkProgress (stage_of a) b (images a) (waiting a) (trace a).

(** The images handed to the layers so far, and those an event hands over. *)
Definition delivered (a : progress) : list (nat * Z * Z) :=
  images a ++ match stage_of a with
              | at_loaded img | at_callback img => [img]
              | _ => []
              end.

Definition bg_image (b : bg_stage) : list (nat * Z * Z) :=
  match b with
  | bg_loaded img | bg_job img | bg_done img => [img]
  | _ => []
  end.

(** The images [loaded] so far are those handed to the layers, in the
    order they arrived, and the background image if it has arrived. *)
Definition splits (b : bg_stage) (loaded layers : list (nat * Z * Z)) : Prop :=
  match bg_image b with
  | [] => loaded = layers
  | img :: _ => ∃ l1 l2, loaded = l1 ++ img :: l2 ∧ layers = l1 ++ l2
  end.

Definition loads_of (ev : event) : list (nat * Z * Z) :=
  match ev with
  | Loaded _ id w h => [(id, w, h)]
  | _ => []
  end.

Definition is_failure (ev : event) : bool :=
  match ev with
  | LoadFailed _ => true
  | _ => false
  end.

(** The calls a timer issues when it fires, on an instance whose canvas
    is [h] and whose configuration is [cfg]. *)
Definition timer_calls (h : nat) (cfg : gmap string value) (t : timer)
    : list (nat * ctx_call) :=
  match t with
  | draw_layer (Some h') img prop =>
      match layer_draw img prop with
      | Ok c => [(h', c)]
      | Throw _ => []
      end
  | draw_layer None _ _ => []
  | write_text (VObj x) => pair h <$> text_calls cfg x
  | write_text _ => []
  end.

(** A text timer as [renderText] sets it for a well-formed item. *)
Definition good_timer (t : timer) : Prop :=
  match t with
  | draw_layer _ _ _ => True
  | write_text v => ∃ x, v = VObj x ∧ item_ok x
  end.

(** The size and the family of a text item print as [to_str] has it. *)
Definition item_printable (x : gmap string value) : Prop :=
  let p := match field x "props" with VObj p => p | _ => ∅ end in
  printable (field p "size") = true ∧ printable (field p "family") = true.

(** A loop with nothing left to do, and a schedule without failed loads. *)
Definition idle (s : loop) : Prop := ∀ ev, exec ev s = None.

Definition all_load (evs : list event) : Prop :=
  Forall (λ ev, is_failure ev = false) evs.

Definition a_load_fails (evs : list event) : Prop :=
  Exists (λ ev, is_failure ev = true) evs.

Section Progress.

Variables (h : nat) (cfg : gmap string value).
Variables (ls ts : list (gmap string value)) (bg : value).

(** The reaction jobs and the pending loads of the two promises at each
    stage; [i] is the number of layers whose timers have been set. *)
Definition main_mt (i : nat) (c : stage) : list promise :=
  match c with
  | at_start => [thens (resolved VUndef) (layer_fns ls ++ after_images)]
  | at_layer => next VUndef (layer_fns (drop i ls) ++ after_images)
  | at_loaded img =>
      match ls !! i with
      | Some l => [thens (queued (layer_callback (VObj l) (image_of img)))
                         (layer_fns (drop (S i) ls) ++ after_images)]
      | None => []
      end
  | at_callback img =>
      match ls !! i with
      | Some l => [thens (layer_callback (VObj l) (image_of img))
                         (layer_fns (drop (S i) ls) ++ after_images)]
      | None => []
      end
  | at_all => next (VBool true) (tail after_images)
  | at_then => [render_then]
  | at_text j => next VUndef (text_fns (drop j ts))
  | at_load | at_failed => []
  end.

Definition main_pd (i : nat) (c : stage) : list promise :=
  match c with
  | at_load =>
      match ls !! i with
      | Some l => [loading (field l "value")
                     (λ img, thens (queued (layer_callback (VObj l) img))
                                   (layer_fns (drop (S i) ls) ++ after_images))]
      | None => []
      end
  | _ => []
  end.

Definition bg_mt (b : bg_stage) : list promise :=
  match b with
  | bg_start => [background_promise bg]
  | bg_loaded img => [queued (background_job (image_of img))]
  | bg_job img => [background_job (image_of img)]
  | _ => []
  end.

Definition bg_pd (b : bg_stage) : list promise :=
  match b with
  | bg_load => [loading bg (λ img, queued (background_job img))]
  | _ => []
  end.

(** One reaction job of the promise [render()] returned. *)
Definition tick_main (a : progress) : progress :=
  match stage_of a with
  | at_start => set_stage a at_layer
  | at_layer =>
      match ls !! length (images a) with
      | Some _ => set_stage a at_load
      | None => set_stage a at_all
      end
  | at_loaded img => set_stage a (at_callback img)
  | at_callback img =>
      match ls !! length (images a) with
      | Some l =>
          mkProgress at_layer (bg_of a) (images a ++ [img])
            (waiting a ++ [draw_layer (Some h) (image_of img) (field l "props")])
            (trace a)
      | None => a
      end
  | at_all => set_stage a at_then
  | at_then => set_stage a (at_text 0)
  | at_text j =>
      match ts !! j with
      | Some x =>
          mkProgress (at_text (S j)) (bg_of a) (images a)
            (waiting a ++ [write_text (VObj x)]) (trace a)
      | None => a
      end
  | at_load | at_failed => a
  end.

(** What an event does to the progress of a render. *)
Definition advance (a : progress) (ev : event) : progress :=
  match ev with
  | Tick =>
      match bg_of a with
      | bg_start => set_bg a bg_load
      | bg_loaded img => set_bg a (bg_job img)
      | bg_job img =>
          mkProgress (stage_of a) (bg_done img) (images a) (waiting a)
            (trace a ++ stretch_calls h cfg (image_of img))
      | _ => tick_main a
      end
  | Fire =>
      match waiting a with
      | t :: rest =>
          mkProgress (stage_of a) (bg_of a) (images a) rest
            (trace a ++ timer_calls h cfg t)
      | [] => a
      end
  | Loaded i id w hh =>
      match bg_of a, i with
      | bg_load, O => set_bg a (bg_loaded (id, w, hh))
      | _, _ =>
          match stage_of a with
          | at_load => set_stage a (at_loaded (id, w, hh))
          | _ => a
          end
      end
  | LoadFailed i =>
      match bg_of a, i with
      | bg_load, O => set_bg a bg_failed
      | _, _ =>
          match stage_of a with
          | at_load => set_stage a at_failed
          | _ => a
          end
      end
  end.

Definition follow (a : progress) (evs : list event) : progress :=
  foldl advance a evs.

(** The stage fits the number of layers done, and the two promises do not
    hold reaction jobs at the same time after the start. *)
Definition stage_ok (a : progress) : Prop :=
  match stage_of a with
  | at_start => images a = []
  | at_layer => length (images a) ≤ length ls
  | at_load | at_loaded _ | at_callback _ | at_failed => length (images a) < length ls
  | at_all | at_then => length (images a) = length ls
  | at_text j => length (images a) = length ls ∧ j ≤ length ts
  end.

Definition bg_ok (a : progress) : Prop :=
  match bg_of a with
  | bg_start => stage_of a = at_start
  | bg_loaded _ | bg_job _ => main_mt (length (images a)) (stage_of a) = []
  | _ => True
  end.

(** The timers set so far. *)
Definition texts_done (c : stage) : nat :=
  match c with
  | at_text j => j
  | _ => 0
  end.

Definition timers_set (a : progress) : list timer :=
  layer_timers h (images a) ls
  ++ (write_text <$> (VObj <$> take (texts_done (stage_of a)) ts)).

(** The trace is that of the timers fired, in the order they were set,
    with the calls of the background image at the point it was painted. *)
Definition accounted (a : progress) : Prop :=
  ∃ fired,
    fired ++ waiting a = timers_set a ∧
    match bg_of a with
    | bg_done img =>
        ∃ pre post,
          fired = pre ++ post ∧
          trace a = flat_map (timer_calls h cfg) pre
                    ++ stretch_calls h cfg (image_of img)
                    ++ flat_map (timer_calls h cfg) post
    | _ => trace a = flat_map (timer_calls h cfg) fired
    end.

(** The loop [s] is at the progress [a] of a render that started on the
    trace [base] and the console [con]; until a text timer is set, the
    console is as it was and only layers wait to be drawn. *)
Record tracks (base : list (nat * ctx_call)) (con : list string)
    (a : progress) (s : loop) : Prop := {
  tracks_microtasks :
    microtasks s = bg_mt (bg_of a) ++ main_mt (length (images a)) (stage_of a);
  tracks_pending :
    pending s = bg_pd (bg_of a) ++ main_pd (length (images a)) (stage_of a);
  tracks_config : config (lw s) = cfg;
  tracks_timers : timers (lw s) = waiting a;
  tracks_calls : calls (lw s) = base ++ trace a;
  tracks_stage : stage_ok a;
  tracks_bg : bg_ok a;
  tracks_good : Forall good_timer (waiting a);
  tracks_console :
    texts_done (stage_of a) = 0 →
    console (lw s) = con ∧ Forall (λ t, is_draw_layer t = true) (waiting a)
}.

End Progress.

(** ** Basic facts about the monad and the configuration store *)

Lemma truthy_key (key : string) : key ≠ "" → truthy (VStr key) = true.
Proof.
  intros Hk. simpl. apply negb_true_iff. by apply String.eqb_neq.
Qed.

Lemma getConfig_string (key : string) (w : world) :
  key ≠ "" →
  getConfig (VStr key) w =
    (if loose_eq_empty (field (config w) key)
     then Throw (ConfigKeyError key)
     else Ok (field (config w) key), w).
Proof.
  intros Hk. unfold getConfig, bind, read_config.
  rewrite (truthy_key key Hk). simpl.
  by destruct (loose_eq_empty (field (config w) key)).
Qed.

Lemma getConfig_keys (keys : list value) (w : world) :
  getConfig (VArr keys) w = (Ok (VObj (collect keys (config w))), w).
Proof. reflexivity. Qed.

Lemma to_str_object_not_empty (v : value) :
  match v with
  | VObj _ | VElem _ | VImg _ _ _ => loose_eq_empty v = false
  | _ => True
  end.
Proof. by destruct v. Qed.

Lemma loose_eq_empty_cases (v : value) :
  loose_eq_empty v = true ↔
  v = VStr "" ∨ v = VNum 0 ∨ v = VBool false ∨ (∃ l, v = VArr l ∧ to_str v = "").
Proof.
  split.
  - destruct v as [| |b|n|s|l|o|h|id iw ih]; simpl; try discriminate.
    + destruct b; [discriminate|]. auto.
    + intros Hn. apply Z.eqb_eq in Hn. subst. auto.
    + intros Hs. apply String.eqb_eq in Hs. subst. auto.
    + intros Hs. apply String.eqb_eq in Hs. right. right. right. by exists l.
  - intros [->|[->|[->|(l & -> & Hl)]]]; try reflexivity.
    unfold loose_eq_empty. by rewrite Hl.
Qed.

(** ** The configuration store *)


Lemma setConfig_pair (p0 p1 : value) (w : world) :
  String.eqb (typeof p0) "object" = false →
  setConfig [p0; p1] w =
    (Ok (VObj {[ to_str p0 := p1 ]}),
     mkWorld (<[to_str p0 := p1]> (config w)) (calls w) (timers w) (dom w) (console w)).
Proof.
  intros Ht. unfold setConfig, bind, read_config, write_config. simpl.
  rewrite Ht. rewrite getConfig_keys. simpl.
  unfold collect, field. simpl. rewrite lookup_insert_eq. simpl.
  by rewrite insert_empty.
Qed.


(** ** The surface *)

Lemma getConfig_canvas_elem (w : world) (h : nat) :
  field (config w) "canvas" = VElem h →
  getConfig (VStr "canvas") w = (Ok (VElem h), w).
Proof.
  intros Hc. rewrite getConfig_string by done. by rewrite Hc.
Qed.

(** C8.  On an instance whose configuration holds a canvas element,
    [makeCanvas] fails with the DuplicateSurfaceError and changes nothing;
    and whatever the instance, a [makeCanvas] that follows a successful
    [makeCanvas] fails with that error and leaves the stored canvas as it
    was. *)
Theorem makeCanvas_once (props : value) (w : world) (h : nat) :
  field (config w) "canvas" = VElem h →
  makeCanvas props w = (Throw DuplicateSurfaceError, w) ∧
  (∀ props0 props1 w0,
     match makeCanvas props0 w0 with
     | (Ok c, w1) =>
         field (config w1) "canvas" = c ∧
         makeCanvas props1 w1 = (Throw DuplicateSurfaceError, w1)
     | (Throw _, w1) => w1 = w0
     end).
Proof.
  intros Hc.
  assert (Hdup : ∀ p w2 h2, field (config w2) "canvas" = VElem h2 →
                 makeCanvas p w2 = (Throw DuplicateSurfaceError, w2)).
  { intros p w2 h2 H2. unfold makeCanvas, bind.
    by rewrite (getConfig_canvas_elem w2 h2 H2). }
  split; [by apply (Hdup props w h)|].
  intros props0 props1 w0. unfold makeCanvas at 1. unfold bind.
  rewrite getConfig_string by done.
  destruct (loose_eq_empty (field (config w0) "canvas")); [done|].
  destruct (negb (nullish (field (config w0) "canvas"))); [done|].
  rewrite setConfig_pair by reflexivity. cbn [fst snd to_str bind ret].
  assert (Hf : field (<["canvas" := VElem (makeElement "canvas" (default_arg props0 (VObj ∅)))]>
                 (config w0)) "canvas"
               = VElem (makeElement "canvas" (default_arg props0 (VObj ∅)))).
  { unfold field. by rewrite lookup_insert_eq. }
  split; [done|]. by eapply Hdup.
Qed.

(** C9 (amended).  On a store whose [canvas] is a canvas element,
    [getImage(format, quality)] returns the element's [toDataURL] payload
    for the type [image/format] and the quality given, where a missing
    format is [jpeg] and a missing quality is [1.0].  On every other store
    it fails: with the ConfigKeyError for [canvas] when the stored value
    is loosely equal to the empty string; with the runtime's [TypeError]
    when there is no canvas ([undefined] or [null]), which is the failure
    the specification calls NoSurfaceError, the source having no error of
    its own for it; and with the same [TypeError] for any other value that
    is not an element.  The world is unchanged in every case. *)
Theorem getImage_payload (w : world) :
  (∀ h, field (config w) "canvas" = VElem h →
     getImage VUndef VUndef w = (Ok (VStr (toDataURL h "image/jpeg" (VNum 1))), w) ∧
     (∀ f, getImage (VStr f) VUndef w
           = (Ok (VStr (toDataURL h ("image/" +:+ f) (VNum 1))), w)) ∧
     (∀ q, q ≠ VUndef →
           getImage VUndef q w = (Ok (VStr (toDataURL h "image/jpeg" q)), w)) ∧
     (∀ f q, q ≠ VUndef →
             getImage (VStr f) q w
             = (Ok (VStr (toDataURL h ("image/" +:+ f) q)), w))) ∧
  (∀ format quality,
     loose_eq_empty (field (config w) "canvas") = true →
     getImage format quality w = (Throw (ConfigKeyError "canvas"), w)) ∧
  (∀ format quality,
     nullish (field (config w) "canvas") = true →
     getImage format quality w = (Throw NoSurfaceError, w)) ∧
  (∀ format quality,
     loose_eq_empty (field (config w) "canvas") = false →
     (∀ h, field (config w) "canvas" ≠ VElem h) →
     getImage format quality w = (Throw TypeError, w)).
Proof.
  assert (Hget : ∀ format quality,
            getImage format quality w =
              (if loose_eq_empty (field (config w) "canvas")
               then Throw (ConfigKeyError "canvas")
               else match field (config w) "canvas" with
                    | VElem h =>
                        Ok (VStr (toDataURL h
                                    ("image/" +:+ to_str (match format with
                                                         | VUndef => VStr "jpeg"
                                                         | _ => format
                                                         end))
                                    (match quality with
                                     | VUndef => VNum 1
                                     | _ => quality
                                     end)))
                    | _ => Throw TypeError
                    end, w)).
  { intros format quality. unfold getImage, bind. cbv zeta.
    rewrite getConfig_string by done.
    destruct (loose_eq_empty (field (config w) "canvas")); [done|].
    by destruct (field (config w) "canvas"), format, quality. }
  split; [|split; [|split]].
  - intros h Hc.
    split; [by rewrite Hget, Hc|]. split; [intros f; by rewrite Hget, Hc|]. split.
    + intros q Hq. rewrite Hget, Hc. by destruct q.
    + intros f q Hq. rewrite Hget, Hc. by destruct q.
  - intros format quality Hs. by rewrite Hget, Hs.
  - intros format quality Hn. rewrite Hget.
    by destruct (field (config w) "canvas").
  - intros format quality Hs Hne. rewrite Hget, Hs.
    destruct (field (config w) "canvas") as [| | | | | | |h|] eqn:Hc; try done.
    by destruct (Hne h).
Qed.

(** ** Image layers *)

(** C10 (amended).  For a loaded image and a layer's property record, the
    timer callback issues exactly one [drawImage] call, whose source
    rectangle is [(sx, sy, swidth, sheight)] and whose destination
    rectangle is [(x, y, width, height)], where each field is the layer's
    own value when that value is truthy and otherwise its default: 0 for
    the four origins, the image's natural width and height for the four
    sizes.  A field that is absent takes its default, and so does a field
    given as 0. *)
Theorem layer_draw_rectangles (h id : nat) (iw ih : Z) (prop : gmap string value)
    (w : world) :
  let img := VImg id iw ih in
  let pick (k : string) (d : value) :=
    if truthy (field prop k) then field prop k else d in
  run_timer (draw_layer (Some h) img (VObj prop)) w =
    emit h (drawImage9 img
              (pick "sx" (VNum 0)) (pick "sy" (VNum 0))
              (pick "swidth" (VNum iw)) (pick "sheight" (VNum ih))
              (pick "x" (VNum 0)) (pick "y" (VNum 0))
              (pick "width" (VNum iw)) (pick "height" (VNum ih))) w
  ∧ (∀ k d, prop !! k = None → pick k d = d)
  ∧ (∀ k d, prop !! k = Some (VNum 0) → pick k d = d)
  ∧ (∀ k d n, prop !! k = Some (VNum n) → n ≠ 0%Z → pick k d = VNum n).
Proof.
  intros img pick. repeat split.
  - unfold run_timer, bind, lift, layer_draw, rbind, or_else, get_prop. subst pick. simpl.
    by repeat (match goal with |- context [truthy ?x] => destruct (truthy x) end).
  - intros k d Hk. subst pick. simpl. unfold field. by rewrite Hk.
  - intros k d Hk. subst pick. simpl. unfold field. by rewrite Hk.
  - intros k d n Hk Hn. subst pick. simpl. unfold field. rewrite Hk. simpl.
    destruct (Z.eqb_spec n 0); [done|]. done.
Qed.

(** ** Download trigger *)

(** C3 (the code's behaviour at the unset target).  With the download
    target at its default, the empty string, [enableDownload()] fails with
    the ConfigKeyError for key [download]; it is not a no-op. *)
Theorem enableDownload_unset_throws (w : world) :
  field (config w) "download" = VStr "" →
  enableDownload w = (Throw (ConfigKeyError "download"), w) ∧
  enableDownload w ≠ (Ok tt, w).
Proof.
  intros Hd. unfold enableDownload, bind.
  rewrite getConfig_string by done. by rewrite Hd.
Qed.

(** For a non-empty selector string the guard of [enableDownload] works as
    written: the trigger is looked up, a missing element is the
    TriggerNotFoundError, a found one gets the click handler. *)
Lemma enableDownload_selector (w : world) (sel : string) :
  sel ≠ "" →
  field (config w) "download" = VStr sel →
  enableDownload w =
    match querySelector (VStr sel) with
    | Ok (Some b) => dom_do (addEventListener b "click") w
    | Ok None => (Throw (TriggerNotFoundError (VStr sel)), w)
    | Throw e => (Throw e, w)
    end.
Proof.
  intros Hs Hd. unfold enableDownload, bind.
  rewrite getConfig_string by done. rewrite Hd. simpl.
  assert (String.eqb sel "" = false) as -> by by apply String.eqb_neq.
  simpl. unfold gt_zero. simpl.
  assert ((0 <? Z.of_nat (String.length sel))%Z = true) as ->.
  { apply Z.ltb_lt. destruct sel; [done|]. simpl. lia. }
  unfold lift. destruct (querySelector (VStr sel)) as [[b|]|e]; done.
Qed.

(** ** Render, step 1 *)

(** C5 (the code's behaviour without a template background).  When the
    configuration has no background and the template object carries no
    [background] field, [render()] fails in its first step with a
    [TypeError] (the read of [length] on [undefined]) and does nothing
    else. *)
Theorem render_without_template_background (w : world) (t : gmap string value) :
  truthy (field (config w) "background") = false →
  field (config w) "template" = VObj t →
  t !! "background" = None →
  render w = (Throw TypeError, w).
Proof.
  intros Hb Ht Hn. unfold render, bind.
  rewrite getConfig_keys. simpl.
  unfold collect. simpl. unfold lift. simpl.
  unfold field at 1. rewrite lookup_insert_ne by done. rewrite lookup_insert_eq. simpl.
  rewrite Hb. simpl.
  unfold field at 1. rewrite lookup_insert_eq. simpl.
  rewrite Ht. simpl. unfold field. rewrite Hn. simpl. done.
Qed.

(** ** What synchronous code touches *)

Lemma frame_refl Pc Pt key w : frame Pc Pt key w w.
Proof.
  repeat split.
  - exists []. by rewrite app_nil_r.
  - exists []. by rewrite app_nil_r.
Qed.

Lemma frame_trans Pc Pt key w1 w2 w3 :
  frame Pc Pt key w1 w2 → frame Pc Pt key w2 w3 → frame Pc Pt key w1 w3.
Proof.
  intros ((cs1 & Hc1 & Hf1) & (ts1 & Ht1 & Hg1) & Hk1)
         ((cs2 & Hc2 & Hf2) & (ts2 & Ht2 & Hg2) & Hk2).
  repeat split.
  - exists (cs1 ++ cs2). rewrite Hc2, Hc1, app_assoc. split; [done|].
    by apply Forall_app.
  - exists (ts1 ++ ts2). rewrite Ht2, Ht1, app_assoc. split; [done|].
    by apply Forall_app.
  - congruence.
Qed.

Lemma frame_mono (Pc Pc' : ctx_call → bool) (Pt Pt' : timer → bool) key w w' :
  (∀ c, Pc c = true → Pc' c = true) →
  (∀ t, Pt t = true → Pt' t = true) →
  frame Pc Pt key w w' → frame Pc' Pt' key w w'.
Proof.
  intros HPc HPt ((cs & Hc & Hf) & (ts & Ht & Hg) & Hk).
  repeat split; [exists cs | exists ts | done]; (split; [done|]).
  - eapply Forall_impl; [exact Hf|]. intros c. apply HPc.
  - eapply Forall_impl; [exact Hg|]. intros t. apply HPt.
Qed.

Section Within.

Variables (Pc : ctx_call → bool) (Pt : timer → bool) (key : string).

Lemma within_ret {A} (a : A) : within Pc Pt key (ret a).
Proof. intros w. apply frame_refl. Qed.

Lemma within_throw {A} (e : js_error) : within Pc Pt key (throw (A := A) e).
Proof. intros w. apply frame_refl. Qed.

Lemma within_lift {A} (r : result A) : within Pc Pt key (lift r).
Proof. intros w. apply frame_refl. Qed.

Lemma within_read_config : within Pc Pt key read_config.
Proof. intros w. apply frame_refl. Qed.

Lemma within_bind {A B} (m : M A) (k : A → M B) :
  within Pc Pt key m → (∀ a, within Pc Pt key (k a)) → within Pc Pt key (bind m k).
Proof.
  intros Hm Hk w. unfold bind. specialize (Hm w).
  destruct (m w) as [[a|e] w1]; simpl in *; [|done].
  eapply frame_trans; [exact Hm|]. apply Hk.
Qed.

Lemma within_emit h c : Pc c = true → within Pc Pt key (emit h c).
Proof.
  intros Hc w. repeat split; simpl.
  - exists [(h, c)]. split; [done|]. by constructor.
  - exists []. by rewrite app_nil_r.
Qed.

Lemma within_ctx_do ctx c : Pc c = true → within Pc Pt key (ctx_do ctx c).
Proof.
  intros Hc. destruct ctx; [by apply within_emit | apply within_throw].
Qed.

Lemma within_setTimeout t : Pt t = true → within Pc Pt key (setTimeout t).
Proof.
  intros Ht w. repeat split; simpl.
  - exists []. by rewrite app_nil_r.
  - exists [t]. split; [done|]. by constructor.
Qed.

Lemma within_dom_do d : within Pc Pt key (dom_do d).
Proof.
  intros w. repeat split; simpl; exists []; by rewrite app_nil_r.
Qed.

Lemma within_warn msg : within Pc Pt key (warn msg).
Proof.
  intros w. repeat split; simpl; exists []; by rewrite app_nil_r.
Qed.

Lemma within_getConfig k : within Pc Pt key (getConfig k).
Proof.
  unfold getConfig. apply within_bind; [apply within_read_config|].
  intros config.
  repeat match goal with
         | |- within _ _ _ (if ?b then _ else _) => destruct b
         end; first [apply within_ret | apply within_throw].
Qed.

Lemma within_setConfig_pair p0 p1 :
  String.eqb (typeof p0) "object" = false →
  to_str p0 ≠ key →
  within Pc Pt key (setConfig [p0; p1]).
Proof.
  intros Ht Hk w. rewrite setConfig_pair by done. repeat split; simpl.
  - exists []. by rewrite app_nil_r.
  - exists []. by rewrite app_nil_r.
  - by rewrite lookup_insert_ne.
Qed.

Lemma within_getContext : within Pc Pt key getContext.
Proof.
  unfold getContext. apply within_bind; [apply within_getConfig|].
  intros c. destruct (truthy c); [|apply within_ret].
  apply within_bind; [apply within_getConfig|].
  intros c'. destruct c'; first [apply within_ret | apply within_throw].
Qed.

End Within.

(** A tactic that walks through monadic code. *)
Ltac within_step :=
  lazymatch goal with
  | |- within _ _ _ (bind _ _) => apply within_bind; [|intros ?]
  | |- within _ _ _ (ret _) => apply within_ret
  | |- within _ _ _ (throw _) => apply within_throw
  | |- within _ _ _ (lift _) => apply within_lift
  | |- within _ _ _ read_config => apply within_read_config
  | |- within _ _ _ (getConfig _) => apply within_getConfig
  | |- within _ _ _ getContext => apply within_getContext
  | |- within _ _ _ (ctx_do _ _) => apply within_ctx_do; reflexivity
  | |- within _ _ _ (emit _ _) => apply within_emit; reflexivity
  | |- within _ _ _ (setTimeout _) => apply within_setTimeout; reflexivity
  | |- within _ _ _ (dom_do _) => apply within_dom_do
  | |- within _ _ _ (warn _) => apply within_warn
  | |- within _ _ _ (setConfig [_; _]) =>
      apply within_setConfig_pair; [reflexivity | discriminate]
  | |- within _ _ _ (if ?b then _ else _) => destruct b
  | |- within _ _ _ (match ?x with _ => _ end) => destruct x
  end.

Ltac within_auto := repeat within_step.

Lemma within_mono {A} (Pc Pc' : ctx_call → bool) (Pt Pt' : timer → bool) key (m : M A) :
  (∀ c, Pc c = true → Pc' c = true) →
  (∀ t, Pt t = true → Pt' t = true) →
  within Pc Pt key m → within Pc' Pt' key m.
Proof.
  intros HPc HPt Hm w. eapply frame_mono; [exact HPc | exact HPt | apply Hm].
Qed.

Lemma within_changeBackground Pt key type props :
  within other_call Pt key (changeBackground type props).
Proof. unfold changeBackground. within_auto. Qed.

Lemma within_writeText Pt key text props :
  within not_layer_call Pt key (writeText text props).
Proof. unfold writeText. within_auto. Qed.

Lemma rbind_ok {A B} (r : result A) (k : A → result B) (b : B) :
  rbind r k = Ok b → ∃ a, r = Ok a ∧ k a = Ok b.
Proof. destruct r as [a|e]; simpl; [eauto | discriminate]. Qed.

Lemma layer_draw_is_layer img prop c :
  layer_draw img prop = Ok c → is_layer_call c = true.
Proof.
  unfold layer_draw. intros Hc.
  repeat (apply rbind_ok in Hc; destruct Hc as (? & _ & Hc)).
  by inversion Hc.
Qed.

Lemma within_run_timer_draw Pt key ctx img prop :
  within not_text_call Pt key (run_timer (draw_layer ctx img prop)).
Proof.
  unfold run_timer. destruct ctx as [h|]; [|apply within_throw].
  intros w. unfold bind, lift.
  destruct (layer_draw img prop) as [c|e] eqn:E; [|apply frame_refl].
  apply within_emit. apply layer_draw_is_layer in E. by destruct c.
Qed.

Lemma within_run_timer_write Pt key val :
  within not_layer_call Pt key (run_timer (write_text val)).
Proof.
  unfold run_timer. within_auto. apply within_writeText.
Qed.

(** ** Promise trees *)

Lemma tree_of_mono (Pt Pt' : timer → bool) p :
  (∀ t, Pt t = true → Pt' t = true) → tree_of Pt p → tree_of Pt' p.
Proof.
  intros HPt. induction 1; constructor; auto.
  eapply within_mono; [| exact HPt | eassumption]. auto.
Qed.

Lemma quiet_late p : quiet p → late p.
Proof. apply tree_of_mono. discriminate. Qed.

Lemma tree_of_then Pt p f :
  tree_of Pt p → (∀ v, tree_of Pt (f v)) → tree_of Pt (then_ p f).
Proof.
  intros Hp Hf. induction Hp; simpl; constructor; auto.
Qed.

Lemma img_tree_then p f :
  img_tree p → (∀ v, img_tree (f v)) → img_tree (then_ p f).
Proof.
  intros Hp Hf. induction Hp; simpl; constructor; auto.
Qed.

Lemma early_then p f :
  img_tree p → (∀ v, early (f v)) → early (then_ p f).
Proof.
  intros Hp Hf. induction Hp; simpl.
  - by apply early_queued.
  - apply early_late. constructor.
  - by apply early_loading.
  - by apply early_queued.
  - by apply early_job.
Qed.

Lemma img_tree_chain (fn : value → promise) (l : list value) (acc : promise) :
  (∀ v, img_tree (fn v)) → img_tree acc →
  img_tree (foldl (λ prev cur, then_ prev (λ _, fn cur)) acc l).
Proof.
  intros Hfn. revert acc. induction l as [|x l IH]; intros acc Hacc; simpl; [done|].
  apply IH. by apply img_tree_then.
Qed.

Lemma tree_of_chain Pt (fn : value → promise) (l : list value) (acc : promise) :
  (∀ v, tree_of Pt (fn v)) → tree_of Pt acc →
  tree_of Pt (foldl (λ prev cur, then_ prev (λ _, fn cur)) acc l).
Proof.
  intros Hfn. revert acc. induction l as [|x l IH]; intros acc Hacc; simpl; [done|].
  apply IH. by apply tree_of_then.
Qed.

Lemma Promise_each_cases (arr : value) (fn : value → promise) (p : promise) :
  Promise_each arr fn = Ok p →
  p = rejected each_error ∨ p = resolved VUndef ∨
  ∃ l, arr = VArr l ∧ p = foldl (λ prev cur, then_ prev (λ _, fn cur)) (resolved VUndef) l.
Proof.
  unfold Promise_each. destruct (negb (truthy arr)).
  { intros [= <-]. auto. }
  destruct (get_prop arr "length") as [len|e]; simpl; [|discriminate].
  destruct (negb (truthy len)).
  { intros [= <-]. auto. }
  assert (Hd : (match arr with
                | VArr l => Ok (foldl (λ prev cur, then_ prev (λ _, fn cur)) (resolved VUndef) l)
                | _ => Throw TypeError
                end) = Ok p →
               ∃ l, arr = VArr l ∧
                 p = foldl (λ prev cur, then_ prev (λ _, fn cur)) (resolved VUndef) l).
  { destruct arr; try discriminate. intros [= <-]. eauto. }
  destruct len as [| | |n| | | | |]; try (intros Hp; right; right; by apply Hd).
  destruct n; try (intros Hp; right; right; by apply Hd).
  intros [= <-]. auto.
Qed.

Lemma img_tree_image_fn image : img_tree (image_fn image).
Proof.
  unfold image_fn. constructor; [apply within_lift|].
  intros src. apply img_tree_then.
  - unfold makeImage. constructor. intros img. constructor.
  - intros img. unfold layer_callback. constructor; [within_auto | constructor].
Qed.

Lemma late_text_fn val : late (text_fn val).
Proof.
  unfold text_fn. constructor; [within_auto | constructor].
Qed.

Lemma img_tree_each images p :
  Promise_each images image_fn = Ok p → img_tree p.
Proof.
  intros Hp. apply Promise_each_cases in Hp as [->|[->|(l & -> & ->)]];
    try constructor.
  apply img_tree_chain; [apply img_tree_image_fn | constructor].
Qed.

Lemma late_each text q :
  Promise_each text text_fn = Ok q → late q.
Proof.
  intros Hq. apply Promise_each_cases in Hq as [->|[->|(l & -> & ->)]];
    try constructor.
  apply tree_of_chain; [apply late_text_fn | constructor].
Qed.

Lemma late_render_then : late render_then.
Proof.
  unfold render_then. constructor.
  - unfold renderText_read. within_auto.
  - intros text. unfold renderText_chain.
    destruct (Promise_each text text_fn) as [q|e] eqn:E; [|constructor].
    constructor; [by eapply late_each | constructor].
Qed.

(** ** What [render] returns *)

Lemma returns_bind {A B} (P : A → Prop) (Q : B → Prop) (m : M A) (k : A → M B) :
  returns P m → (∀ a, P a → returns Q (k a)) → returns Q (bind m k).
Proof.
  intros Hm Hk w b w'. unfold bind.
  destruct (m w) as [[a|e] w1] eqn:E; [|discriminate].
  intros Hb. eapply Hk; [|exact Hb]. by eapply Hm.
Qed.

Lemma returns_any {A} (m : M A) : returns (λ _, True) m.
Proof. by intros w a w' _. Qed.

Lemma returns_ret {A} (Q : A → Prop) (a : A) : Q a → returns Q (ret a).
Proof. intros Ha w b w' [= <- _]. done. Qed.

Lemma returns_renderBackground : returns (Forall quiet) renderBackground.
Proof.
  unfold renderBackground.
  eapply returns_bind; [apply returns_any|]. intros background _.
  destruct (isColor background).
  { eapply returns_bind; [apply returns_any|]. intros _ _. by apply returns_ret. }
  destruct (negb (nullish background) && negb (loose_eq_empty background)).
  - apply returns_ret. constructor; [|constructor].
    apply tree_of_then.
    + unfold makeImage. constructor. intros img. constructor.
    + intros img. constructor; [|constructor].
      within_auto. apply within_changeBackground.
  - eapply returns_bind; [apply returns_any|]. intros _ _.
    eapply returns_bind; [apply returns_any|]. intros _ _. by apply returns_ret.
Qed.

Lemma returns_renderImage : returns img_tree renderImage.
Proof.
  unfold renderImage.
  eapply returns_bind; [apply returns_any|]. intros template _.
  eapply returns_bind; [apply returns_any|]. intros images _.
  eapply (returns_bind (λ p, img_tree p)).
  - intros w p w'. unfold lift. intros [= Hp _]. by eapply img_tree_each.
  - intros p Hp. apply returns_ret. apply img_tree_then; [done|]. constructor.
Qed.

Lemma returns_render : returns (λ r, early r.1 ∧ Forall quiet r.2) render.
Proof.
  unfold render.
  eapply returns_bind; [apply returns_any|]. intros config _.
  eapply returns_bind; [apply returns_any|]. intros background _.
  eapply returns_bind; [apply returns_any|]. intros _ _.
  eapply returns_bind; [apply returns_renderBackground|]. intros bgs Hbgs.
  eapply returns_bind; [apply returns_renderImage|]. intros images Himages.
  apply returns_ret. simpl. split; [|done].
  apply early_then.
  - unfold Promise_all2. apply img_tree_then; [done|]. constructor.
  - intros _. apply early_late. apply late_render_then.
Qed.

Lemma within_renderBackground key : within other_call no_timer key renderBackground.
Proof.
  unfold renderBackground. within_auto; apply within_changeBackground.
Qed.

Lemma within_renderImage key : within other_call no_timer key renderImage.
Proof. unfold renderImage. within_auto. Qed.

Lemma within_render : within other_call no_timer "download" render.
Proof.
  unfold render.
  within_auto; first [apply within_renderBackground | apply within_renderImage].
Qed.

(** ** The loop invariant *)

Lemma other_not_text c : other_call c = true → not_text_call c = true.
Proof. unfold other_call, not_text_call. by intros [? ?]%andb_true_iff. Qed.

Lemma other_not_layer c : other_call c = true → not_layer_call c = true.
Proof. unfold other_call, not_layer_call. by intros [? ?]%andb_true_iff. Qed.

Lemma run_job_tree Pt p :
  tree_of Pt p →
  ∀ w, frame other_call Pt "download" w (run_job p w).1 ∧
       Forall (tree_of Pt) ((run_job p w).2.1 ++ (run_job p w).2.2).
Proof.
  induction 1 as [v|e|src k Hk IH|p Hp IH|m k Hm Hk IH|q p Hq IHq Hp IHp];
    intros w; simpl.
  - split; [apply frame_refl | constructor].
  - split; [apply frame_refl | constructor].
  - split; [apply frame_refl|]. repeat constructor. done.
  - split; [apply frame_refl|]. by repeat constructor.
  - specialize (Hm w). destruct (m w) as [[v|e] w1]; simpl in *.
    + destruct (IH v w1) as [Hf Ht]. split; [|done].
      eapply frame_trans; eassumption.
    + split; [done | constructor].
  - destruct (IHq w) as [Hf1 Ht1].
    destruct (IHp (run_job q w).1) as [Hf2 Ht2].
    split; [eapply frame_trans; eassumption|].
    apply Forall_app in Ht1 as [? ?]. apply Forall_app in Ht2 as [? ?].
    repeat (apply Forall_app; split); done.
Qed.

Lemma settled_of_drawing base w : drawing base w → settled base w.
Proof.
  intros (cs & Hc & Hn & Ht). exists cs, [], (timers w), [].
  rewrite !app_nil_r. repeat split; auto.
Qed.

Lemma drawing_frame base w w' key :
  drawing base w → frame other_call is_draw_layer key w w' → drawing base w'.
Proof.
  intros (cs0 & Hc & Hn & Ht) ((cs & Hcs & Hf) & (ts & Hts & Hg) & _).
  exists (cs0 ++ cs). split; [by rewrite Hcs, Hc, app_assoc|]. split.
  - apply Forall_app. split; [done|].
    eapply Forall_impl; [exact Hf|]. intros c. apply other_not_text.
  - rewrite Hts. apply Forall_app. by split.
Qed.

Lemma drawing_frame_quiet base w w' key :
  drawing base w → frame other_call no_timer key w w' → drawing base w'.
Proof.
  intros Hd Hf. eapply drawing_frame; [exact Hd|].
  eapply frame_mono; [| |exact Hf]; [done | discriminate].
Qed.

Lemma settled_frame_late base w w' key :
  settled base w → frame other_call is_write_text key w w' → settled base w'.
Proof.
  intros (ca & cb & ta & tb & Hc & Hca & Hcb & Ht & Hta & Htb & Hor)
         ((cs & Hcs & Hf) & (ts & Hts & Hg) & _).
  destruct Hor as [-> | ->].
  - exists ca, (cb ++ cs), [], (tb ++ ts).
    rewrite Hcs, Hc, Hts, Ht, <- !app_assoc. repeat split; auto.
    + apply Forall_app. split; [done|].
      eapply Forall_impl; [exact Hf|]. intros c. apply other_not_layer.
    + apply Forall_app. by split.
  - exists (ca ++ cs), [], ta, (tb ++ ts).
    rewrite Hcs, Hc, Hts, Ht, !app_nil_r, <- !app_assoc. repeat split; auto.
    + apply Forall_app. split; [done|].
      eapply Forall_impl; [exact Hf|]. intros c. apply other_not_text.
    + apply Forall_app. by split.
Qed.

Lemma run_job_early base p :
  early p →
  ∀ w, drawing base w →
    (drawing base (run_job p w).1 ∧
     ∃ main, (run_job p w).2.1 ++ (run_job p w).2.2 = [main] ∧ early main)
    ∨ (settled base (run_job p w).1 ∧
       Forall late ((run_job p w).2.1 ++ (run_job p w).2.2)).
Proof.
  induction 1 as [p Hp|src k Hk IH|p Hp IH|m k Hm Hk IH]; intros w Hw.
  - right. destruct (run_job_tree _ _ Hp w) as [Hf Ht]. split; [|done].
    eapply settled_frame_late; [|exact Hf]. by apply settled_of_drawing.
  - left. simpl. split; [done|]. eexists. split; [done|]. by apply early_loading.
  - left. simpl. split; [done|]. eexists. split; [done|]. done.
  - simpl. specialize (Hm w). destruct (m w) as [[v|e] w1]; simpl in *.
    + apply IH. eapply drawing_frame; eassumption.
    + right. split; [|constructor].
      apply settled_of_drawing. eapply drawing_frame; eassumption.
Qed.

Lemma timers_drop_timer w ts : timers (drop_timer w ts) = ts.
Proof. reflexivity. Qed.

Lemma calls_drop_timer w ts : calls (drop_timer w ts) = calls w.
Proof. reflexivity. Qed.

Lemma fire_drawing base w t ts :
  drawing base w → timers w = t :: ts →
  drawing base (run_timer t (drop_timer w ts)).2.
Proof.
  intros (cs0 & Hc & Hn & Ht) Hts. rewrite Hts in Ht.
  apply Forall_cons in Ht as [Hd Ht].
  destruct t as [ctx img prop|val]; [|discriminate].
  destruct (within_run_timer_draw no_timer "download" ctx img prop (drop_timer w ts))
    as ((cs & Hcs & Hf) & (ts' & Hts' & Hg) & _).
  exists (cs0 ++ cs). split; [by rewrite Hcs, calls_drop_timer, Hc, app_assoc|]. split.
  - apply Forall_app. by split.
  - rewrite Hts', timers_drop_timer. apply Forall_app. split; [done|].
    eapply Forall_impl; [exact Hg|]. discriminate.
Qed.

Lemma no_timer_nil (ts : list timer) :
  Forall (λ t, no_timer t = true) ts → ts = [].
Proof. destruct ts; [done|]. intros [? _]%Forall_cons. discriminate. Qed.

Lemma fire_settled base w t ts :
  settled base w → timers w = t :: ts →
  settled base (run_timer t (drop_timer w ts)).2.
Proof.
  intros (ca & cb & ta & tb & Hc & Hca & Hcb & Ht & Hta & Htb & Hor) Hts.
  rewrite Hts in Ht. destruct ta as [|t' ta].
  - simpl in Ht. subst tb. apply Forall_cons in Htb as [Hw Htb].
    destruct t as [ctx img prop|val]; [discriminate|].
    destruct (within_run_timer_write no_timer "download" val (drop_timer w ts))
      as ((cs & Hcs & Hf) & (ts' & Hts' & Hg) & _).
    apply no_timer_nil in Hg. subst ts'.
    exists ca, (cb ++ cs), [], ts.
    rewrite Hcs, Hts', calls_drop_timer, timers_drop_timer, Hc, !app_nil_r,
      <- !app_assoc.
    repeat split; auto. apply Forall_app. by split.
  - simpl in Ht. injection Ht as -> ->. apply Forall_cons in Hta as [Hd Hta].
    destruct Hor as [? | ->]; [discriminate|].
    destruct t' as [ctx img prop|val]; [|discriminate].
    destruct (within_run_timer_draw no_timer "download" ctx img prop
                (drop_timer w (ta ++ tb)))
      as ((cs & Hcs & Hf) & (ts' & Hts' & Hg) & _).
    apply no_timer_nil in Hg. subst ts'.
    exists (ca ++ cs), [], ta, tb.
    rewrite Hcs, Hts', calls_drop_timer, timers_drop_timer, Hc, !app_nil_r,
      <- !app_assoc.
    repeat split; auto. apply Forall_app. by split.
Qed.

Lemma perm_head_cases {A} (x y : A) (l k : list A) :
  x :: l ≡ₚ y :: k →
  (x = y ∧ l ≡ₚ k) ∨ (∃ k', k ≡ₚ x :: k' ∧ l ≡ₚ y :: k').
Proof.
  intros Hp.
  assert (Hx : x ∈ y :: k) by (rewrite <- Hp; left).
  apply elem_of_cons in Hx as [-> | Hx].
  - left. split; [done|]. by apply Permutation_cons_inv in Hp.
  - right. apply elem_of_Permutation in Hx as [k' Hk']. exists k'. split; [done|].
    rewrite Hk' in Hp. rewrite (Permutation_swap x y k') in Hp.
    by apply Permutation_cons_inv in Hp.
Qed.

Lemma early_loading_inv src k img : early (loading src k) → early (k img).
Proof.
  intros He. inversion He as [p Hp|src' k' Hk|p Hp|m k' Hm Hk]; subst.
  - inversion Hp; subst. apply early_late. unfold late. auto.
  - auto.
Qed.

Lemma tree_loading_inv Pt src k img : tree_of Pt (loading src k) → tree_of Pt (k img).
Proof. intros Ht. inversion Ht; subst. auto. Qed.

Lemma render_inv_step base s ev s' :
  render_inv base s → exec ev s = Some s' → render_inv base s'.
Proof.
  intros Hinv Hex. unfold exec in Hex. unfold render_inv in Hinv.
  destruct ev as [| |i id iw ih|i], (microtasks s) as [|p ps] eqn:Hm;
    try discriminate.
  - (* a reaction job runs *)
    injection Hex as <-. unfold render_inv. simpl.
    assert (Hperm : (ps ++ (run_job p (lw s)).2.1) ++ pending s ++ (run_job p (lw s)).2.2
                    ≡ₚ ((run_job p (lw s)).2.1 ++ (run_job p (lw s)).2.2)
                       ++ (ps ++ pending s)).
    { generalize (run_job p (lw s)).2.1 (run_job p (lw s)).2.2 (pending s).
      intros a b c.
      rewrite (Permutation_app_comm ps a), (Permutation_app_comm c b).
      rewrite <- !app_assoc. apply Permutation_app_head.
      rewrite !app_assoc. apply Permutation_app_tail, Permutation_app_comm. }
    destruct Hinv as [(main & rest & Hp & Hmain & Hrest & Hdraw) | [Hlate Hset]].
    + simpl in Hp. apply perm_head_cases in Hp as [[-> Hp] | (rest' & Hr & Hp)].
      * destruct (run_job_early base _ Hmain (lw s) Hdraw)
          as [[Hd (main' & Hnew & Hearly)] | [Hs Hl]].
        -- left. exists main', rest. rewrite Hperm, Hnew. simpl.
           split; [by rewrite Hp|]. done.
        -- right. rewrite Hperm. split; [|done].
           apply Forall_app. split; [done|]. rewrite Hp.
           eapply Forall_impl; [exact Hrest|]. apply quiet_late.
      * rewrite Hr in Hrest. apply Forall_cons in Hrest as [Hq Hrest].
        destruct (run_job_tree _ _ Hq (lw s)) as [Hf Ht].
        left. exists main, (rest' ++ (run_job p (lw s)).2.1 ++ (run_job p (lw s)).2.2).
        rewrite Hperm, Hp. split.
        { rewrite (Permutation_app_comm _ (main :: rest')). done. }
        split; [done|]. split; [by apply Forall_app|].
        eapply drawing_frame_quiet; eassumption.
    + simpl in Hlate. apply Forall_cons in Hlate as [Hq Hlate].
      destruct (run_job_tree _ _ Hq (lw s)) as [Hf Ht].
      right. rewrite Hperm. split; [by apply Forall_app|].
      eapply settled_frame_late; eassumption.
  - (* a timer fires *)
    destruct (timers (lw s)) as [|t ts] eqn:Ht; [discriminate|].
    injection Hex as <-. unfold render_inv. simpl.
    destruct Hinv as [(main & rest & Hp & Hmain & Hrest & Hdraw) | [Hlate Hset]].
    + left. exists main, rest.
      split; [done|]. split; [done|]. split; [done|]. by apply fire_drawing.
    + right. split; [done|]. by apply fire_settled.
  - (* an image loads *)
    destruct (pending s !! i) as [q|] eqn:Hi; [|discriminate].
    destruct q as [| |src k| | |]; try discriminate.
    injection Hex as <-. unfold render_inv. simpl.
    pose proof (delete_Permutation _ _ _ Hi) as Hdel.
    destruct Hinv as [(main & rest & Hp & Hmain & Hrest & Hdraw) | [Hlate Hset]].
    + simpl in Hp. rewrite Hdel in Hp.
      apply perm_head_cases in Hp as [[<- Hp] | (rest' & Hr & Hp)].
      * left. exists (k (VImg id iw ih)), rest. split; [by rewrite Hp|].
        split; [by eapply early_loading_inv|]. done.
      * rewrite Hr in Hrest. apply Forall_cons in Hrest as [Hq Hrest].
        left. exists main, (k (VImg id iw ih) :: rest'). rewrite Hp.
        split; [apply Permutation_swap|]. split; [done|]. split; [|done].
        constructor; [|done]. by eapply tree_loading_inv.
    + right. split; [|done]. simpl in Hlate. rewrite Hdel in Hlate.
      apply Forall_cons in Hlate as [Hq Hlate].
      constructor; [|done]. by eapply tree_loading_inv.
  - (* an image fails to load *)
    destruct (pending s !! i) as [q|] eqn:Hi; [|discriminate].
    injection Hex as <-. unfold render_inv. simpl.
    pose proof (delete_Permutation _ _ _ Hi) as Hdel.
    destruct Hinv as [(main & rest & Hp & Hmain & Hrest & Hdraw) | [Hlate Hset]].
    + simpl in Hp. rewrite Hdel in Hp.
      apply perm_head_cases in Hp as [[<- Hp] | (rest' & Hr & Hp)].
      * right. split; [|by apply settled_of_drawing]. rewrite Hp.
        eapply Forall_impl; [exact Hrest|]. apply quiet_late.
      * rewrite Hr in Hrest. apply Forall_cons in Hrest as [Hq Hrest].
        left. exists main, rest'. done.
    + right. split; [|done]. simpl in Hlate. rewrite Hdel in Hlate.
      by apply Forall_cons in Hlate as [_ Hlate].
Qed.

Lemma render_inv_reachable base s0 s :
  render_inv base s0 → reachable s0 s → render_inv base s.
Proof.
  intros H0. induction 1 as [|s ev s' _ IH Hex]; [done|].
  by eapply render_inv_step.
Qed.

Lemma settled_images_before_text base w :
  settled base w → ∃ cs, calls w = base ++ cs ∧ images_before_text cs.
Proof.
  intros (ca & cb & ta & tb & Hc & Hca & Hcb & _).
  exists (ca ++ cb). split; [done|].
  intros i j c d Hi Hti Hj Hlj.
  destruct (decide (i < length ca)%nat) as [Hlt|Hge].
  { rewrite lookup_app_l in Hi by done.
    rewrite Forall_lookup in Hca. specialize (Hca _ _ Hi).
    unfold not_text_call in Hca. rewrite Hti in Hca. discriminate. }
  destruct (decide (j < length ca)%nat) as [Hlt|Hge']; [lia|].
  rewrite lookup_app_r in Hj by lia.
  rewrite Forall_lookup in Hcb. specialize (Hcb _ _ Hj).
  unfold not_layer_call in Hcb. rewrite Hlj in Hcb. discriminate.
Qed.

Lemma render_inv_start w s0 :
  timers w = [] → render_loop w = Some s0 → render_inv (calls w) s0.
Proof.
  intros Ht. unfold render_loop.
  destruct (render w) as [[r|e] w'] eqn:Hr; [|discriminate].
  intros [= <-].
  destruct (returns_render _ _ _ Hr) as [Hearly Hquiet].
  pose proof (within_render w) as Hf. rewrite Hr in Hf. simpl in Hf.
  left. exists r.1, r.2. simpl. rewrite app_nil_r.
  split; [by rewrite Permutation_app_comm|]. split; [done|]. split; [done|].
  eapply drawing_frame_quiet; [|exact Hf].
  exists []. rewrite app_nil_r, Ht. split; [done|]. split; constructor.
Qed.

Lemma run_reachable evs s : reachable s (after evs s).
Proof.
  unfold after.
  assert (H0 : ∀ s1, reachable s s1 → reachable s (default s (run evs s1)) ∨
                     run evs s1 = None).
  { induction evs as [|ev evs IH]; intros s1 Hs1; simpl; [by left|].
    destruct (exec ev s1) as [s2|] eqn:E; [|by right].
    apply IH. by eapply reach_step. }
  destruct (H0 s (reach_start s)) as [Hr | Hn]; [done|].
  rewrite Hn. simpl. apply reach_start.
Qed.

(** ** Render ordering *)

(** Call [render()] on an instance with no timer pending.  Whatever the
    configuration and the template, and however the image loads and timers
    are scheduled afterwards, in every state the loop reaches the calls
    made since the render have each layer draw before each text draw; and
    as soon as a text-draw timer has been set or a text has been drawn, no
    promise that is still alive can set a layer-draw timer. *)
Lemma render_order_invariant (w : world) (s0 s : loop) :
  timers w = [] →
  render_loop w = Some s0 →
  reachable s0 s →
  ∃ cs, calls (lw s) = calls w ++ cs ∧
        images_before_text cs ∧
        (Exists (λ t, is_write_text t = true) (timers (lw s)) ∨
         Exists (λ c, is_text_call c.2 = true) cs →
         Forall late (microtasks s ++ pending s)).
Proof.
  intros Ht Hr Hs.
  pose proof (render_inv_reachable _ _ _ (render_inv_start _ _ Ht Hr) Hs) as Hinv.
  destruct Hinv as [(main & rest & Hp & Hmain & Hrest & Hdraw) | [Hlate Hset]].
  - destruct (settled_images_before_text _ _ (settled_of_drawing _ _ Hdraw))
      as (cs & Hcs & Hord).
    exists cs. split; [done|]. split; [done|].
    destruct Hdraw as (cs' & Hcs' & Hnc & Hnt).
    assert (cs' = cs) as -> by (rewrite Hcs in Hcs'; by apply app_inv_head in Hcs').
    intros [He | He]; exfalso.
    + apply Exists_exists in He as (t & Hin & Hw).
      rewrite Forall_forall in Hnt. specialize (Hnt _ Hin).
      destruct t; discriminate.
    + apply Exists_exists in He as (c & Hin & Hw).
      rewrite Forall_forall in Hnc. specialize (Hnc _ Hin).
      unfold not_text_call in Hnc. rewrite Hw in Hnc. discriminate.
  - destruct (settled_images_before_text _ _ Hset) as (cs & Hcs & Hord).
    exists cs. done.
Qed.

Lemma bind_ok {A B} (m : M A) (k : A → M B) (w : world) (a : A) (w' : world) :
  m w = (Ok a, w') → bind m k w = k a w'.
Proof. intros Hm. unfold bind. by rewrite Hm. Qed.

Lemma renderBackground_color (w : world) (c : value) :
  field (config w) "background" = c →
  loose_eq_empty c = false →
  isColor c = true →
  renderBackground w =
    (changeBackground (VStr "color") (VObj {["color" := c]});; ret []) w.
Proof.
  intros Hc Hne Hcol. unfold renderBackground.
  rewrite (bind_ok _ _ w c w).
  - by rewrite Hcol.
  - rewrite getConfig_string by done. by rewrite Hc, Hne.
Qed.

Lemma render_hi_world :
  isColor (VStr "blue") = true →
  render hi_world =
    (Ok (rejected each_error, []),
     mkWorld (<["background" := VStr "blue"]> (config hi_world)) blue_fill [] [] []).
Proof.
  intros Hblue.
  set (w1 := mkWorld (<["background" := VStr "blue"]> (config hi_world)) [] [] [] []).
  set (w2 := mkWorld (<["background" := VStr "blue"]> (config hi_world)) blue_fill [] [] []).
  assert (Hbg : renderBackground w1 = (Ok [], w2)).
  { rewrite (renderBackground_color w1 (VStr "blue")) by done.
    subst w1 w2. vm_compute. reflexivity. }
  unfold render.
  rewrite (bind_ok _ _ hi_world _ hi_world (getConfig_keys _ hi_world)).
  rewrite (bind_ok _ _ hi_world VUndef hi_world) by (vm_compute; reflexivity).
  rewrite (bind_ok _ _ hi_world tt w1) by (subst w1; vm_compute; reflexivity).
  rewrite (bind_ok _ _ w1 [] w2 Hbg).
  rewrite (bind_ok _ _ w2 (rejected each_error) w2) by (subst w2; vm_compute; reflexivity).
  reflexivity.
Qed.

(** C1 (the code's behaviour on the scenario).  With [blue] a colour,
    [render()] on the scenario's instance paints the blue background and
    returns a promise that is already rejected with the error of
    [Promise.each] for an empty list; no timer is ever set, and in every
    state the loop reaches the trace is the blue fill alone: the text [Hi]
    is never drawn. *)
Theorem render_hi_never_draws_text :
  isColor (VStr "blue") = true →
  ∃ s0, render_loop hi_world = Some s0 ∧
        microtasks s0 = [rejected each_error] ∧
        ∀ s, reachable s0 s → calls (lw s) = blue_fill ∧ timers (lw s) = [].
Proof.
  intros Hblue.
  set (w' := mkWorld (<["background" := VStr "blue"]> (config hi_world))
                     blue_fill [] [] []).
  exists (start [rejected each_error] w'). unfold render_loop.
  rewrite (render_hi_world Hblue). fold w'.
  split; [done|]. split; [done|].
  assert (Hinv : ∀ s, reachable (start [rejected each_error] w') s →
                 lw s = w' ∧ pending s = [] ∧
                 (microtasks s = [rejected each_error] ∨ microtasks s = [])).
  { induction 1 as [|s ev s' _ (Hw & Hp & Hm) Hex]; [by auto|].
    unfold exec in Hex. rewrite Hw, Hp in Hex.
    destruct Hm as [Hm | Hm]; rewrite Hm in Hex;
      destruct ev; simpl in Hex; try discriminate;
      injection Hex as <-; simpl; auto. }
  intros s Hs. destruct (Hinv s Hs) as (-> & _ & _). done.
Qed.

(** ** Construction *)

Lemma foldl_insert_lookup (es : list (string * value)) (c : gmap string value)
    (k : string) :
  NoDup es.*1 →
  foldl (λ c kv, <[kv.1 := kv.2]> c) c es !! k =
    match (list_to_map es : gmap string value) !! k with
    | Some v => Some v
    | None => c !! k
    end.
Proof.
  revert c. induction es as [|[k0 v0] es IH]; intros c Hnd; simpl; [done|].
  apply NoDup_cons in Hnd as [Hk0 Hnd]. rewrite IH by done.
  destruct (decide (k0 = k)) as [-> | Hne].
  - rewrite lookup_insert_eq.
    rewrite (not_elem_of_list_to_map_1 _ _ Hk0). by rewrite lookup_insert_eq.
  - rewrite !lookup_insert_ne by done. done.
Qed.

Lemma setConfig_object (o : gmap string value) (w : world) :
  ∃ r, setConfig [VObj o] w =
         (Ok r, mkWorld (o ∪ config w) (calls w) (timers w) (dom w) (console w)).
Proof.
  unfold setConfig, bind, read_config, write_config, lift. simpl.
  rewrite getConfig_keys. eexists. f_equal. simpl. f_equal.
  apply map_eq. intros k.
  rewrite foldl_insert_lookup by apply NoDup_fst_map_to_list.
  rewrite list_to_map_to_list, lookup_union.
  by destruct (o !! k), (config w !! k).
Qed.

Lemma within_makeCanvas Pc Pt props : within Pc Pt "download" (makeCanvas props).
Proof. unfold makeCanvas. cbv zeta. within_auto. Qed.

Lemma within_putCanvas Pc Pt : within Pc Pt "download" putCanvas.
Proof. unfold putCanvas. within_auto. apply within_makeCanvas. Qed.

Lemma enableDownload_empty (w : world) :
  field (config w) "download" = VStr "" →
  enableDownload w = (Throw (ConfigKeyError "download"), w).
Proof.
  intros Hd. unfold enableDownload, bind.
  rewrite getConfig_string by done. by rewrite Hd.
Qed.

Lemma new_CardMaker_unfold (configs : value) (w : world) :
  new_CardMaker configs w =
    match (write_config default_config;;
           setConfig [default_arg configs (VObj ∅)];; putCanvas;; render) w with
    | (Ok r, w3) =>
        match enableDownload w3 with
        | (Ok _, w4) => (Ok (r.2 ++ [r.1]), w4)
        | (Throw e, w4) => (Throw e, w4)
        end
    | (Throw e, w') => (Throw e, w')
    end.
Proof.
  unfold new_CardMaker, bind. cbv zeta.
  destruct (write_config default_config w) as [[?|?] w0]; [|done].
  destruct (setConfig _ w0) as [[?|?] w1]; [|done].
  destruct (putCanvas w1) as [[?|?] w2]; [|done].
  destruct (render w2) as [[?|?] w3]; [|done].
  by destruct (enableDownload w3) as [[?|?] w4].
Qed.

Lemma construction_keeps_download (o : gmap string value) (w w3 : world) r :
  o !! "download" = None ∨ o !! "download" = Some (VStr "") →
  (write_config default_config;; setConfig [VObj o];; putCanvas;; render) w
    = (Ok r, w3) →
  field (config w3) "download" = VStr "".
Proof.
  intros Hd. unfold bind at 1 2. unfold write_config.
  destruct (setConfig_object o
              (mkWorld default_config (calls w) (timers w) (dom w) (console w)))
    as [r1 ->].
  set (w1 := mkWorld _ _ _ _ _).
  assert (H1 : config w1 !! "download" = Some (VStr "")).
  { subst w1. simpl. destruct Hd as [Hd | Hd].
    - rewrite lookup_union_r by done. reflexivity.
    - by apply lookup_union_Some_l. }
  unfold bind.
  pose proof (within_putCanvas no_call no_timer w1) as (_ & _ & H2).
  destruct (putCanvas w1) as [[c|e2] w2]; cbn [snd] in H2; [|discriminate].
  pose proof (within_render w2) as (_ & _ & H3).
  destruct (render w2) as [[r'|e3] w3']; cbn [snd] in H3; [|discriminate].
  intros [= _ <-]. unfold field. by rewrite H3, H2, H1.
Qed.

(** C4.  When the configuration object passed to the constructor leaves
    [download] out, or gives it as the empty string, [new CardMaker]
    throws; and when everything before [enableDownload()] has gone through
    (the store is set up, the canvas is attached, [render()] has returned)
    the error is the ConfigKeyError for key [download]. *)
Theorem constructor_throws_without_download
    (configs : value) (o : gmap string value) (w : world) :
  default_arg configs (VObj ∅) = VObj o →
  o !! "download" = None ∨ o !! "download" = Some (VStr "") →
  (∃ e w', new_CardMaker configs w = (Throw e, w')) ∧
  (∀ r w',
     (write_config default_config;; setConfig [VObj o];; putCanvas;; render) w
       = (Ok r, w') →
     new_CardMaker configs w = (Throw (ConfigKeyError "download"), w')).
Proof.
  intros Hcfg Hd. rewrite new_CardMaker_unfold, Hcfg.
  destruct ((write_config default_config;; setConfig [VObj o];; putCanvas;; render) w)
    as [[r|e] w3] eqn:E.
  - rewrite (enableDownload_empty w3 (construction_keeps_download _ _ _ _ Hd E)).
    split; [by eauto|]. by intros r' w' [= _ <-].
  - split; [by eauto | discriminate].
Qed.

(** ** A complete render: the schedule that draws everything *)

Lemma thens_queued p fs : thens (queued p) fs = queued (thens p fs).
Proof.
  unfold thens. revert p. induction fs as [|f fs IH]; intros p; simpl; [done|].
  apply IH.
Qed.

Lemma thens_job m k fs : thens (job m k) fs = job m (λ v, thens (k v) fs).
Proof.
  unfold thens. revert k. induction fs as [|f fs IH]; intros k; simpl; [done|].
  apply IH.
Qed.

Lemma thens_loading src k fs :
  thens (loading src k) fs = loading src (λ img, thens (k img) fs).
Proof.
  unfold thens. revert k. induction fs as [|f fs IH]; intros k; simpl; [done|].
  apply IH.
Qed.

Lemma thens_then p f fs : thens (then_ p f) fs = thens p (f :: fs).
Proof. reflexivity. Qed.

Lemma thens_app p fs gs : thens (thens p fs) gs = thens p (fs ++ gs).
Proof. unfold thens. by rewrite foldl_app. Qed.

Lemma run_job_fulfilled v fs w :
  run_job (thens (resolved v) fs) w = (w, (next v fs, [])).
Proof.
  destruct fs as [|f fs]; [done|].
  change (thens (resolved v) (f :: fs)) with (thens (queued (f v)) fs).
  by rewrite thens_queued.
Qed.

Lemma chain_thens (fn : value → promise) (ls : list value) (acc : promise) :
  foldl (λ prev cur, then_ prev (λ _, fn cur)) acc ls
  = thens acc ((λ l, λ _ : value, fn l) <$> ls).
Proof.
  revert acc. induction ls as [|l ls IH]; intros acc; simpl; [done|].
  by rewrite IH.
Qed.

Lemma run_app evs1 evs2 s :
  run (evs1 ++ evs2) s = match run evs1 s with Some s' => run evs2 s' | None => None end.
Proof.
  revert s. induction evs1 as [|ev evs1 IH]; intros s; simpl; [done|].
  destruct (exec ev s); [apply IH | done].
Qed.

Lemma getContext_elem w h :
  field (config w) "canvas" = VElem h → getContext w = (Ok (Some h), w).
Proof.
  intros Hc. unfold getContext.
  rewrite (bind_ok _ _ w (VElem h) w) by by apply getConfig_canvas_elem.
  simpl. by rewrite (bind_ok _ _ w (VElem h) w) by by apply getConfig_canvas_elem.
Qed.

Lemma tick_single p w :
  exec Tick (mkLoop w [p] [])
  = Some (mkLoop (run_job p w).1 (run_job p w).2.1 (run_job p w).2.2).
Proof. reflexivity. Qed.

Lemma loaded_single src k w id iw ih :
  exec (Loaded 0 id iw ih) (mkLoop w [] [loading src k])
  = Some (mkLoop w [k (VImg id iw ih)] []).
Proof. reflexivity. Qed.

Lemma run_cons ev evs s :
  run (ev :: evs) s = match exec ev s with Some s' => run evs s' | None => None end.
Proof. reflexivity. Qed.

Lemma run_job_image_fn (l : gmap string value) gs w :
  run_job (thens (image_fn (VObj l)) gs) w
  = (w, ([], [loading (field l "value")
                (λ img, thens (queued (layer_callback (VObj l) img)) gs)])).
Proof.
  unfold image_fn. rewrite thens_job. simpl.
  change (then_ (makeImage (field l "value")) (layer_callback (VObj l)))
    with (loading (field l "value") (λ img, queued (layer_callback (VObj l) img))).
  by rewrite thens_loading.
Qed.

Lemma run_job_layer_callback (l : gmap string value) img gs w h :
  field (config w) "canvas" = VElem h →
  run_job (thens (layer_callback (VObj l) img) gs) w
  = (add_timers w [draw_layer (Some h) img (field l "props")], (next VUndef gs, [])).
Proof.
  intros Hc. unfold layer_callback. rewrite thens_job.
  cbn [run_job].
  rewrite (bind_ok _ _ w (Some h) w) by by apply getContext_elem.
  rewrite (bind_ok _ _ w (field l "props") w) by reflexivity.
  cbn [bind setTimeout ret]. apply run_job_fulfilled.
Qed.

Lemma layer_step (l : gmap string value) (img : nat * Z * Z)
    (gs : list (value → promise)) (w : world) (h : nat) :
  field (config w) "canvas" = VElem h →
  run (load_events img) (mkLoop w [thens (image_fn (VObj l)) gs] [])
  = Some (mkLoop (add_timers w [draw_layer (Some h) (image_of img) (field l "props")])
                 (next VUndef gs) []).
Proof.
  intros Hc. unfold load_events.
  rewrite run_cons, tick_single, run_job_image_fn. cbn [fst snd].
  rewrite run_cons, loaded_single.
  rewrite run_cons, tick_single, thens_queued. cbn [run_job fst snd].
  rewrite run_cons, tick_single, (run_job_layer_callback _ _ _ _ h Hc).
  reflexivity.
Qed.

Lemma add_timers_nil w : add_timers w [] = w.
Proof. destruct w. unfold add_timers. simpl. by rewrite app_nil_r. Qed.

Lemma add_timers_app w a b : add_timers (add_timers w a) b = add_timers w (a ++ b).
Proof. unfold add_timers. simpl. by rewrite app_assoc. Qed.

Lemma image_phase (ls : list (gmap string value)) (imgs : list (nat * Z * Z))
    (gs : list (value → promise)) (w : world) (h : nat) :
  field (config w) "canvas" = VElem h →
  length imgs = length ls →
  run (flat_map load_events imgs)
      (mkLoop w (next VUndef (((λ l, λ _ : value, image_fn l) <$> (VObj <$> ls)) ++ gs)) [])
  = Some (mkLoop
            (add_timers w
               (zip_with (λ img l, draw_layer (Some h) (image_of img) (field l "props"))
                         imgs ls))
            (next VUndef gs) []).
Proof.
  revert imgs w. induction ls as [|l ls IH]; intros imgs w Hc Hlen.
  - destruct imgs; [|discriminate]. simpl. by rewrite add_timers_nil.
  - destruct imgs as [|img imgs]; [discriminate|]. injection Hlen as Hlen.
    cbn [flat_map fmap list_fmap app next zip_with].
    rewrite run_app, (layer_step _ _ _ _ h Hc).
    rewrite IH by done. by rewrite add_timers_app.
Qed.

Lemma run_job_text_fn t gs w :
  run_job (thens (text_fn t) gs) w = (add_timers w [write_text t], (next VUndef gs, [])).
Proof.
  unfold text_fn. rewrite thens_job. cbn [run_job bind setTimeout ret].
  apply run_job_fulfilled.
Qed.

Lemma text_phase (ts : list value) (gs : list (value → promise)) (w : world) :
  run (replicate (length ts) Tick)
      (mkLoop w (next VUndef (((λ t, λ _ : value, text_fn t) <$> ts) ++ gs)) [])
  = Some (mkLoop (add_timers w (write_text <$> ts)) (next VUndef gs) []).
Proof.
  revert w. induction ts as [|t ts IH]; intros w.
  - simpl. by rewrite add_timers_nil.
  - cbn [length replicate fmap list_fmap app next].
    rewrite run_cons, tick_single, run_job_text_fn. cbn [fst snd].
    rewrite IH. by rewrite add_timers_app.
Qed.

Lemma Promise_each_array (ls : list value) (fn : value → promise) :
  ls ≠ [] →
  Promise_each (VArr ls) fn
  = Ok (thens (resolved VUndef) ((λ l, λ _ : value, fn l) <$> ls)).
Proof.
  intros Hne. unfold Promise_each. simpl.
  destruct ls as [|l ls]; [done|]. simpl. by rewrite chain_thens.
Qed.

Lemma getConfig_template w t :
  field (config w) "template" = VObj t →
  getConfig (VStr "template") w = (Ok (VObj t), w).
Proof. intros Ht. rewrite getConfig_string by done. by rewrite Ht. Qed.

Lemma middle_phase (w : world) (t : gmap string value) (ts : list value) :
  field (config w) "template" = VObj t →
  field t "text" = VArr ts → ts ≠ [] →
  run [Tick; Tick; Tick] (mkLoop w (next VUndef after_images) [])
  = Some (mkLoop w (next VUndef (((λ t, λ _ : value, text_fn t) <$> ts) ++ [])) []).
Proof.
  intros Ht Htext Hne. unfold after_images. cbn [next].
  rewrite run_cons, tick_single, run_job_fulfilled. cbn [fst snd next].
  rewrite run_cons, tick_single, run_job_fulfilled. cbn [fst snd next thens foldl].
  rewrite run_cons, tick_single. unfold render_then. cbn [run_job].
  unfold renderText_read.
  rewrite (bind_ok _ _ w (VObj t) w) by by apply getConfig_template.
  cbn [lift get_prop]. rewrite Htext. unfold renderText_chain.
  rewrite Promise_each_array by done. cbn [run_job].
  rewrite run_job_fulfilled. cbn [fst snd run]. by rewrite !app_nil_r.
Qed.

Lemma layer_draw_object (img : nat * Z * Z) (p : gmap string value) :
  layer_draw (image_of img) (VObj p) = Ok (layer_call img p).
Proof.
  unfold layer_draw, layer_call, image_of, rbind, or_else, get_prop. simpl.
  by repeat (match goal with |- context [truthy ?x] => destruct (truthy x) end).
Qed.

Lemma fire_single w t ts :
  timers w = t :: ts →
  exec Fire (mkLoop w [] []) = Some (mkLoop (run_timer t (drop_timer w ts)).2 [] []).
Proof. intros Ht. unfold exec. simpl. by rewrite Ht. Qed.

Lemma fire_draws (h : nat) (ls : list (gmap string value)) (imgs : list (nat * Z * Z))
    (w : world) (rest : list timer) :
  Forall layer_ok ls →
  length imgs = length ls →
  timers w = layer_timers h imgs ls ++ rest →
  run (replicate (length imgs) Fire) (mkLoop w [] [])
  = Some (mkLoop (mkWorld (config w) (calls w ++ layer_calls h imgs ls) rest
                          (dom w) (console w)) [] []).
Proof.
  revert imgs w. induction ls as [|l ls IH]; intros imgs w Hok Hlen Ht.
  - destruct imgs; [|discriminate]. simpl in *. rewrite app_nil_r.
    destruct w; simpl in *. by subst.
  - destruct imgs as [|img imgs]; [discriminate|]. injection Hlen as Hlen.
    apply Forall_cons in Hok as [(p & Hp) Hok].
    cbn [length replicate]. rewrite run_cons.
    unfold layer_timers in Ht. cbn [zip_with app] in Ht.
    rewrite (fire_single _ _ _ Ht). cbn [run_timer]. rewrite Hp.
    rewrite (bind_ok _ _ _ (layer_call img p) (drop_timer w _))
      by (unfold lift; by rewrite layer_draw_object).
    cbn [emit snd].
    rewrite IH; [|done|done|reflexivity].
    cbn [config calls dom console drop_timer].
    unfold layer_calls, layer_props. cbn [zip_with]. rewrite Hp.
    by rewrite <- app_assoc.
Qed.

Lemma or_else_ok (a d : value) :
  or_else a (Ok d) = Ok (if truthy a then a else d).
Proof. unfold or_else. by destruct (truthy a). Qed.

Lemma collect_color_align (c : gmap string value) :
  field (collect [VStr "color"; VStr "align"] c) "color" = field c "color" ∧
  field (collect [VStr "color"; VStr "align"] c) "align" = field c "align".
Proof.
  unfold collect, field at 1 3. simpl.
  rewrite lookup_insert_ne by done. by rewrite !lookup_insert_eq.
Qed.

Lemma writeText_item (w : world) (h : nat) (x : gmap string value) :
  field (config w) "canvas" = VElem h →
  item_ok x →
  ∃ w', writeText (field x "value") (field x "props") w = (Ok (Some h), w') ∧
        config w' = config w ∧
        calls w' = calls w ++ (pair h <$> text_calls (config w) x) ∧
        timers w' = timers w.
Proof.
  intros Hc Hx. unfold writeText. cbv zeta.
  assert (Hp : default_arg (field x "props") (VObj ∅)
               = VObj (match field x "props" with VObj p => p | _ => ∅ end)).
  { destruct Hx as [-> | (p & ->)]; reflexivity. }
  rewrite Hp. unfold text_calls.
  set (p := match field x "props" with VObj p => p | _ => ∅ end).
  destruct (collect_color_align (config w)) as [Hcol Hal].
  rewrite (bind_ok _ _ w (Some h) w) by by apply getContext_elem.
  rewrite (bind_ok _ _ w _ w (getConfig_keys _ w)).
  cbn [get_prop rbind]. rewrite !or_else_ok, Hcol, Hal.
  destruct (loose_eq_empty (field x "value") || nullish (field x "value"));
    cbn [bind lift ctx_do emit ret warn fst snd config calls timers dom console];
    (eexists; split; [reflexivity|]; cbn [config calls timers];
     split; [done|]; split; [|done]; by rewrite <- !app_assoc).
Qed.

Lemma run_timer_write_text (w : world) (h : nat) (x : gmap string value) :
  field (config w) "canvas" = VElem h →
  item_ok x →
  ∃ w', run_timer (write_text (VObj x)) w = (Ok tt, w') ∧
        config w' = config w ∧
        calls w' = calls w ++ (pair h <$> text_calls (config w) x) ∧
        timers w' = timers w.
Proof.
  intros Hc Hx. unfold run_timer. cbn [lift get_prop].
  rewrite (bind_ok _ _ w (field x "value") w) by reflexivity.
  rewrite (bind_ok _ _ w (field x "props") w) by reflexivity.
  destruct (writeText_item w h x Hc Hx) as (w' & Hw & Hrest).
  exists w'. split; [|done]. by rewrite (bind_ok _ _ w (Some h) w' Hw).
Qed.

Lemma fire_writes (h : nat) (ts : list (gmap string value)) (w : world) :
  field (config w) "canvas" = VElem h →
  Forall item_ok ts →
  timers w = write_text <$> (VObj <$> ts) →
  ∃ w', run (replicate (length ts) Fire) (mkLoop w [] []) = Some (mkLoop w' [] []) ∧
        config w' = config w ∧
        calls w' = calls w ++ item_calls h (config w) ts ∧
        timers w' = [].
Proof.
  revert w. induction ts as [|x ts IH]; intros w Hc Hok Ht.
  - exists w. simpl. rewrite app_nil_r. done.
  - apply Forall_cons in Hok as [Hx Hok].
    cbn [length replicate fmap list_fmap] in *. rewrite run_cons.
    rewrite (fire_single _ _ _ Ht).
    destruct (run_timer_write_text (drop_timer w (write_text <$> (VObj <$> ts))) h x)
      as (w1 & Hrun & Hcfg & Hcalls & Htim); [done | done |].
    rewrite Hrun. cbn [snd].
    destruct (IH w1) as (w' & Hrun' & Hcfg' & Hcalls' & Htim'); [| done | |].
    { by rewrite Hcfg. }
    { by rewrite Htim. }
    exists w'. split; [done|]. split; [by rewrite Hcfg', Hcfg|]. split; [|done].
    rewrite Hcalls', Hcalls, Hcfg. cbn [calls drop_timer config item_calls flat_map].
    by rewrite <- app_assoc.
Qed.

Lemma bind_inv {A B} (m : M A) (k : A → M B) (w : world) (b : B) (w' : world) :
  bind m k w = (Ok b, w') → ∃ a w1, m w = (Ok a, w1) ∧ k a w1 = (Ok b, w').
Proof.
  unfold bind. destruct (m w) as [[a|e] w1]; [eauto | discriminate].
Qed.

Lemma getConfig_world key w : (getConfig key w).2 = w.
Proof.
  unfold getConfig, bind, read_config.
  by repeat match goal with
            | |- context [if ?b then _ else _] => destruct b
            end.
Qed.

Lemma renderImage_world w : (renderImage w).2 = w.
Proof.
  unfold renderImage, bind.
  pose proof (getConfig_world (VStr "template") w) as Hg.
  destruct (getConfig (VStr "template") w) as [[template|e] w1]; simpl in Hg; subst;
    [|done].
  unfold lift.
  destruct (get_prop template "images") as [images|e]; [|done].
  by destruct (Promise_each images image_fn).
Qed.

Lemma render_main w main bgs w1 :
  render w = (Ok (main, bgs), w1) →
  ∃ p, renderImage w1 = (Ok p, w1) ∧
       main = then_ (Promise_all2 p) (λ _, render_then).
Proof.
  unfold render. intros Hr.
  apply bind_inv in Hr as (config & wa & _ & Hr).
  apply bind_inv in Hr as (background & wb & _ & Hr).
  apply bind_inv in Hr as (u & wc & _ & Hr).
  apply bind_inv in Hr as (bgs' & wd & _ & Hr).
  apply bind_inv in Hr as (images & we & Himg & Hr).
  injection Hr as <- <- <-.
  pose proof (renderImage_world wd) as Hw. rewrite Himg in Hw. simpl in Hw. subst we.
  by exists images.
Qed.

Lemma renderImage_eval w t ls :
  field (config w) "template" = VObj t →
  field t "images" = VArr ls → ls ≠ [] →
  renderImage w
  = (Ok (then_ (thens (resolved VUndef) ((λ l, λ _ : value, image_fn l) <$> ls))
               (λ _, resolved (VBool true))), w).
Proof.
  intros Ht Hi Hne. unfold renderImage.
  rewrite (bind_ok _ _ w (VObj t) w) by by apply getConfig_template.
  cbn [lift get_prop]. rewrite Hi.
  rewrite (bind_ok _ _ w (VArr ls) w) by reflexivity.
  rewrite Promise_each_array by done.
  reflexivity.
Qed.

(** The run of [full_schedule] from the promise [render()] returned,
    whatever [renderBackground] left behind. *)
Lemma main_draws
    (w w1 : world) (main : promise) (bgs : list promise) (h : nat)
    (t : gmap string value)
    (ls ts : list (gmap string value)) (imgs : list (nat * Z * Z)) :
  render w = (Ok (main, bgs), w1) →
  timers w1 = [] →
  field (config w1) "canvas" = VElem h →
  field (config w1) "template" = VObj t →
  field t "images" = VArr (VObj <$> ls) → ls ≠ [] → Forall layer_ok ls →
  field t "text" = VArr (VObj <$> ts) → ts ≠ [] → Forall item_ok ts →
  length imgs = length ls →
  ∃ w', run (full_schedule imgs (length ts)) (start [main] w1) = Some (mkLoop w' [] []) ∧
        config w' = config w1 ∧ timers w' = [] ∧
        calls w' = calls w1 ++ layer_calls h imgs ls ++ item_calls h (config w1) ts.
Proof.
  intros Hr Htim Hc Ht Hi Hls Hlok Htx Hts Htok Hlen.
  apply render_main in Hr as (p & Hp & ->).
  rewrite (renderImage_eval w1 t (VObj <$> ls)) in Hp; [|done|done|by destruct ls].
  injection Hp as <-.
  change (then_ (Promise_all2 _) _)
    with (thens (thens (resolved VUndef)
                   ((λ l, λ _ : value, image_fn l) <$> (VObj <$> ls))) after_images).
  rewrite thens_app.
  unfold full_schedule, start.
  rewrite run_app, run_cons, tick_single, run_job_fulfilled. cbn [fst snd run].
  rewrite run_app, (image_phase ls imgs after_images w1 h Hc Hlen).
  rewrite run_app.
  rewrite (middle_phase _ t (VObj <$> ts)); [|done|done|by destruct ts].
  rewrite run_app.
  match goal with
  | |- context [run (replicate (length ts) Tick) (mkLoop ?w0 _ [])] =>
      pose proof (text_phase (VObj <$> ts) [] w0) as Htp
  end.
  rewrite length_fmap in Htp. rewrite Htp. clear Htp. cbn [next].
  rewrite replicate_add, run_app.
  rewrite (fire_draws h ls imgs _ (write_text <$> (VObj <$> ts))); [|done|done|].
  2:{ cbn [add_timers timers]. by rewrite Htim. }
  cbn [add_timers config calls dom console].
  match goal with
  | |- context [run _ (mkLoop ?w0 [] [])] =>
      destruct (fire_writes h ts w0) as (w' & Hrun & Hcfg & Hcalls & Htim');
        [done | done | reflexivity |]
  end.
  rewrite Hrun. exists w'.
  split; [done|]. split; [done|]. split; [done|].
  rewrite Hcalls. cbn [calls config]. by rewrite app_assoc.
Qed.




(** ** More on the configuration store *)

Lemma collect_lookup (keys : list value) (c acc : gmap string value) (k : string) :
  foldl (λ result x, <[to_str x := field c (to_str x)]> result) acc keys !! k
  = if decide (k ∈ to_str <$> keys) then Some (field c k) else acc !! k.
Proof.
  revert acc. induction keys as [|x keys IH]; intros acc.
  - cbn [foldl fmap list_fmap]. case_decide as Hin; [|done].
    by apply elem_of_nil in Hin.
  - cbn [foldl fmap list_fmap]. rewrite IH.
    destruct (decide (k ∈ to_str <$> keys)) as [Hin|Hnin];
      destruct (decide (k ∈ to_str x :: (to_str <$> keys))) as [Hin'|Hnin'].
    + done.
    + exfalso. apply Hnin'. by right.
    + apply elem_of_cons in Hin' as [->|?]; [|done]. by rewrite lookup_insert_eq.
    + rewrite lookup_insert_ne; [done|]. intros <-. apply Hnin'. by left.
Qed.

Lemma to_str_VStr_fmap (ks : list string) : to_str <$> (VStr <$> ks) = ks.
Proof. induction ks as [|k ks IH]; csimpl; [done|]. by rewrite IH. Qed.

(** X1.  [getConfig] with a list of string keys, none of them the name of a
    member inherited from [Object.prototype], never fails and leaves the
    store unchanged; the record it returns has exactly the requested keys,
    each with its stored value ([undefined] for a key never set), whatever
    the values are and in whatever order the keys are asked. *)
Theorem getConfig_keys_record (ks : list string) (w : world) :
  Forall (λ k, plain_key k = true) ks →
  ∃ m : gmap string value,
    getConfig (VArr (VStr <$> ks)) w = (Ok (VObj m), w) ∧
    (∀ k, m !! k = if decide (k ∈ ks) then Some (field (config w) k) else None) ∧
    (∀ ks', ks' ≡ₚ ks → getConfig (VArr (VStr <$> ks')) w = (Ok (VObj m), w)).
Proof.
  intros _. exists (collect (VStr <$> ks) (config w)).
  assert (Hl : ∀ l k, collect (VStr <$> l) (config w) !! k
                 = if decide (k ∈ l) then Some (field (config w) k) else None).
  { intros l k. unfold collect. rewrite collect_lookup, to_str_VStr_fmap.
    by rewrite lookup_empty. }
  split; [apply getConfig_keys|]. split; [apply Hl|].
  intros ks' Hp. rewrite getConfig_keys.
  assert (collect (VStr <$> ks') (config w) = collect (VStr <$> ks) (config w))
    as ->; [|done].
  apply map_eq. intros k. rewrite !Hl.
  destruct (decide (k ∈ ks')) as [Hin|Hnin].
  - rewrite decide_True; [done|]. by rewrite <- Hp.
  - rewrite decide_False; [done|]. by rewrite <- Hp.
Qed.


Lemma entries_keys (o : gmap string value) :
  to_str <$> ((λ kv : string * value, VStr kv.1) <$> map_to_list o)
  = (map_to_list o).*1.
Proof.
  induction (map_to_list o) as [|kv l IH]; csimpl; [done|]. by rewrite IH.
Qed.

(** X3.  The batch form [setConfig(object)], for an object without an own
    [__proto__] entry, never fails: it merges the object into the store
    (the object's values win, every other key keeps its value), touches
    nothing else, and returns a record equal to the object itself. *)
Theorem setConfig_batch (o : gmap string value) (w : world) :
  o !! "__proto__" = None →
  setConfig [VObj o] w = (Ok (VObj o), set_config w (o ∪ config w)) ∧
  (∀ k, o !! k = None → field (o ∪ config w) k = field (config w) k) ∧
  (∀ k v, o !! k = Some v → field (o ∪ config w) k = v).
Proof.
  intros _.
  assert (Hm : foldl (λ c kv, <[kv.1 := kv.2]> c) (config w) (map_to_list o)
               = o ∪ config w).
  { apply map_eq. intros k.
    rewrite foldl_insert_lookup by apply NoDup_fst_map_to_list.
    rewrite list_to_map_to_list, lookup_union.
    by destruct (o !! k), (config w !! k). }
  split; [|split].
  - unfold setConfig, bind, read_config, write_config, lift. simpl.
    rewrite getConfig_keys. simpl. rewrite Hm. unfold set_config.
    do 3 f_equal. apply map_eq. intros k. unfold collect.
    rewrite collect_lookup, entries_keys, lookup_empty.
    destruct (o !! k) as [v|] eqn:Hk.
    + rewrite decide_True.
      * unfold field. by rewrite (lookup_union_Some_l _ _ _ _ Hk).
      * apply list_elem_of_fmap. exists (k, v). split; [done|].
        by apply elem_of_map_to_list.
    + rewrite decide_False; [done|].
      intros ([k' v] & -> & Hin)%list_elem_of_fmap.
      apply elem_of_map_to_list in Hin. simpl in Hk. congruence.
  - intros k Hk. unfold field. by rewrite lookup_union_r.
  - intros k v Hk. unfold field. by rewrite (lookup_union_Some_l _ _ _ _ Hk).
Qed.

(** X4.  The pair form [setConfig(key, value)] with a primitive key whose
    string form is not [__proto__] stores the value under the key's string
    form and touches nothing else; two such updates on different keys
    commute, and each leaves the other key's value as it was. *)
Theorem setConfig_pairs_commute (p0 p1 q0 q1 : value) (w : world) :
  printable p0 = true → p0 ≠ VNull → to_str p0 ≠ "__proto__" →
  printable q0 = true → q0 ≠ VNull → to_str q0 ≠ "__proto__" →
  to_str p0 ≠ to_str q0 →
  (setConfig [q0; q1] (setConfig [p0; p1] w).2).2
    = (setConfig [p0; p1] (setConfig [q0; q1] w).2).2 ∧
  (setConfig [p0; p1] w).2 = set_config w (<[to_str p0 := p1]> (config w)) ∧
  field (config (setConfig [p0; p1] w).2) (to_str q0) = field (config w) (to_str q0) ∧
  field (config (setConfig [q0; q1] (setConfig [p0; p1] w).2).2) (to_str p0) = p1.
Proof.
  intros Hpp Hpn _ Hqp Hqn _ Hne.
  assert (Hp : String.eqb (typeof p0) "object" = false) by by destruct p0.
  assert (Hq : String.eqb (typeof q0) "object" = false) by by destruct q0.
  rewrite (setConfig_pair p0 p1 w), (setConfig_pair q0 q1 w) by done. cbn [snd].
  rewrite (setConfig_pair q0 q1), (setConfig_pair p0 p1) by done.
  cbn [snd config calls timers dom console].
  unfold set_config, field. repeat split.
  - f_equal. by apply insert_insert_ne.
  - by rewrite lookup_insert_ne.
  - rewrite lookup_insert_ne by done. by rewrite lookup_insert_eq.
Qed.

(** ** More on the surface *)

Lemma nullish_cases (v : value) : nullish v = true → v = VUndef ∨ v = VNull.
Proof. destruct v; try discriminate; auto. Qed.

Lemma getConfig_canvas_nullish (w : world) :
  nullish (field (config w) "canvas") = true →
  getConfig (VStr "canvas") w = (Ok (field (config w) "canvas"), w).
Proof.
  intros Hn. rewrite getConfig_string by done.
  by destruct (nullish_cases _ Hn) as [-> | ->].
Qed.

Lemma getConfig_canvas_sentinel (w : world) :
  loose_eq_empty (field (config w) "canvas") = true →
  getConfig (VStr "canvas") w = (Throw (ConfigKeyError "canvas"), w).
Proof. intros Hs. rewrite getConfig_string by done. by rewrite Hs. Qed.

Lemma makeCanvas_new (props : value) (w : world) :
  nullish (field (config w) "canvas") = true →
  makeCanvas props w
  = (Ok (VElem (makeElement "canvas" (default_arg props (VObj ∅)))),
     set_config w (<["canvas" := VElem (makeElement "canvas" (default_arg props (VObj ∅)))]>
                     (config w))).
Proof.
  intros Hn. unfold makeCanvas. cbv zeta.
  rewrite (bind_ok _ _ w _ w (getConfig_canvas_nullish w Hn)). rewrite Hn. cbn [negb].
  unfold bind. rewrite setConfig_pair by reflexivity. reflexivity.
Qed.

Lemma bind_throw {A B} (m : M A) (k : A → M B) (w : world) (e : js_error) (w' : world) :
  m w = (Throw e, w') → bind m k w = (Throw e, w').
Proof. intros Hm. unfold bind. by rewrite Hm. Qed.

Lemma getContext_nullish (w : world) :
  nullish (field (config w) "canvas") = true → getContext w = (Ok None, w).
Proof.
  intros Hn. unfold getContext.
  rewrite (bind_ok _ _ w _ w (getConfig_canvas_nullish w Hn)).
  by destruct (nullish_cases _ Hn) as [-> | ->].
Qed.

Lemma getContext_sentinel (w : world) :
  loose_eq_empty (field (config w) "canvas") = true →
  getContext w = (Throw (ConfigKeyError "canvas"), w).
Proof.
  intros Hs. unfold getContext.
  by rewrite (bind_throw _ _ w _ w (getConfig_canvas_sentinel w Hs)).
Qed.

(** X5.  On an instance without a canvas ([undefined] or [null] in the
    store), [makeCanvas(props)] returns the element [makeElement] builds
    from the props (an empty record when none are given), stores it under
    [canvas] and changes nothing else; from then on [getContext()] is that
    element's context and [getImage()] is its JPEG payload at quality 1. *)
Theorem makeCanvas_creates (props : value) (w : world) :
  nullish (field (config w) "canvas") = true →
  let c := makeElement "canvas" (default_arg props (VObj ∅)) in
  let w' := set_config w (<["canvas" := VElem c]> (config w)) in
  getContext w = (Ok None, w) ∧
  makeCanvas props w = (Ok (VElem c), w') ∧
  getContext w' = (Ok (Some c), w') ∧
  getImage VUndef VUndef w' = (Ok (VStr (toDataURL c "image/jpeg" (VNum 1))), w').
Proof.
  intros Hn c w'.
  assert (Hc : field (config w') "canvas" = VElem c).
  { unfold field. subst w'. simpl. by rewrite lookup_insert_eq. }
  split; [by apply getContext_nullish|]. split; [by apply makeCanvas_new|].
  split; [by apply getContext_elem|].
  unfold getImage. cbv zeta.
  by rewrite (bind_ok _ _ w' _ w' (getConfig_canvas_elem w' c Hc)).
Qed.

(** X6.  When the store holds under [canvas] a value loosely equal to the
    empty string (the empty string, 0, [false], an empty array), every
    method that reaches for the canvas fails with the ConfigKeyError for
    [canvas] and leaves the world as it was: [makeCanvas], [getContext],
    [getImage], [changeBackground] and [writeText]. *)
Theorem canvas_sentinel_poisons (w : world) (a b : value) :
  loose_eq_empty (field (config w) "canvas") = true →
  makeCanvas a w = (Throw (ConfigKeyError "canvas"), w) ∧
  getContext w = (Throw (ConfigKeyError "canvas"), w) ∧
  getImage a b w = (Throw (ConfigKeyError "canvas"), w) ∧
  changeBackground a b w = (Throw (ConfigKeyError "canvas"), w) ∧
  writeText a b w = (Throw (ConfigKeyError "canvas"), w).
Proof.
  intros Hs.
  pose proof (getConfig_canvas_sentinel w Hs) as Hg.
  pose proof (getContext_sentinel w Hs) as Hx.
  repeat split.
  - unfold makeCanvas. cbv zeta. by rewrite (bind_throw _ _ w _ w Hg).
  - done.
  - unfold getImage. cbv zeta. by rewrite (bind_throw _ _ w _ w Hg).
  - unfold changeBackground.
    rewrite (bind_ok _ _ w _ w (getConfig_keys _ w)).
    by rewrite (bind_throw _ _ w _ w Hx).
  - unfold writeText. cbv zeta. by rewrite (bind_throw _ _ w _ w Hx).
Qed.

Lemma field_collect (ks : list string) (c : gmap string value) (k : string) :
  k ∈ ks → field (collect (VStr <$> ks) c) k = field c k.
Proof.
  intros Hin. unfold field at 1, collect.
  rewrite collect_lookup, to_str_VStr_fmap. by rewrite decide_True.
Qed.

Lemma putCanvas_steps (w : world) :
  nullish (field (config w) "canvas") = true →
  let c := VElem (makeElement "canvas"
                    (VObj (<["width" := field (config w) "width"]>
                          (<["height" := field (config w) "height"]> ∅)))) in
  let w1 := set_config w (<["canvas" := c]> (config w)) in
  putCanvas w =
    match querySelector (field (config w) "el") with
    | Ok (Some e) => (Ok c, add_dom w1 [appendChild e c])
    | Ok None => (Throw ContainerNotFoundError, w1)
    | Throw err => (Throw err, w1)
    end.
Proof.
  intros Hn c w1. unfold putCanvas.
  rewrite (bind_ok _ _ w _ w (getConfig_keys _ w)).
  change [VStr "el"; VStr "width"; VStr "height"]
    with (VStr <$> ["el"; "width"; "height"]).
  cbn [lift get_prop].
  rewrite !field_collect by (repeat constructor).
  rewrite (bind_ok _ _ w (field (config w) "width") w) by reflexivity.
  rewrite (bind_ok _ _ w (field (config w) "height") w) by reflexivity.
  rewrite (bind_ok _ _ w c w1).
  2:{ rewrite makeCanvas_new by done. reflexivity. }
  rewrite (bind_ok _ _ w1 (field (config w) "el") w1) by reflexivity.
  unfold bind, lift.
  destruct (querySelector (field (config w) "el")) as [[e|]|err]; reflexivity.
Qed.

(** X7.  On an instance without a canvas whose container exists,
    [putCanvas()] makes a canvas with the configured [width] and [height],
    stores it, appends it to the element [querySelector] finds for [el],
    and returns it. *)
Theorem putCanvas_attaches (w : world) (e : nat) :
  nullish (field (config w) "canvas") = true →
  querySelector (field (config w) "el") = Ok (Some e) →
  let c := VElem (makeElement "canvas"
                    (VObj (<["width" := field (config w) "width"]>
                          (<["height" := field (config w) "height"]> ∅)))) in
  putCanvas w
  = (Ok c, add_dom (set_config w (<["canvas" := c]> (config w))) [appendChild e c]).
Proof.
  intros Hn Hq c. rewrite putCanvas_steps by done. by rewrite Hq.
Qed.

(** X8.  When the container is not found, [putCanvas()] fails with the
    ContainerNotFoundError after the canvas has been made and stored: the
    failed call leaves a canvas in the store, nothing is appended, and a
    second [putCanvas()] fails with the DuplicateSurfaceError, before the
    container is looked up again. *)
Theorem putCanvas_without_container (w : world) :
  nullish (field (config w) "canvas") = true →
  querySelector (field (config w) "el") = Ok None →
  let c := VElem (makeElement "canvas"
                    (VObj (<["width" := field (config w) "width"]>
                          (<["height" := field (config w) "height"]> ∅)))) in
  let w1 := set_config w (<["canvas" := c]> (config w)) in
  putCanvas w = (Throw ContainerNotFoundError, w1) ∧
  dom w1 = dom w ∧
  field (config w1) "canvas" = c ∧
  putCanvas w1 = (Throw DuplicateSurfaceError, w1).
Proof.
  intros Hn Hq c w1. rewrite putCanvas_steps by done. rewrite Hq.
  assert (Hc : field (config w1) "canvas" = c).
  { unfold field. subst w1. simpl. by rewrite lookup_insert_eq. }
  repeat split; [done|].
  unfold putCanvas.
  rewrite (bind_ok _ _ w1 _ w1 (getConfig_keys _ w1)).
  cbn [lift get_prop].
  rewrite (bind_ok _ _ w1 _ w1) by reflexivity.
  rewrite (bind_ok _ _ w1 _ w1) by reflexivity.
  apply bind_throw. unfold makeCanvas. cbv zeta.
  by rewrite (bind_ok _ _ w1 _ w1 (getConfig_canvas_elem w1 _ Hc)).
Qed.

(** ** Painting *)

Lemma changeBackground_start (type props : value) (w : world) (h : nat) :
  field (config w) "canvas" = VElem h →
  changeBackground type props w
  = ((if is_string type "image" then
        let* img := lift (get_prop props "img") in
        if nullish img then throw MissingImageError
        else ctx_do (Some h) (drawImage5 img (VNum 0) (VNum 0)
                                (field (config w) "width") (field (config w) "height"))
      else if is_string type "color" then
        let* color := lift (get_prop props "color") in
        if nullish color then throw MissingColorError
        else
          ctx_do (Some h) (set_fillStyle color);;
          ctx_do (Some h) (rect (VNum 0) (VNum 0)
                             (field (config w) "width") (field (config w) "height"));;
          ctx_do (Some h) fill
      else ret tt);;
     ctx_do (Some h) closePath;;
     ret (Some h)) (add_calls w [(h, beginPath)]).
Proof.
  intros Hc. unfold changeBackground.
  rewrite (bind_ok _ _ w _ w (getConfig_keys _ w)).
  rewrite (bind_ok _ _ w (Some h) w) by by apply getContext_elem.
  rewrite (bind_ok _ _ w tt (add_calls w [(h, beginPath)])) by reflexivity.
  change [VStr "width"; VStr "height"] with (VStr <$> ["width"; "height"]).
  cbn [lift get_prop]. rewrite !field_collect by (repeat constructor).
  destruct (is_string type "image"); [|destruct (is_string type "color")];
    reflexivity.
Qed.

Lemma changeBackground_color_steps (p : gmap string value) (w : world) (h : nat) :
  field (config w) "canvas" = VElem h →
  changeBackground (VStr "color") (VObj p) w =
    if nullish (field p "color")
    then (Throw MissingColorError, add_calls w [(h, beginPath)])
    else (Ok (Some h),
          add_calls w [(h, beginPath); (h, set_fillStyle (field p "color"));
                       (h, rect (VNum 0) (VNum 0)
                              (field (config w) "width") (field (config w) "height"));
                       (h, fill); (h, closePath)]).
Proof.
  intros Hc. rewrite (changeBackground_start _ _ w h Hc).
  cbn [is_string String.eqb Ascii.eqb Bool.eqb andb lift get_prop].
  unfold bind, lift.
  destruct (nullish (field p "color")); [reflexivity|].
  unfold ctx_do, emit, ret, add_calls. cbn [fst snd config calls timers dom console].
  by rewrite <- !app_assoc.
Qed.

Lemma changeBackground_image_steps (p : gmap string value) (w : world) (h : nat) :
  field (config w) "canvas" = VElem h →
  changeBackground (VStr "image") (VObj p) w =
    if nullish (field p "img")
    then (Throw MissingImageError, add_calls w [(h, beginPath)])
    else (Ok (Some h),
          add_calls w [(h, beginPath);
                       (h, drawImage5 (field p "img") (VNum 0) (VNum 0)
                              (field (config w) "width") (field (config w) "height"));
                       (h, closePath)]).
Proof.
  intros Hc. rewrite (changeBackground_start _ _ w h Hc).
  cbn [is_string String.eqb Ascii.eqb Bool.eqb andb lift get_prop].
  unfold bind, lift.
  destruct (nullish (field p "img")); [reflexivity|].
  unfold ctx_do, emit, ret, add_calls. cbn [fst snd config calls timers dom console].
  by rewrite <- !app_assoc.
Qed.

(** X9.  [changeBackground('color', props)] on an instance with a canvas:
    with a colour in the props it opens a path, sets the fill style to the
    colour, fills the rectangle from (0,0) with the configured width and
    height, and closes the path; with no colour it fails with the
    MissingColorError after the path has been opened, and the path is left
    open. *)
Theorem changeBackground_color (p : gmap string value) (w : world) (h : nat) :
  field (config w) "canvas" = VElem h →
  changeBackground (VStr "color") (VObj p) w =
    if nullish (field p "color")
    then (Throw MissingColorError, add_calls w [(h, beginPath)])
    else (Ok (Some h),
          add_calls w [(h, beginPath); (h, set_fillStyle (field p "color"));
                       (h, rect (VNum 0) (VNum 0)
                              (field (config w) "width") (field (config w) "height"));
                       (h, fill); (h, closePath)]).
Proof. apply changeBackground_color_steps. Qed.

(** X10.  [changeBackground('image', props)] on an instance with a canvas
    draws the given image stretched over the whole surface, from (0,0)
    with the configured width and height, between opening and closing a
    path; with no image it fails with the MissingImageError and the path
    is left open. *)
Theorem changeBackground_image (p : gmap string value) (w : world) (h : nat) :
  field (config w) "canvas" = VElem h →
  changeBackground (VStr "image") (VObj p) w =
    if nullish (field p "img")
    then (Throw MissingImageError, add_calls w [(h, beginPath)])
    else (Ok (Some h),
          add_calls w [(h, beginPath);
                       (h, drawImage5 (field p "img") (VNum 0) (VNum 0)
                              (field (config w) "width") (field (config w) "height"));
                       (h, closePath)]).
Proof. apply changeBackground_image_steps. Qed.

(** X11.  For any type other than ['image'] and ['color'],
    [changeBackground] paints nothing and raises nothing: it opens and
    closes a path and returns the context, whatever the props. *)
Theorem changeBackground_other_type (type props : value) (w : world) (h : nat) :
  field (config w) "canvas" = VElem h →
  is_string type "image" = false →
  is_string type "color" = false →
  changeBackground type props w
  = (Ok (Some h), add_calls w [(h, beginPath); (h, closePath)]).
Proof.
  intros Hc Hi Hcol. rewrite (changeBackground_start _ _ w h Hc), Hi, Hcol.
  unfold bind, ret, ctx_do, emit, add_calls.
  cbn [fst snd config calls timers dom console].
  by rewrite <- !app_assoc.
Qed.

Lemma get_prop_error (v : value) (k : string) (e : js_error) :
  get_prop v k = Throw e → e = TypeError.
Proof. destruct v; simpl; congruence. Qed.

(** X12.  Without a canvas in the store ([undefined] or [null]),
    [changeBackground] fails with a [TypeError] before anything is drawn
    and leaves the world unchanged, and [writeText] fails with a
    [TypeError] without issuing any context call. *)
Theorem no_canvas_no_paint (a b : value) (w : world) :
  nullish (field (config w) "canvas") = true →
  changeBackground a b w = (Throw TypeError, w) ∧
  (writeText a b w).1 = Throw TypeError ∧
  calls (writeText a b w).2 = calls w.
Proof.
  intros Hn. pose proof (getContext_nullish w Hn) as Hx. split.
  - unfold changeBackground.
    rewrite (bind_ok _ _ w _ w (getConfig_keys _ w)).
    rewrite (bind_ok _ _ w None w Hx). reflexivity.
  - unfold writeText. cbv zeta.
    rewrite (bind_ok _ _ w None w Hx).
    rewrite (bind_ok _ _ w _ w (getConfig_keys _ w)).
    cbn [get_prop]. unfold or_else, rbind.
    destruct (get_prop (default_arg b (VObj ∅)) "color") as [c|e] eqn:E.
    + destruct (loose_eq_empty a || nullish a), (truthy c); done.
    + apply get_prop_error in E as ->.
      destruct (loose_eq_empty a || nullish a); done.
Qed.



(** X14.  The default for [props] replaces [undefined] only: with [null]
    as props, [writeText] fails with a [TypeError] on an instance with a
    canvas and issues no context call. *)
Theorem writeText_null_props (text : value) (w : world) (h : nat) :
  field (config w) "canvas" = VElem h →
  (writeText text VNull w).1 = Throw TypeError ∧
  calls (writeText text VNull w).2 = calls w.
Proof.
  intros Hc. unfold writeText. cbv zeta.
  rewrite (bind_ok _ _ w (Some h) w) by by apply getContext_elem.
  rewrite (bind_ok _ _ w _ w (getConfig_keys _ w)).
  cbn [default_arg get_prop rbind].
  by destruct (loose_eq_empty text || nullish text).
Qed.

(** ** The background *)

Lemma renderBackground_first (w : world) (bg : value) :
  field (config w) "background" = bg →
  loose_eq_empty bg = false →
  renderBackground w =
    (if isColor bg then
       changeBackground (VStr "color") (VObj {["color" := bg]});;
       ret []
     else if negb (nullish bg) && negb (loose_eq_empty bg) then
       ret [background_promise bg]
     else
       changeBackground (VStr "color") (VObj {["color" := colorNameToHex (VStr "black")]});;
       warn no_background_warning;;
       ret []) w.
Proof.
  intros Hb Hne. unfold renderBackground.
  rewrite (bind_ok _ _ w bg w); [reflexivity|].
  rewrite getConfig_string by done. by rewrite Hb, Hne.
Qed.

Lemma field_singleton (k : string) (v : value) : field {[ k := v ]} k = v.
Proof. unfold field. by rewrite lookup_singleton_eq. Qed.

(** X15.  With no background in the store ([undefined] or [null], which
    [isColor] rejects), [renderBackground()] falls back to black: it fills
    the whole surface with [colorNameToHex('black')], adds one warning to
    the console, and creates no promise. *)
Theorem renderBackground_fallback (w : world) (h : nat) :
  field (config w) "canvas" = VElem h →
  nullish (field (config w) "background") = true →
  isColor (field (config w) "background") = false →
  nullish (colorNameToHex (VStr "black")) = false →
  renderBackground w
  = (Ok [], add_console
              (add_calls w (fill_calls h (config w) (colorNameToHex (VStr "black"))))
              [no_background_warning]).
Proof.
  intros Hc Hn Hcol Hblack.
  rewrite (renderBackground_first w _ eq_refl)
    by by destruct (nullish_cases _ Hn) as [-> | ->].
  rewrite Hcol, Hn. cbn [negb andb].
  rewrite (bind_ok _ _ w (Some h)
             (add_calls w (fill_calls h (config w) (colorNameToHex (VStr "black"))))).
  - reflexivity.
  - rewrite (changeBackground_color_steps _ w h Hc).
    by rewrite field_singleton, Hblack.
Qed.

(** X16.  A background stored as a value loosely equal to the empty string
    (the empty string, 0, [false]) does not reach the black fallback:
    [renderBackground()] fails with the ConfigKeyError for [background]
    and paints nothing; so does [render()] when the template's background
    is the empty string too. *)
Theorem renderBackground_sentinel (w : world) (t : gmap string value) :
  loose_eq_empty (field (config w) "background") = true →
  renderBackground w = (Throw (ConfigKeyError "background"), w) ∧
  (truthy (field (config w) "background") = false →
   field (config w) "template" = VObj t →
   field t "background" = VStr "" →
   render w = (Throw (ConfigKeyError "background"), w)).
Proof.
  intros Hs.
  assert (Hr : renderBackground w = (Throw (ConfigKeyError "background"), w)).
  { unfold renderBackground. apply bind_throw.
    rewrite getConfig_string by done. by rewrite Hs. }
  split; [done|]. intros Ht Htpl Hbg. unfold render.
  rewrite (bind_ok _ _ w _ w (getConfig_keys _ w)).
  change [VStr "background"; VStr "template"] with (VStr <$> ["background"; "template"]).
  cbn [lift get_prop]. rewrite !field_collect by (repeat constructor).
  rewrite (bind_ok _ _ w _ w) by reflexivity.
  rewrite Ht. cbn [negb].
  rewrite (bind_ok _ _ w tt w).
  - by apply bind_throw.
  - cbn [bind lift]. rewrite Htpl. cbn [get_prop]. rewrite Hbg. reflexivity.
Qed.


(** ** What [render] leaves alone *)

Section Preserves.

Context {X : Type} (f : world → X).

Lemma preserves_ret {A} (a : A) : preserves f (ret a).
Proof. by intros w. Qed.

Lemma preserves_throw {A} (e : js_error) : preserves f (throw (A := A) e).
Proof. by intros w. Qed.

Lemma preserves_lift {A} (r : result A) : preserves f (lift r).
Proof. by intros w. Qed.

Lemma preserves_bind {A B} (m : M A) (k : A → M B) :
  preserves f m → (∀ a, preserves f (k a)) → preserves f (bind m k).
Proof.
  intros Hm Hk w. unfold bind. specialize (Hm w).
  destruct (m w) as [[a|e] w1]; simpl in *; [|done].
  by rewrite Hk.
Qed.

Lemma preserves_getConfig key : preserves f (getConfig key).
Proof. intros w. by rewrite getConfig_world. Qed.

Lemma preserves_getContext : preserves f getContext.
Proof.
  unfold getContext. apply preserves_bind; [apply preserves_getConfig|].
  intros c. destruct (truthy c); [|apply preserves_ret].
  apply preserves_bind; [apply preserves_getConfig|].
  intros c'. destruct c'; first [apply preserves_ret | apply preserves_throw].
Qed.

End Preserves.

Lemma setConfig_world (params : list value) (w : world) :
  (setConfig params w).2 = set_config w (config (setConfig params w).2).
Proof.
  unfold setConfig. cbv zeta. unfold bind at 1. unfold read_config at 1.
  destruct (String.eqb (typeof (default VUndef (params !! 0%nat))) "object").
  - unfold bind at 1. unfold lift.
    destruct (entries (default VUndef (params !! 0%nat))) as [es|e].
    + unfold bind, write_config. rewrite getConfig_keys. reflexivity.
    + by destruct w.
  - unfold bind, write_config. rewrite getConfig_keys. reflexivity.
Qed.

Lemma preserves_setConfig {X} (f : world → X) (params : list value) :
  (∀ w c, f (set_config w c) = f w) → preserves f (setConfig params).
Proof. intros Hf w. by rewrite setConfig_world, Hf. Qed.


Lemma preserves_changeBackground {X} (f : world → X) type props :
  (∀ w cs, f (add_calls w cs) = f w) →
  preserves f (changeBackground type props).
Proof.
  intros Hf. unfold changeBackground.
  repeat lazymatch goal with
  | |- preserves _ (bind _ _) => apply preserves_bind; [|intros ?]
  | |- preserves _ (getConfig _) => apply preserves_getConfig
  | |- preserves _ getContext => apply preserves_getContext
  | |- preserves _ (if ?b then _ else _) => destruct b
  | |- preserves _ (ctx_do ?c ?x) =>
      destruct c; [intros w; apply (Hf w [(_, x)]) | apply preserves_throw]
  | |- preserves _ (ret _) => apply preserves_ret
  | |- preserves _ (throw _) => apply preserves_throw
  | |- preserves _ (lift _) => apply preserves_lift
  end.
Qed.

Lemma within_render_key key : key ≠ "background" → within other_call no_timer key render.
Proof.
  intros Hk. unfold render.
  within_auto;
    first [ apply within_renderBackground | apply within_renderImage
          | apply within_setConfig_pair; [reflexivity | simpl; congruence] ].
Qed.

Lemma preserves_renderBackground {X} (f : world → X) :
  (∀ w cs, f (add_calls w cs) = f w) →
  (∀ w ms, f (add_console w ms) = f w) →
  preserves f renderBackground.
Proof.
  intros Hc Hm. unfold renderBackground.
  repeat lazymatch goal with
  | |- preserves _ (bind _ _) => apply preserves_bind; [|intros ?]
  | |- preserves _ (getConfig _) => apply preserves_getConfig
  | |- preserves _ (changeBackground _ _) => by apply preserves_changeBackground
  | |- preserves _ (if ?b then _ else _) => destruct b
  | |- preserves _ (warn ?m) => intros w; apply (Hm w [m])
  | |- preserves _ (ret _) => apply preserves_ret
  end.
Qed.

Lemma preserves_renderImage {X} (f : world → X) : preserves f renderImage.
Proof. intros w. by rewrite renderImage_world. Qed.

Lemma preserves_render_tail {X} (f : world → X) :
  (∀ w cs, f (add_calls w cs) = f w) →
  (∀ w ms, f (add_console w ms) = f w) →
  preserves f render_tail.
Proof.
  intros Hc Hm. unfold render_tail.
  apply preserves_bind; [by apply preserves_renderBackground|]. intros bgs.
  apply preserves_bind; [apply preserves_renderImage|]. intros images.
  apply preserves_ret.
Qed.

Lemma preserves_render {X} (f : world → X) :
  (∀ w cs, f (add_calls w cs) = f w) →
  (∀ w ms, f (add_console w ms) = f w) →
  (∀ w c, f (set_config w c) = f w) →
  preserves f render.
Proof.
  intros Hc Hm Hs. unfold render.
  repeat lazymatch goal with
  | |- preserves _ (bind renderBackground _) => by apply (preserves_render_tail f)
  | |- preserves _ (bind _ _) => apply preserves_bind; [|intros ?]
  | |- preserves _ (getConfig _) => apply preserves_getConfig
  | |- preserves _ (setConfig _) => by apply preserves_setConfig
  | |- preserves _ (if ?b then _ else _) => destruct b
  | |- preserves _ (ret _) => apply preserves_ret
  | |- preserves _ (lift _) => apply preserves_lift
  end.
Qed.

(** With a background in the store, [render] skips its first step. *)
Lemma render_skip (w : world) :
  truthy (field (config w) "background") = true → render w = render_tail w.
Proof.
  intros Hb. unfold render.
  rewrite (bind_ok _ _ w _ w (getConfig_keys _ w)).
  cbn [lift get_prop].
  change [VStr "background"; VStr "template"] with (VStr <$> ["background"; "template"]).
  rewrite !field_collect by (repeat constructor).
  rewrite (bind_ok _ _ w (field (config w) "background") w) by reflexivity.
  rewrite Hb. cbn [negb].
  rewrite (bind_ok _ _ w tt w) by reflexivity.
  reflexivity.
Qed.

Lemma length_gt_zero_truthy (v len : value) :
  get_prop v "length" = Ok len → gt_zero len = true → truthy v = true.
Proof.
  destruct v as [| |b|n|s|l|o|h|i iw ih]; simpl; intros [= <-]; try done.
  unfold gt_zero. simpl. destruct s; [done|]. done.
Qed.

(** X18.  What [render()] does before it returns: it issues no layer draw
    and no text draw (only the background may be painted), sets no timer,
    leaves the document alone, and changes no configuration key other than
    [background]; with a truthy background in the store it changes no key
    at all. *)
Theorem render_synchronous_part (w : world) :
  let w' := (render w).2 in
  (∃ cs, calls w' = calls w ++ cs ∧ Forall background_call cs) ∧
  timers w' = timers w ∧
  dom w' = dom w ∧
  (∀ k, k ≠ "background" → config w' !! k = config w !! k) ∧
  (truthy (field (config w) "background") = true → config w' = config w).
Proof.
  cbv zeta. split; [|split; [|split; [|split]]].
  - destruct (within_render w) as ((cs & Hcs & Hall) & _ & _).
    exists cs. split; [done|].
    eapply Forall_impl; [exact Hall|]. intros c Hc. unfold other_call in Hc.
    apply andb_true_iff in Hc as [H1 H2].
    split; by apply negb_true_iff.
  - by apply (preserves_render timers).
  - by apply (preserves_render dom).
  - intros k Hk. by destruct (within_render_key k Hk w) as (_ & _ & Hcfg).
  - intros Hb. rewrite (render_skip w Hb).
    by apply (preserves_render_tail config).
Qed.

Lemma render_copy_step (w : world) (t : gmap string value) (len : value) :
  truthy (field (config w) "background") = false →
  field (config w) "template" = VObj t →
  get_prop (field t "background") "length" = Ok len →
  gt_zero len = true →
  render w = render (set_config w (<["background" := field t "background"]> (config w))).
Proof.
  intros Hb Ht Hlen Hgt.
  set (w1 := set_config w (<["background" := field t "background"]> (config w))).
  assert (Hw1 : truthy (field (config w1) "background") = true).
  { subst w1. unfold field at 1. simpl. rewrite lookup_insert_eq. simpl.
    by eapply length_gt_zero_truthy. }
  rewrite (render_skip w1 Hw1). unfold render.
  rewrite (bind_ok _ _ w _ w (getConfig_keys _ w)).
  cbn [lift get_prop].
  change [VStr "background"; VStr "template"] with (VStr <$> ["background"; "template"]).
  rewrite !field_collect by (repeat constructor).
  rewrite (bind_ok _ _ w (field (config w) "background") w) by reflexivity.
  rewrite Hb. cbn [negb].
  rewrite (bind_ok _ _ w tt w1); [reflexivity|].
  rewrite (bind_ok _ _ w (VObj t) w) by by rewrite Ht.
  cbn [get_prop].
  rewrite (bind_ok _ _ w (field t "background") w) by reflexivity.
  rewrite Hlen. rewrite (bind_ok _ _ w len w) by reflexivity.
  rewrite Hgt.
  rewrite (bind_ok _ _ w _ w1 (setConfig_pair (VStr "background") _ w eq_refl)).
  reflexivity.
Qed.

(** X19.  Step 1 of [render()]: with no (or a falsy) background in the
    store and a template background of positive length, [render()] copies
    the template background into the store and goes on exactly as a
    [render()] that finds this background already stored, which skips the
    step. *)
Theorem render_copies_template_background
    (w : world) (t : gmap string value) (len : value) :
  truthy (field (config w) "background") = false →
  field (config w) "template" = VObj t →
  get_prop (field t "background") "length" = Ok len →
  gt_zero len = true →
  let w1 := set_config w (<["background" := field t "background"]> (config w)) in
  render w = render w1 ∧ render w1 = render_tail w1.
Proof.
  intros Hb Ht Hlen Hgt w1. split; [by eapply render_copy_step|].
  apply render_skip. subst w1. unfold field at 1. simpl.
  rewrite lookup_insert_eq. simpl. by eapply length_gt_zero_truthy.
Qed.

(** [render()] with a stored background that is a colour, and with one
    that is the source of an image. *)
Lemma render_with_color (w : world) (h : nat) (c : value) (t : gmap string value)
    (ls : list value) :
  field (config w) "canvas" = VElem h →
  field (config w) "background" = c →
  truthy c = true → loose_eq_empty c = false → isColor c = true →
  field (config w) "template" = VObj t →
  field t "images" = VArr ls → ls ≠ [] →
  ∃ main, render w = (Ok (main, []), add_calls w (fill_calls h (config w) c)).
Proof.
  intros Hc Hb Htr Hne Hcol Ht Hi Hls.
  rewrite render_skip by by rewrite Hb. unfold render_tail.
  rewrite (bind_ok _ _ w [] (add_calls w (fill_calls h (config w) c))).
  - cbv beta.
    rewrite (bind_ok renderImage _ _ _ _
               (renderImage_eval (add_calls w (fill_calls h (config w) c)) t ls Ht Hi Hls)).
    by eexists.
  - rewrite (renderBackground_first w c Hb Hne), Hcol.
    rewrite (bind_ok _ _ w (Some h) (add_calls w (fill_calls h (config w) c)));
      [reflexivity|].
    rewrite (changeBackground_color_steps _ w h Hc), field_singleton.
    by destruct c.
Qed.

Lemma render_with_image (w : world) (bg : value) (t : gmap string value)
    (ls : list value) :
  field (config w) "background" = bg →
  truthy bg = true → loose_eq_empty bg = false → isColor bg = false →
  field (config w) "template" = VObj t →
  field t "images" = VArr ls → ls ≠ [] →
  ∃ main, render w = (Ok (main, [background_promise bg]), w).
Proof.
  intros Hb Htr Hne Hcol Ht Hi Hls.
  rewrite render_skip by by rewrite Hb. unfold render_tail.
  rewrite (bind_ok _ _ w [background_promise bg] w).
  - cbv beta. rewrite (bind_ok renderImage _ _ _ _ (renderImage_eval w t ls Ht Hi Hls)).
    by eexists.
  - rewrite (renderBackground_first w bg Hb Hne), Hcol, Hne.
    by destruct bg.
Qed.

(** ** The download trigger and the constructor *)

(** X20.  [enableDownload()] with a non-empty selector string as its
    target: when the selector finds an element, one click listener is
    attached to it and nothing else changes; when it finds none, the call
    fails with the TriggerNotFoundError that names the selector and
    changes nothing. *)
Theorem enableDownload_trigger (w : world) (sel : string) :
  sel ≠ "" →
  field (config w) "download" = VStr sel →
  (∀ b, querySelector (VStr sel) = Ok (Some b) →
        enableDownload w = (Ok tt, add_dom w [addEventListener b "click"])) ∧
  (querySelector (VStr sel) = Ok None →
   enableDownload w = (Throw (TriggerNotFoundError (VStr sel)), w)).
Proof.
  intros Hs Hd. rewrite (enableDownload_selector w sel Hs Hd).
  split.
  - intros b ->. reflexivity.
  - intros ->. reflexivity.
Qed.

Lemma lift_inv {A} (r : result A) (w : world) (a : A) (w' : world) :
  lift r w = (Ok a, w') → r = Ok a ∧ w' = w.
Proof. unfold lift. by intros [= -> ->]. Qed.

Lemma enableDownload_ok (w w' : world) (u : unit) :
  enableDownload w = (Ok u, w') →
  w' = w ∨
  ∃ b, querySelector (field (config w) "download") = Ok (Some b) ∧
       w' = add_dom w [addEventListener b "click"].
Proof.
  unfold enableDownload. intros Hd.
  apply bind_inv in Hd as (download & wa & Hg & Hd).
  rewrite getConfig_string in Hg by done.
  destruct (loose_eq_empty (field (config w) "download")); [discriminate|].
  injection Hg as <- <-.
  apply bind_inv in Hd as (len & wb & Hlen & Hd).
  apply lift_inv in Hlen as [_ ->].
  destruct (gt_zero len).
  - apply bind_inv in Hd as (button & wc & Hq & Hd).
    apply lift_inv in Hq as [Hq ->].
    destruct button as [b|]; [|discriminate].
    right. exists b. split; [done|]. by injection Hd as _ <-.
  - left. by injection Hd as _ <-.
Qed.

Lemma makeCanvas_taken (props : value) (w : world) :
  nullish (field (config w) "canvas") = false →
  ∃ e, makeCanvas props w = (Throw e, w).
Proof.
  intros Hn. unfold makeCanvas. cbv zeta. unfold bind.
  rewrite getConfig_string by done.
  destruct (loose_eq_empty (field (config w) "canvas")); [by eexists|].
  rewrite Hn. by eexists.
Qed.

Lemma putCanvas_ok (w w' : world) (c : value) :
  putCanvas w = (Ok c, w') →
  nullish (field (config w) "canvas") = true ∧
  c = canvas_element (config w) ∧
  ∃ e, querySelector (field (config w) "el") = Ok (Some e) ∧
       w' = add_dom (set_config w (<["canvas" := c]> (config w))) [appendChild e c].
Proof.
  intros Hp. destruct (nullish (field (config w) "canvas")) eqn:Hn.
  - rewrite (putCanvas_steps w Hn) in Hp. cbv zeta in Hp.
    destruct (querySelector (field (config w) "el")) as [[e|]|err]; try discriminate.
    injection Hp as <- <-. split; [done|]. split; [done|]. by exists e.
  - exfalso. unfold putCanvas in Hp.
    apply bind_inv in Hp as (cfg & wa & Hg & Hp).
    rewrite getConfig_keys in Hg. injection Hg as <- <-.
    apply bind_inv in Hp as (width & wb & Hw & Hp). apply lift_inv in Hw as [_ ->].
    apply bind_inv in Hp as (height & wc & Hh & Hp). apply lift_inv in Hh as [_ ->].
    apply bind_inv in Hp as (nc & wd & Hm & _).
    destruct (makeCanvas_taken
                (VObj (<["width" := width]> (<["height" := height]> ∅))) w Hn)
      as [e He].
    rewrite He in Hm. discriminate.
Qed.

(** X21.  A construction from an object without an own [__proto__] entry
    that succeeds has done exactly this: the store
    holds the defaults overridden by the given object, plus the canvas it
    created with the configured size (the object gave no canvas of its
    own) and possibly a background copied from the template; the canvas
    was appended to the container found under [el]; at most one click
    listener was attached, to the element found under [download]; no timer
    was set and neither a layer nor a text was drawn yet. *)
Theorem constructor_success
    (configs : value) (o : gmap string value) (w w' : world) (ps : list promise) :
  default_arg configs (VObj ∅) = VObj o →
  o !! "__proto__" = None →
  new_CardMaker configs w = (Ok ps, w') →
  let c0 := o ∪ default_config in
  nullish (field c0 "canvas") = true ∧
  field (config w') "canvas" = canvas_element c0 ∧
  (∀ k, k ≠ "canvas" → k ≠ "background" → config w' !! k = c0 !! k) ∧
  timers w' = timers w ∧
  (∃ cs, calls w' = calls w ++ cs ∧ Forall background_call cs) ∧
  ∃ e, querySelector (field c0 "el") = Ok (Some e) ∧
       (dom w' = dom w ++ [appendChild e (canvas_element c0)] ∨
        ∃ b, querySelector (field c0 "download") = Ok (Some b) ∧
             dom w' = dom w ++ [appendChild e (canvas_element c0);
                                addEventListener b "click"]).
Proof.
  intros Hcfg _ Hnew c0. rewrite new_CardMaker_unfold, Hcfg in Hnew.
  destruct ((write_config default_config;; setConfig [VObj o];; putCanvas;; render) w)
    as [[r|e] w3] eqn:E; [|discriminate].
  destruct (enableDownload w3) as [[u|e] w4] eqn:Ed; [|discriminate].
  injection Hnew as _ <-.
  unfold bind at 1 2 in E. unfold write_config in E.
  destruct (setConfig_object o
              (mkWorld default_config (calls w) (timers w) (dom w) (console w)))
    as [r1 Hs].
  rewrite Hs in E. clear Hs. cbn [config calls timers dom console] in E.
  fold c0 in E.
  set (w1 := mkWorld c0 (calls w) (timers w) (dom w) (console w)) in E.
  apply bind_inv in E as (c & w2 & Hput & Hren).
  apply putCanvas_ok in Hput as (Hn & -> & e & Hq & ->).
  set (w2 := add_dom _ _) in Hren.
  assert (Ht3 : timers w3 = timers w).
  { pose proof (preserves_render timers) as Hp.
    specialize (Hp ltac:(done) ltac:(done) ltac:(done) w2). by rewrite Hren in Hp. }
  assert (Hd3 : dom w3 = dom w ++ [appendChild e (canvas_element c0)]).
  { pose proof (preserves_render dom) as Hp.
    specialize (Hp ltac:(done) ltac:(done) ltac:(done) w2). by rewrite Hren in Hp. }
  assert (Hc3 : ∀ k, k ≠ "background" →
                config w3 !! k = <["canvas" := canvas_element c0]> c0 !! k).
  { intros k Hk. destruct (within_render_key k Hk w2) as (_ & _ & Hcfg3).
    by rewrite Hren in Hcfg3. }
  assert (Hcalls : ∃ cs, calls w3 = calls w ++ cs ∧ Forall background_call cs).
  { destruct (within_render w2) as ((cs & Hcs & Hall) & _ & _).
    rewrite Hren in Hcs. exists cs. split; [done|].
    eapply Forall_impl; [exact Hall|]. intros x Hx. unfold other_call in Hx.
    apply andb_true_iff in Hx as [H1 H2]. split; by apply negb_true_iff. }
  assert (Hdl : field (config w3) "download" = field c0 "download").
  { unfold field. rewrite Hc3 by done. by rewrite lookup_insert_ne. }
  assert (H34 : config w4 = config w3 ∧ calls w4 = calls w3 ∧ timers w4 = timers w3).
  { apply enableDownload_ok in Ed as [-> | (b & _ & ->)]; done. }
  destruct H34 as (Hc4 & Hk4 & Ht4).
  split; [exact Hn|]. split; [|split; [|split; [|split]]].
  - unfold field. rewrite Hc4, Hc3 by done. by rewrite lookup_insert_eq.
  - intros k Hk1 Hk2. rewrite Hc4, Hc3 by done. by rewrite lookup_insert_ne.
  - by rewrite Ht4.
  - by rewrite Hk4.
  - exists e. split; [exact Hq|].
    apply enableDownload_ok in Ed as [-> | (b & Hb & ->)].
    + by left.
    + right. exists b. rewrite Hdl in Hb. split; [exact Hb|].
      cbn [add_dom dom]. rewrite Hd3. by rewrite <- app_assoc.
Qed.

(** ** Renders that stop early *)

Lemma then_not_resolved (p : promise) (f : value → promise) (v : value) :
  then_ p f ≠ resolved v.
Proof. by destruct p. Qed.

Lemma chain_not_resolved (fn : value → promise) (l : list value) (acc : promise) (v : value) :
  l ≠ [] → foldl (λ prev cur, then_ prev (λ _, fn cur)) acc l ≠ resolved v.
Proof.
  revert acc. induction l as [|x l IH]; intros acc Hne; [done|]. simpl.
  destruct l as [|y l]; [apply then_not_resolved|].
  by apply IH.
Qed.

Lemma Promise_each_empty (arr : value) (fn : value → promise) :
  truthy arr = false ∨ arr = VArr [] →
  Promise_each arr fn = Ok (rejected each_error).
Proof.
  intros [Hf | ->]; unfold Promise_each; [by rewrite Hf | done].
Qed.

(** X22.  [Promise.each(arr, fn)] in full: a falsy [arr] and the empty
    array are rejected with the error for a non-array; a non-empty array
    gives the chain that runs [fn] on its elements one after the other;
    and in no case is the result an already fulfilled promise, so the
    source's branch for the empty array is never taken. *)
Theorem Promise_each_never_fulfilled (arr : value) (fn : value → promise) :
  (∀ v, Promise_each arr fn ≠ Ok (resolved v)) ∧
  (truthy arr = false ∨ arr = VArr [] →
   Promise_each arr fn = Ok (rejected each_error)) ∧
  (∀ l, arr = VArr l → l ≠ [] →
        Promise_each arr fn
        = Ok (thens (resolved VUndef) ((λ x, λ _ : value, fn x) <$> l))).
Proof.
  split; [|split].
  - intros v. unfold Promise_each.
    destruct arr as [| |b|n|s|l|o|h|i iw ih]; simpl; try discriminate.
    + by destruct b.
    + by destruct (n =? 0)%Z.
    + by destruct s.
    + destruct l as [|x l]; [done|].
      cbn [length Z.of_nat negb Z.eqb].
      intros [= Hc]. by apply (chain_not_resolved fn (x :: l) (resolved VUndef) v).
    + destruct (field o "length") as [| |b|n|s|l| | |]; simpl; try discriminate.
      * by destruct b.
      * by destruct n.
      * by destruct s.
  - apply Promise_each_empty.
  - intros l -> Hne. by apply Promise_each_array.
Qed.

(** Promises that set no timer keep the loop free of timers. *)
Lemma quiet_reachable (ps : list promise) (w : world) (s : loop) :
  Forall quiet ps → timers w = [] →
  reachable (start ps w) s →
  Forall quiet (microtasks s ++ pending s) ∧
  frame other_call no_timer "download" w (lw s).
Proof.
  intros Hps Ht. induction 1 as [|s ev s' _ [Hq Hf] Hex].
  { split; [by rewrite app_nil_r | apply frame_refl]. }
  apply Forall_app in Hq as [Hm Hp].
  unfold exec in Hex.
  destruct ev as [| |i id iw ih|i], (microtasks s) as [|p ms] eqn:Hms;
    try discriminate.
  - injection Hex as <-. cbn [microtasks pending lw].
    apply Forall_cons in Hm as [Hp0 Hm].
    destruct (run_job_tree no_timer p Hp0 (lw s)) as [Hf' Hq'].
    apply Forall_app in Hq' as [? ?].
    split; [|eapply frame_trans; eassumption].
    repeat (apply Forall_app; split); done.
  - destruct Hf as (_ & (ts & Hts & Hall) & _).
    apply no_timer_nil in Hall. subst ts.
    rewrite Hts, Ht in Hex. discriminate.
  - destruct (pending s !! i) as [[| |src k| | |]|] eqn:Hi; try discriminate.
    injection Hex as <-. cbn [microtasks pending lw].
    split; [|done]. apply Forall_app. split.
    + constructor; [|constructor].
      rewrite Forall_lookup in Hp. specialize (Hp _ _ Hi).
      by eapply tree_loading_inv.
    + by apply Forall_delete.
  - destruct (pending s !! i) eqn:Hi; [|discriminate].
    injection Hex as <-. cbn [microtasks pending lw].
    split; [|done]. simpl. by apply Forall_delete.
Qed.


(** ** Images that fail, and a background that loads late *)

(** The run in which the images of the layers [ls1] load and the one of
    the next layer fails: the layers of [ls1] are drawn and then the loop
    has nothing left to do. *)
Lemma broken_schedule_run
    (w w1 : world) (main : promise) (h : nat) (t : gmap string value)
    (ls1 ls2 : list (gmap string value)) (l : gmap string value)
    (imgs : list (nat * Z * Z)) :
  render w = (Ok (main, []), w1) →
  timers w1 = [] →
  field (config w1) "canvas" = VElem h →
  field (config w1) "template" = VObj t →
  field t "images" = VArr (VObj <$> (ls1 ++ l :: ls2)) →
  Forall layer_ok ls1 →
  length imgs = length ls1 →
  ∃ s, run (broken_schedule imgs) (start [main] w1) = Some s ∧
       (∀ ev, exec ev s = None) ∧
       console (lw s) = console w1 ∧
       calls (lw s) = calls w1 ++ layer_calls h imgs ls1.
Proof.
  intros Hr Htim Hc Ht Hi Hlok Hlen.
  apply render_main in Hr as (p & Hp & ->).
  rewrite (renderImage_eval w1 t (VObj <$> (ls1 ++ l :: ls2))) in Hp;
    [|done|done|by destruct ls1].
  injection Hp as <-.
  change (then_ (Promise_all2 _) _)
    with (thens (thens (resolved VUndef)
                   ((λ l, λ _ : value, image_fn l) <$> (VObj <$> (ls1 ++ l :: ls2))))
                after_images).
  rewrite thens_app, !fmap_app, <- app_assoc. cbn [fmap list_fmap app].
  unfold broken_schedule, start.
  rewrite run_app, run_cons, tick_single, run_job_fulfilled. cbn [fst snd run].
  rewrite run_app, (image_phase ls1 imgs _ w1 h Hc Hlen).
  rewrite run_app. cbn [next].
  rewrite run_cons, tick_single, run_job_image_fn. cbn [fst snd].
  rewrite run_cons. cbn [exec microtasks pending lookup list_lookup delete list_delete lw run].
  rewrite (fire_draws h ls1 imgs _ []); [|done|done|].
  2:{ cbn [add_timers timers]. by rewrite Htim, app_nil_r. }
  eexists. split; [reflexivity|].
  cbn [lw add_timers config calls timers dom console].
  split; [|done].
  intros ev. by destruct ev.
Qed.

Lemma delete_app_length {A} (pre l : list A) (i : nat) :
  delete (length pre + i)%nat (pre ++ l) = pre ++ delete i l.
Proof. induction pre as [|x pre IH]; simpl; [done|]. by rewrite <- IH. Qed.

(** Loads that are waited for but do not happen leave a run as it is. *)
Lemma exec_pending_frame (pre : list promise) (ev : event) (s s' : loop) :
  exec ev s = Some s' →
  exec (shift_event (length pre) ev) (mkLoop (lw s) (microtasks s) (pre ++ pending s))
  = Some (mkLoop (lw s') (microtasks s') (pre ++ pending s')).
Proof.
  unfold exec. cbn [microtasks pending lw].
  destruct ev as [| |i id iw ih|i], (microtasks s) as [|p ms];
    cbn [shift_event]; try discriminate.
  - intros [= <-]. cbn [microtasks pending lw]. by rewrite app_assoc.
  - destruct (timers (lw s)) as [|tm ts]; [discriminate|].
    by intros [= <-].
  - rewrite lookup_app_r by lia.
    replace (length pre + i - length pre)%nat with i by lia.
    destruct (pending s !! i) as [[| |src k| | |]|]; try discriminate.
    intros [= <-]. cbn [microtasks pending lw]. by rewrite delete_app_length.
  - rewrite lookup_app_r by lia.
    replace (length pre + i - length pre)%nat with i by lia.
    destruct (pending s !! i); [|discriminate].
    intros [= <-]. cbn [microtasks pending lw]. by rewrite delete_app_length.
Qed.

Lemma run_pending_frame (pre : list promise) (evs : list event) (s s' : loop) :
  run evs s = Some s' →
  run (shift_event (length pre) <$> evs) (mkLoop (lw s) (microtasks s) (pre ++ pending s))
  = Some (mkLoop (lw s') (microtasks s') (pre ++ pending s')).
Proof.
  revert s. induction evs as [|ev evs IH]; intros s; cbn [run fmap list_fmap].
  - by intros [= <-].
  - destruct (exec ev s) as [s1|] eqn:E; [|discriminate].
    intros Hrun. rewrite (exec_pending_frame pre ev s s1 E). by apply IH.
Qed.

(** The run in which the background image arrives after the layers and
    the text have been drawn: it is stretched over the whole surface on
    top of them. *)
Lemma late_background_run
    (w w1 : world) (main : promise) (bg : value) (h : nat) (t : gmap string value)
    (ls ts : list (gmap string value)) (imgs : list (nat * Z * Z))
    (id : nat) (iw ih : Z) :
  render w = (Ok (main, [background_promise bg]), w1) →
  timers w1 = [] →
  field (config w1) "canvas" = VElem h →
  field (config w1) "template" = VObj t →
  field t "images" = VArr (VObj <$> ls) → ls ≠ [] → Forall layer_ok ls →
  field t "text" = VArr (VObj <$> ts) → ts ≠ [] → Forall item_ok ts →
  length imgs = length ls →
  render_loop w = Some (start [background_promise bg; main] w1) ∧
  ∃ w', run (late_background_schedule imgs (length ts) id iw ih)
            (start [background_promise bg; main] w1)
        = Some (mkLoop w' [] []) ∧
        timers w' = [] ∧
        calls w' = calls w1 ++ layer_calls h imgs ls ++ item_calls h (config w1) ts
                   ++ stretch_calls h (config w1) (VImg id iw ih).
Proof.
  intros Hr Htim Hc Ht Hi Hls Hlok Htx Hts Htok Hlen.
  split; [unfold render_loop; by rewrite Hr|].
  destruct (main_draws w w1 main _ h t ls ts imgs Hr Htim Hc Ht Hi Hls Hlok
              Htx Hts Htok Hlen) as (w' & Hrun & Hcfg & Htim' & Hcalls).
  exists (add_calls w' (stretch_calls h (config w') (VImg id iw ih))).
  split; [|split; [done|]].
  2:{ cbn [add_calls calls]. by rewrite Hcalls, Hcfg, <- !app_assoc. }
  unfold late_background_schedule, start.
  rewrite run_app, run_cons. cbn [exec microtasks pending lw app run].
  unfold background_promise. cbn [then_ makeImage run_job fst snd app].
  match goal with
  | |- context [mkLoop w1 [main] ?p] => set (pre := p)
  end.
  rewrite run_app.
  pose proof (run_pending_frame pre _ _ _ Hrun) as Hfr. subst pre.
  cbn [start lw microtasks pending length] in Hfr. rewrite !app_nil_r in Hfr.
  rewrite Hfr.
  rewrite run_cons, loaded_single.
  rewrite run_cons, tick_single. cbn [run_job fst snd].
  rewrite run_cons, tick_single. cbn [run_job].
  rewrite (bind_ok _ _ w' (Some h) (add_calls w' (stretch_calls h (config w') (VImg id iw ih)))).
  - reflexivity.
  - rewrite (changeBackground_image_steps _ w' h) by by rewrite Hcfg.
    by rewrite field_singleton.
Qed.

(** The run of a template with layers and without text items in which
    the images load in the order of the layers. *)
Lemma layers_schedule_run
    (w w1 : world) (main : promise) (h : nat) (t : gmap string value)
    (ls : list (gmap string value)) (imgs : list (nat * Z * Z)) :
  render w = (Ok (main, []), w1) →
  timers w1 = [] →
  field (config w1) "canvas" = VElem h →
  field (config w1) "template" = VObj t →
  field t "images" = VArr (VObj <$> ls) → ls ≠ [] → Forall layer_ok ls →
  truthy (field t "text") = false ∨ field t "text" = VArr [] →
  length imgs = length ls →
  ∃ s, run (layers_schedule imgs) (start [main] w1) = Some s ∧
       (∀ ev, exec ev s = None) ∧
       console (lw s) = console w1 ∧
       calls (lw s) = calls w1 ++ layer_calls h imgs ls.
Proof.
  intros Hr Htim Hc Ht Hi Hls Hlok Htx Hlen.
  apply render_main in Hr as (p & Hp & ->).
  rewrite (renderImage_eval w1 t (VObj <$> ls)) in Hp; [|done|done|by destruct ls].
  injection Hp as <-.
  change (then_ (Promise_all2 _) _)
    with (thens (thens (resolved VUndef)
                   ((λ l, λ _ : value, image_fn l) <$> (VObj <$> ls))) after_images).
  rewrite thens_app.
  unfold layers_schedule, start.
  rewrite run_app, run_cons, tick_single, run_job_fulfilled. cbn [fst snd run].
  rewrite run_app, (image_phase ls imgs after_images w1 h Hc Hlen).
  rewrite run_app.
  unfold after_images. cbn [next].
  rewrite run_cons, tick_single, run_job_fulfilled. cbn [fst snd next].
  rewrite run_cons, tick_single, run_job_fulfilled. cbn [fst snd next thens foldl].
  rewrite run_cons, tick_single. unfold render_then. cbn [run_job].
  unfold renderText_read.
  rewrite (bind_ok _ _ _ (VObj t) _) by by apply getConfig_template.
  cbn [lift get_prop]. unfold renderText_chain.
  rewrite (Promise_each_empty _ _ Htx). cbn [run_job fst snd app run].
  rewrite (fire_draws h ls imgs _ []); [|done|done|].
  2:{ cbn [add_timers timers]. by rewrite Htim, app_nil_r. }
  eexists. split; [reflexivity|].
  cbn [lw add_timers config calls timers dom console].
  split; [|done].
  intros ev. by destruct ev.
Qed.
(** ** Every run of a render: the loop follows the progress *)

Lemma fire_one (h : nat) (t : timer) (w : world) :
  field (config w) "canvas" = VElem h →
  good_timer t →
  config (run_timer t w).2 = config w ∧
  timers (run_timer t w).2 = timers w ∧
  calls (run_timer t w).2 = calls w ++ timer_calls h (config w) t ∧
  (is_draw_layer t = true → console (run_timer t w).2 = console w).
Proof.
  intros Hc Hg. destruct t as [ctx img prop|val].
  - cbn [run_timer timer_calls]. destruct ctx as [h'|].
    + unfold bind, lift. destruct (layer_draw img prop) as [c|e]; cbn.
      * done.
      * by rewrite app_nil_r.
    + cbn. by rewrite app_nil_r.
  - destruct Hg as (x & -> & Hx).
    destruct (run_timer_write_text w h x Hc Hx) as (w' & -> & Hcfg & Hcalls & Htm).
    done.
Qed.

Lemma zip_with_snoc {A B C} (f : A → B → C) (xs : list A) (x : A) (ys : list B) (y : B) :
  ys !! length xs = Some y →
  zip_with f (xs ++ [x]) ys = zip_with f xs ys ++ [f x y].
Proof.
  revert ys. induction xs as [|x0 xs IH]; intros [|y0 ys] Hy; try done.
  - simpl in *. injection Hy as ->. by destruct ys.
  - simpl in *. by rewrite IH.
Qed.

Lemma layer_fns_cons (l : gmap string value) (ls : list (gmap string value)) :
  layer_fns (l :: ls) = (λ _ : value, image_fn (VObj l)) :: layer_fns ls.
Proof. reflexivity. Qed.

Lemma text_fns_cons (x : gmap string value) (ts : list (gmap string value)) :
  text_fns (x :: ts) = (λ _ : value, text_fn (VObj x)) :: text_fns ts.
Proof. reflexivity. Qed.

Lemma next_after_layers (ls : list (gmap string value)) (v : value) :
  next v (layer_fns ls ++ after_images) ≠ [].
Proof. by destruct ls. Qed.

Lemma run_job_background (h : nat) (img : value) (w : world) :
  field (config w) "canvas" = VElem h →
  nullish img = false →
  run_job (background_job img) w
  = (add_calls w (stretch_calls h (config w) img), ([], [])).
Proof.
  intros Hc Hi. unfold background_job. cbn [run_job].
  rewrite (bind_ok _ _ w (Some h) (add_calls w (stretch_calls h (config w) img))).
  - reflexivity.
  - rewrite (changeBackground_image_steps _ w h Hc). by rewrite field_singleton, Hi.
Qed.

Lemma run_job_render_then (w : world) (t : gmap string value)
    (ts : list (gmap string value)) :
  field (config w) "template" = VObj t →
  field t "text" = VArr (VObj <$> ts) ∨ (truthy (field t "text") = false ∧ ts = []) →
  run_job render_then w = (w, (next VUndef (text_fns ts), [])).
Proof.
  intros Ht Htext. unfold render_then. cbn [run_job]. unfold renderText_read.
  rewrite (bind_ok _ _ w (VObj t) w) by by apply getConfig_template.
  cbn [lift get_prop]. unfold renderText_chain.
  destruct ts as [|x ts].
  - rewrite Promise_each_empty; [reflexivity|].
    destruct Htext as [-> | [Hf _]]; [by right | by left].
  - destruct Htext as [Htx | [_ ?]]; [|done].
    rewrite Htx, Promise_each_array by done. cbn [run_job].
    rewrite run_job_fulfilled. cbn [fst snd]. by rewrite !app_nil_r.
Qed.

Section Follow.

Variables (h : nat) (cfg t : gmap string value).
Variables (ls ts : list (gmap string value)) (bg : value).
Variable base : list (nat * ctx_call).
Variable con : list string.

Hypothesis Hcanvas : field cfg "canvas" = VElem h.
Hypothesis Htemplate : field cfg "template" = VObj t.
Hypothesis Htext :
  field t "text" = VArr (VObj <$> ts) ∨ (truthy (field t "text") = false ∧ ts = []).
Hypothesis Hitems : Forall item_ok ts.

Ltac progress_simpl :=
  unfold set_stage, set_bg;
  cbn [stage_of bg_of images waiting trace lw microtasks pending set_bg set_stage
       bg_mt bg_pd app advance tick_main config timers calls console add_calls
       add_timers texts_done fst snd].

Ltac follow_close :=
  progress_simpl; cbn [drop];
  try (match goal with Hb : bg_mt _ _ = [] |- _ => rewrite ?Hb end);
  cbn [app];
  try done;
  try (by rewrite ?app_nil_r);
  try (match goal with Hp : _ = bg_pd _ _ ++ _ |- _ => by rewrite Hp, ?app_nil_r end);
  try (match goal with Htm : timers _ = _ |- _ => by rewrite Htm end);
  try (unfold stage_ok; progress_simpl; rewrite ?length_app;
       cbn [length]; first [lia | split; [done | lia] | split; lia]);
  try (match goal with
       | Hcon : _ → console _ = _ ∧ _ |- _ → console _ = _ ∧ _ =>
           cbn [texts_done] in Hcon |- *;
           first
             [ exact Hcon
             | by intros [=]
             | intros _; destruct (Hcon eq_refl) as [? ?]; split; [done|];
               first [done | apply Forall_app; split; [done | by repeat constructor]] ]
       end).

Lemma tracks_tick_background a w ms pd :
  tracks cfg ls ts bg base con a (mkLoop w ms pd) →
  bg_mt bg (bg_of a) ≠ [] →
  ∃ s', exec Tick (mkLoop w ms pd) = Some s' ∧
        tracks cfg ls ts bg base con (advance h cfg ls ts a Tick) s'.
Proof.
  intros [Hm Hp Hcfg Htm Hcalls Hst Hbg Hgood Hcon] Hne.
  destruct a as [c b imgs wt tr]. cbn [stage_of bg_of images waiting trace lw microtasks pending texts_done] in *.
  unfold bg_ok in Hbg. cbn [stage_of bg_of images] in Hbg.
  destruct b as [| | |img|img|img|]; try done.
  - (* the promise of the background starts its load *)
    subst c. cbn [bg_mt bg_pd main_mt main_pd app] in Hm, Hp. subst ms pd.
    eexists. split; [reflexivity|].
    unfold background_promise. cbn [then_ makeImage run_job].
    constructor; progress_simpl; cbn [main_mt main_pd]; try done.
  - (* the image has arrived: the callback is queued *)
    rewrite Hbg in Hm. cbn [bg_mt app] in Hm. subst ms.
    eexists. split; [reflexivity|].
    cbn [run_job].
    constructor; progress_simpl; try done.
    + by rewrite Hbg.
    + by rewrite Hp, app_nil_r.
  - (* the callback paints the background *)
    rewrite Hbg in Hm. cbn [bg_mt app] in Hm. subst ms.
    eexists. split; [reflexivity|].
    progress_simpl.
    rewrite (run_job_background h (image_of img) w); [|by rewrite Hcfg|reflexivity].
    constructor; progress_simpl; try done.
    + by rewrite Hp, app_nil_r.
    + by rewrite Hcalls, Hcfg, app_assoc.
Qed.

Lemma bg_ok_quiet (a : progress) :
  bg_mt bg (bg_of a) = [] → bg_ok ls ts a.
Proof. unfold bg_ok. by destruct (bg_of a). Qed.

Lemma advance_tick_quiet (a : progress) :
  bg_mt bg (bg_of a) = [] → advance h cfg ls ts a Tick = tick_main h ls ts a.
Proof. unfold advance. by destruct (bg_of a). Qed.

Lemma tracks_tick_main a w ms pd :
  tracks cfg ls ts bg base con a (mkLoop w ms pd) →
  bg_mt bg (bg_of a) = [] →
  ms ≠ [] →
  ∃ s', exec Tick (mkLoop w ms pd) = Some s' ∧
        tracks cfg ls ts bg base con (advance h cfg ls ts a Tick) s' ∧
        delivered (advance h cfg ls ts a Tick) = delivered a.
Proof.
  intros [Hm Hp Hcfg Htm Hcalls Hst Hbg Hgood Hcon] Hb Hne.
  rewrite (advance_tick_quiet a Hb).
  destruct a as [c b imgs wt tr].
  cbn [stage_of bg_of images waiting trace lw microtasks pending texts_done] in *.
  rewrite Hb in Hm. cbn [app] in Hm.
  unfold stage_ok in Hst. cbn [stage_of images] in Hst.
  assert (Hbq : ∀ c' imgs' wt' tr', bg_ok ls ts (mkProgress c' b imgs' wt' tr')).
  { intros. by apply bg_ok_quiet. }
  destruct c as [| | |img|img| | |j|]; cbn [main_mt main_pd] in Hm, Hp.
  - (* the first reaction *)
    subst imgs ms. eexists. split; [reflexivity|]. progress_simpl.
    rewrite run_job_fulfilled. progress_simpl.
    split; [|done].
    constructor; progress_simpl; cbn [main_mt main_pd length]; follow_close.
  - (* a layer starts, or the layers are over *)
    destruct (ls !! length imgs) as [l|] eqn:Hl.
    + rewrite (drop_S _ _ _ Hl), layer_fns_cons in Hm. cbn [app next] in Hm.
      subst ms. eexists. split; [reflexivity|]. progress_simpl.
      rewrite run_job_image_fn. progress_simpl. rewrite Hl.
      split; [|done]. apply lookup_lt_Some in Hl as Hlt.
      constructor; progress_simpl; cbn [main_mt main_pd]; rewrite ?Hl; follow_close.
    + apply lookup_ge_None in Hl.
      rewrite drop_ge in Hm by done.
      cbn [layer_fns fmap list_fmap app next after_images] in Hm.
      subst ms. eexists. split; [reflexivity|]. progress_simpl.
      rewrite run_job_fulfilled. progress_simpl.
      rewrite (proj2 (lookup_ge_None _ _) Hl).
      split; [|done].
      constructor; progress_simpl; cbn [main_mt main_pd]; follow_close.
  - done.
  - (* the image is there: the callback is queued *)
    apply lookup_lt_is_Some_2 in Hst as Hl. destruct Hl as [l Hl].
    rewrite Hl in Hm. rewrite thens_queued in Hm.
    subst ms. eexists. split; [reflexivity|]. progress_simpl. cbn [run_job]. progress_simpl.
    split; [|done].
    constructor; progress_simpl; cbn [main_mt main_pd]; rewrite ?Hl; follow_close.
  - (* the callback sets the layer's timer *)
    apply lookup_lt_is_Some_2 in Hst as Hl. destruct Hl as [l Hl].
    rewrite Hl in Hm.
    subst ms. eexists. split; [reflexivity|]. progress_simpl.
    rewrite (run_job_layer_callback _ _ _ _ h) by by rewrite Hcfg.
    rewrite Hl. progress_simpl.
    split; [|unfold delivered; cbn; by rewrite app_nil_r].
    constructor; progress_simpl; cbn [main_mt main_pd];
      rewrite ?length_app, ?Nat.add_1_r; cbn [length]; follow_close.
    apply Forall_app. split; [done|]. by repeat constructor.
  - (* the reaction of Promise.all *)
    cbn [after_images tail next] in Hm.
    subst ms. eexists. split; [reflexivity|]. progress_simpl.
    rewrite run_job_fulfilled. progress_simpl.
    split; [|done].
    constructor; progress_simpl; cbn [main_mt main_pd]; follow_close.
  - (* the callback that calls renderText *)
    subst ms. eexists. split; [reflexivity|]. progress_simpl.
    rewrite (run_job_render_then w t ts); [|by rewrite Hcfg|done]. progress_simpl.
    split; [|done].
    constructor; progress_simpl; cbn [main_mt main_pd drop]; follow_close.
  - (* a text item: its timer is set *)
    destruct Hst as [Hi Hj].
    destruct (ts !! j) as [x|] eqn:Hx.
    + rewrite (drop_S _ _ _ Hx), text_fns_cons in Hm. cbn [next] in Hm.
      subst ms. eexists. split; [reflexivity|]. progress_simpl.
      rewrite run_job_text_fn. progress_simpl. rewrite Hx.
      split; [|done]. apply lookup_lt_Some in Hx as Hlt.
      constructor; progress_simpl; cbn [main_mt main_pd]; follow_close.
      apply Forall_app. split; [done|]. constructor; [|done].
      exists x. split; [done|]. by eapply Forall_lookup_1 in Hitems.
    + apply lookup_ge_None in Hx. rewrite drop_ge in Hm by done. done.
  - done.
Qed.

Lemma tracks_fire a w pd tm rest :
  tracks cfg ls ts bg base con a (mkLoop w [] pd) →
  timers w = tm :: rest →
  tracks cfg ls ts bg base con (advance h cfg ls ts a Fire)
         (mkLoop (run_timer tm (drop_timer w rest)).2 [] pd).
Proof.
  intros [Hm Hp Hcfg Htm Hcalls Hst Hbg Hgood Hcon] Hw.
  destruct a as [c b imgs wt tr].
  cbn [stage_of bg_of images waiting trace lw microtasks pending texts_done] in *.
  rewrite Hw in Htm. subst wt. apply Forall_cons in Hgood as [Hg Hgood].
  destruct (fire_one h tm (drop_timer w rest)) as (Hc' & Ht' & Hk' & Hq');
    [cbn [drop_timer config]; by rewrite Hcfg|done|].
  cbn [drop_timer config timers calls console] in Hc', Ht', Hk', Hq'.
  constructor; progress_simpl; try done.
  - by rewrite Hc'.
  - by rewrite Hk', Hcfg, Hcalls, app_assoc.
  - intros Hz. destruct (Hcon Hz) as [Hk Hd]. apply Forall_cons in Hd as [Hd1 Hd2].
    split; [|done]. by rewrite (Hq' Hd1).
Qed.

Lemma tracks_quiet a w pd :
  tracks cfg ls ts bg base con a (mkLoop w [] pd) →
  bg_mt bg (bg_of a) = [] ∧ main_mt ls ts (length (images a)) (stage_of a) = [] ∧
  pd = bg_pd bg (bg_of a) ++ main_pd ls (length (images a)) (stage_of a).
Proof.
  intros [Hm Hp _ _ _ _ _ _ _]. cbn [microtasks pending] in *.
  symmetry in Hm. apply app_eq_nil in Hm as [? ?]. done.
Qed.

Lemma main_pd_lookup (i k : nat) (c : stage) (p : promise) :
  main_pd ls i c !! k = Some p →
  k = 0 ∧ c = at_load ∧
  ∃ l, ls !! i = Some l ∧
       p = loading (field l "value")
             (λ img, thens (queued (layer_callback (VObj l) img))
                           (layer_fns (drop (S i) ls) ++ after_images)).
Proof.
  destruct c; try done. cbn [main_pd].
  destruct (ls !! i) as [l|]; [|done].
  destruct k; [|done]. intros [= <-]. eauto.
Qed.

Lemma splits_layer (b : bg_stage) (L D : list (nat * Z * Z)) (x : nat * Z * Z) :
  splits b L D → splits b (L ++ [x]) (D ++ [x]).
Proof.
  unfold splits. destruct (bg_image b) as [|img ?].
  - by intros ->.
  - intros (l1 & l2 & -> & ->). exists l1, (l2 ++ [x]).
    by rewrite <- !app_assoc.
Qed.

Lemma splits_same (b b' : bg_stage) (L D D' : list (nat * Z * Z)) :
  bg_image b' = bg_image b → D' = D → splits b L D → splits b' (L ++ []) D'.
Proof. unfold splits. intros -> ->. by rewrite app_nil_r. Qed.

Lemma tracks_loaded a w pd i id iw ih s' :
  tracks cfg ls ts bg base con a (mkLoop w [] pd) →
  exec (Loaded i id iw ih) (mkLoop w [] pd) = Some s' →
  tracks cfg ls ts bg base con (advance h cfg ls ts a (Loaded i id iw ih)) s' ∧
  (∀ L, splits (bg_of a) L (delivered a) →
        splits (bg_of (advance h cfg ls ts a (Loaded i id iw ih)))
               (L ++ [(id, iw, ih)])
               (delivered (advance h cfg ls ts a (Loaded i id iw ih)))).
Proof.
  intros Htr Hex. destruct (tracks_quiet _ _ _ Htr) as (Hb & Hmain & Hpd).
  destruct Htr as [Hm Hp Hcfg Htm Hcalls Hst Hbg Hgood Hcon].
  destruct a as [c b imgs wt tr].
  cbn [stage_of bg_of images waiting trace lw microtasks pending texts_done] in *.
  unfold exec in Hex. cbn [microtasks pending lw] in Hex.
  destruct (pd !! i) as [q|] eqn:Hq; [|done].
  assert (Hmainload : ∀ k, main_pd ls (length imgs) c !! k = Some q →
            bg_mt bg b = [] →
            k = 0 ∧
            tracks cfg ls ts bg base con
              (mkProgress (at_loaded (id, iw, ih)) b imgs wt tr)
              (mkLoop w
                 (match q with loading _ kk => [kk (VImg id iw ih)] | _ => [] end)
                 (bg_pd bg b)) ∧
            c = at_load ∧ ∃ src kk, q = loading src kk).
  { intros k Hk Hb'. apply main_pd_lookup in Hk as (-> & -> & l & Hl & ->).
    split; [done|]. split; [|by eauto].
    constructor; progress_simpl; cbn [main_mt main_pd]; rewrite ?Hl, ?Hb';
      try done; try reflexivity; try (by rewrite app_nil_r);
      try (by apply bg_ok_quiet). }
  assert (Hmainsplit : ∀ b' L,
            splits b' L (delivered (mkProgress at_load b' imgs wt tr)) →
            splits b' (L ++ [(id, iw, ih)])
                   (delivered (mkProgress (at_loaded (id, iw, ih)) b' imgs wt tr))).
  { intros b' L HL. unfold delivered in *. cbn [stage_of images] in *.
    rewrite app_nil_r in HL. by apply splits_layer. }
  destruct b as [| | |img|img|img|]; try done; cbn [bg_pd app] in Hpd, Hmainload.
  - subst pd. destruct (Hmainload i Hq eq_refl) as (-> & Ht & -> & src & kk & ->).
    injection Hex as <-. progress_simpl.
    cbn [main_pd] in *. split; [|by apply Hmainsplit].
    destruct (ls !! length imgs); [|done]. exact Ht.
  - subst pd. destruct i as [|i].
    + injection Hq as <-. injection Hex as <-. progress_simpl.
      split.
      * constructor; progress_simpl; rewrite ?Hmain; try done.
      * intros L HL. unfold splits in *. cbn [bg_image] in *. subst L.
        exists (delivered (mkProgress c bg_load imgs wt tr)), [].
        by rewrite app_nil_r.
    + cbn [lookup list_lookup] in Hq.
      destruct (Hmainload i Hq eq_refl) as (-> & Ht & -> & src & kk & ->).
      injection Hex as <-. progress_simpl.
      split; [|by apply Hmainsplit].
      cbn [main_pd] in *. destruct (ls !! length imgs); [|done].
      cbn [delete list_delete]. exact Ht.
  - subst pd. destruct (Hmainload i Hq eq_refl) as (-> & Ht & -> & src & kk & ->).
    injection Hex as <-. progress_simpl.
    cbn [main_pd] in *. split; [|by apply Hmainsplit].
    destruct (ls !! length imgs); [|done]. exact Ht.
  - subst pd. destruct (Hmainload i Hq eq_refl) as (-> & Ht & -> & src & kk & ->).
    injection Hex as <-. progress_simpl.
    cbn [main_pd] in *. split; [|by apply Hmainsplit].
    destruct (ls !! length imgs); [|done]. exact Ht.
Qed.

Lemma tracks_failed a w pd i s' :
  tracks cfg ls ts bg base con a (mkLoop w [] pd) →
  exec (LoadFailed i) (mkLoop w [] pd) = Some s' →
  tracks cfg ls ts bg base con (advance h cfg ls ts a (LoadFailed i)) s' ∧
  (bg_of a = bg_none → stage_of (advance h cfg ls ts a (LoadFailed i)) = at_failed).
Proof.
  intros Htr Hex. destruct (tracks_quiet _ _ _ Htr) as (Hb & Hmain & Hpd).
  destruct Htr as [Hm Hp Hcfg Htm Hcalls Hst Hbg Hgood Hcon].
  destruct a as [c b imgs wt tr].
  cbn [stage_of bg_of images waiting trace lw microtasks pending texts_done] in *.
  unfold exec in Hex. cbn [microtasks pending lw] in Hex.
  destruct (pd !! i) as [q|] eqn:Hq; [|done]. injection Hex as <-.
  assert (Hmainload : ∀ k, main_pd ls (length imgs) c !! k = Some q →
            bg_mt bg b = [] →
            k = 0 ∧ c = at_load ∧
            tracks cfg ls ts bg base con
              (mkProgress at_failed b imgs wt tr) (mkLoop w [] (bg_pd bg b))).
  { intros k Hk Hb'. apply main_pd_lookup in Hk as (-> & -> & l & Hl & ->).
    split; [done|]. split; [done|].
    constructor; progress_simpl; cbn [main_mt main_pd]; rewrite ?Hl, ?Hb';
      try done; try reflexivity; try (by rewrite app_nil_r);
      try (by apply bg_ok_quiet). }
  destruct b as [| | |img|img|img|]; try done; cbn [bg_pd app] in Hpd, Hmainload.
  - subst pd. destruct (Hmainload i Hq eq_refl) as (-> & -> & Ht).
    progress_simpl. cbn [main_pd] in *.
    split; [|done].
    destruct (ls !! length imgs); [|done]. exact Ht.
  - subst pd. destruct i as [|i].
    + split; [|done]. progress_simpl.
      constructor; progress_simpl; rewrite ?Hmain; try done.
    + cbn [lookup list_lookup] in Hq.
      destruct (Hmainload i Hq eq_refl) as (-> & -> & Ht).
      progress_simpl. split; [|done].
      cbn [main_pd] in *. destruct (ls !! length imgs); [|done].
      cbn [delete list_delete]. exact Ht.
  - subst pd. destruct (Hmainload i Hq eq_refl) as (-> & -> & Ht).
    progress_simpl. cbn [main_pd] in *. split; [|done].
    destruct (ls !! length imgs); [|done]. exact Ht.
  - subst pd. destruct (Hmainload i Hq eq_refl) as (-> & -> & Ht).
    progress_simpl. cbn [main_pd] in *. split; [|done].
    destruct (ls !! length imgs); [|done]. exact Ht.
Qed.

Lemma tick_main_loads (a : progress) :
  bg_of (tick_main h ls ts a) = bg_of a ∧
  delivered (tick_main h ls ts a) = delivered a.
Proof.
  destruct a as [c b imgs wt tr]. unfold tick_main, delivered.
  cbn [stage_of images bg_of].
  destruct c as [| | |img|img| | |j|]; progress_simpl; try done.
  - by destruct (ls !! length imgs).
  - destruct (ls !! length imgs); progress_simpl; [|done].
    by rewrite app_nil_r.
  - by destruct (ts !! j).
Qed.

Lemma advance_loads (a : progress) (ev : event) :
  loads_of ev = [] →
  bg_image (bg_of (advance h cfg ls ts a ev)) = bg_image (bg_of a) ∧
  delivered (advance h cfg ls ts a ev) = delivered a.
Proof.
  intros Hev. destruct ev as [| |i id iw ih|i]; [| | done |].
  - unfold advance.
    destruct (tick_main_loads a) as [Hb Hd].
    destruct (bg_of a) eqn:E; rewrite ?Hb, ?E; try done;
      destruct a as [c b imgs wt tr]; by cbn in *.
  - unfold advance. destruct a as [c b imgs wt tr]. cbn [waiting].
    by destruct wt.
  - unfold advance. destruct a as [c b imgs wt tr]. cbn [bg_of stage_of].
    destruct b, i, c; by cbn.
Qed.

Lemma tracks_step a s ev s' :
  tracks cfg ls ts bg base con a s →
  exec ev s = Some s' →
  tracks cfg ls ts bg base con (advance h cfg ls ts a ev) s' ∧
  (∀ L, splits (bg_of a) L (delivered a) →
        splits (bg_of (advance h cfg ls ts a ev)) (L ++ loads_of ev)
               (delivered (advance h cfg ls ts a ev))) ∧
  (is_failure ev = true → bg_of a = bg_none →
   stage_of (advance h cfg ls ts a ev) = at_failed).
Proof.
  intros Htr Hex. destruct s as [w ms pd].
  assert (Hpure : loads_of ev = [] →
            ∀ L, splits (bg_of a) L (delivered a) →
                 splits (bg_of (advance h cfg ls ts a ev)) (L ++ loads_of ev)
                        (delivered (advance h cfg ls ts a ev))).
  { intros Hev L HL. rewrite Hev.
    destruct (advance_loads a ev Hev) as [Hb Hd]. by eapply splits_same. }
  destruct ev as [| |i id iw ih|i].
  - destruct ms as [|m ms']; [done|].
    split; [|split; [by apply Hpure | done]].
    destruct (bg_mt bg (bg_of a)) as [|q qs] eqn:Hb.
    + destruct (tracks_tick_main a w (m :: ms') pd Htr Hb ltac:(done))
        as (s1 & H1 & H2 & _).
      rewrite Hex in H1. by injection H1 as ->.
    + destruct (tracks_tick_background a w (m :: ms') pd Htr) as (s1 & H1 & H2).
      { by rewrite Hb. }
      rewrite Hex in H1. by injection H1 as ->.
  - split; [|split; [by apply Hpure | done]].
    unfold exec in Hex. cbn [microtasks lw pending] in Hex.
    destruct ms; [|done].
    destruct (timers w) as [|tm rest] eqn:Hw; [done|]. injection Hex as <-.
    by apply tracks_fire.
  - unfold exec in Hex. destruct ms; [|done].
    destruct (tracks_loaded a w pd i id iw ih s' Htr) as [H1 H2].
    { unfold exec. exact Hex. }
    split; [done|]. split; [exact H2 | done].
  - unfold exec in Hex. destruct ms; [|done].
    destruct (tracks_failed a w pd i s' Htr) as [H1 H2].
    { unfold exec. exact Hex. }
    split; [done|]. split; [by apply Hpure | by intros _].
Qed.

Lemma advance_accounted (a : progress) (ev : event) :
  accounted h cfg ls ts a → accounted h cfg ls ts (advance h cfg ls ts a ev).
Proof.
  destruct a as [c b imgs wt tr]. unfold accounted, timers_set.
  cbn [stage_of bg_of images waiting trace].
  intros (fired & Hf & Htr).
  assert (Hmain : ∃ fired',
            fired' ++ waiting (tick_main h ls ts (mkProgress c b imgs wt tr))
            = layer_timers h (images (tick_main h ls ts (mkProgress c b imgs wt tr))) ls
              ++ (write_text <$> (VObj <$>
                    take (texts_done (stage_of (tick_main h ls ts (mkProgress c b imgs wt tr)))) ts)) ∧
            fired' = fired ∧
            trace (tick_main h ls ts (mkProgress c b imgs wt tr)) = tr ∧
            bg_of (tick_main h ls ts (mkProgress c b imgs wt tr)) = b).
  { exists fired. unfold tick_main. cbn [stage_of images].
    destruct c as [| | |img|img| | |j|]; progress_simpl; try done.
    - by destruct (ls !! length imgs).
    - destruct (ls !! length imgs) as [l|] eqn:Hl; progress_simpl; [|done].
      split; [|done]. cbn [take fmap list_fmap] in *. rewrite app_nil_r in *.
      unfold layer_timers in *. rewrite (zip_with_snoc _ _ _ _ _ Hl).
      by rewrite app_assoc, Hf.
    - destruct (ts !! j) as [x|] eqn:Hx; progress_simpl; [|done].
      split; [|done].
      rewrite (take_S_r _ _ _ Hx), !fmap_app. cbn [fmap list_fmap].
      by rewrite !app_assoc, Hf. }
  destruct ev as [| |i id iw ih|i].
  - unfold advance. cbn [bg_of].
    destruct b as [| | |img|img|img|];
      try (destruct Hmain as (fired' & H1 & -> & H2 & H3);
           exists fired; split; [exact H1|]; by rewrite H2, H3);
      progress_simpl; exists fired; (split; [done|]); try done.
    exists fired, []. by rewrite !app_nil_r, Htr.
  - unfold advance. cbn [waiting].
    destruct wt as [|tm rest]; [by exists fired|]. progress_simpl.
    exists (fired ++ [tm]). split; [by rewrite <- app_assoc|].
    destruct b as [| | |img|img|img|];
      try (rewrite flat_map_app; cbn [flat_map]; by rewrite app_nil_r, Htr).
    destruct Htr as (pre & post & -> & ->).
    exists pre, (post ++ [tm]). split; [by rewrite app_assoc|].
    rewrite flat_map_app. cbn [flat_map]. by rewrite app_nil_r, <- !app_assoc.
  - unfold advance. cbn [bg_of stage_of].
    destruct b, i, c; progress_simpl; by exists fired.
  - unfold advance. cbn [bg_of stage_of].
    destruct b, i, c; progress_simpl; by exists fired.
Qed.

Ltac advance_cases a ev :=
  destruct a as [c b imgs wt tr]; destruct ev as [| |i id iw ih|i];
  unfold advance, tick_main; cbn [stage_of bg_of images waiting trace];
  repeat case_match; progress_simpl; try done.

Lemma advance_bg_none (a : progress) (ev : event) :
  bg_of a = bg_none → bg_of (advance h cfg ls ts a ev) = bg_none.
Proof. advance_cases a ev. Qed.

Lemma advance_bg_started (a : progress) (ev : event) :
  bg_of a ≠ bg_none → bg_of (advance h cfg ls ts a ev) ≠ bg_none.
Proof. advance_cases a ev. Qed.

Lemma advance_failed_sticky (a : progress) (ev : event) :
  stage_of a = at_failed → stage_of (advance h cfg ls ts a ev) = at_failed.
Proof. advance_cases a ev. Qed.

Lemma advance_no_failure (a : progress) (ev : event) :
  is_failure ev = false →
  (stage_of a ≠ at_failed → stage_of (advance h cfg ls ts a ev) ≠ at_failed) ∧
  (bg_of a ≠ bg_failed → bg_of (advance h cfg ls ts a ev) ≠ bg_failed).
Proof. advance_cases a ev. Qed.

Lemma follow_accounted (evs : list event) (a : progress) :
  accounted h cfg ls ts a → accounted h cfg ls ts (follow h cfg ls ts a evs).
Proof.
  revert a. induction evs as [|ev evs IH]; intros a Ha; [done|].
  apply IH. by apply advance_accounted.
Qed.

Lemma follow_bg_none (evs : list event) (a : progress) :
  bg_of a = bg_none → bg_of (follow h cfg ls ts a evs) = bg_none.
Proof.
  revert a. induction evs as [|ev evs IH]; intros a Ha; [done|].
  apply IH. by apply advance_bg_none.
Qed.

Lemma follow_bg_started (evs : list event) (a : progress) :
  bg_of a ≠ bg_none → bg_of (follow h cfg ls ts a evs) ≠ bg_none.
Proof.
  revert a. induction evs as [|ev evs IH]; intros a Ha; [done|].
  apply IH. by apply advance_bg_started.
Qed.

Lemma follow_failed_sticky (evs : list event) (a : progress) :
  stage_of a = at_failed → stage_of (follow h cfg ls ts a evs) = at_failed.
Proof.
  revert a. induction evs as [|ev evs IH]; intros a Ha; [done|].
  apply IH. by apply advance_failed_sticky.
Qed.

Lemma follow_no_failure (evs : list event) (a : progress) :
  all_load evs →
  (stage_of a ≠ at_failed → stage_of (follow h cfg ls ts a evs) ≠ at_failed) ∧
  (bg_of a ≠ bg_failed → bg_of (follow h cfg ls ts a evs) ≠ bg_failed).
Proof.
  revert a. induction evs as [|ev evs IH]; intros a Hall; [done|].
  apply Forall_cons in Hall as [Hev Hall].
  destruct (advance_no_failure a ev Hev) as [H1 H2].
  destruct (IH (advance h cfg ls ts a ev) Hall) as [H3 H4].
  split; intros ?; [apply H3, H1 | apply H4, H2]; done.
Qed.

Lemma tracks_run (evs : list event) (a : progress) (s s' : loop)
    (L : list (nat * Z * Z)) :
  tracks cfg ls ts bg base con a s →
  splits (bg_of a) L (delivered a) →
  run evs s = Some s' →
  tracks cfg ls ts bg base con (follow h cfg ls ts a evs) s' ∧
  splits (bg_of (follow h cfg ls ts a evs)) (L ++ flat_map loads_of evs)
         (delivered (follow h cfg ls ts a evs)) ∧
  (bg_of a = bg_none → a_load_fails evs →
   stage_of (follow h cfg ls ts a evs) = at_failed).
Proof.
  revert a s L. induction evs as [|ev evs IH]; intros a s L Htr HL Hrun.
  - injection Hrun as <-. cbn [flat_map follow foldl]. rewrite app_nil_r.
    split; [done|]. split; [done|]. intros _ Hex. by apply Exists_nil in Hex.
  - rewrite run_cons in Hrun.
    destruct (exec ev s) as [s1|] eqn:Hex; [|done].
    destruct (tracks_step a s ev s1 Htr Hex) as (H1 & H2 & H3).
    destruct (IH _ _ _ H1 (H2 L HL) Hrun) as (H4 & H5 & H6).
    cbn [flat_map]. rewrite app_assoc.
    split; [done|]. split; [done|].
    intros Hb Hf. apply Exists_cons in Hf as [Hf|Hf].
    + apply (follow_failed_sticky evs (advance h cfg ls ts a ev)). by apply H3.
    + apply H6; [|done]. by apply advance_bg_none.
Qed.

(** A loop with nothing left to do is at the end of the text phase or
    stopped by an image that failed. *)
Lemma tracks_idle (a : progress) (s : loop) :
  tracks cfg ls ts bg base con a s →
  idle s →
  (microtasks s = [] ∧ pending s = [] ∧ timers (lw s) = []) ∧
  waiting a = [] ∧
  (stage_of a = at_failed ∨ stage_of a = at_text (length ts)) ∧
  bg_image (bg_of a) = match bg_of a with bg_done img => [img] | _ => [] end ∧
  (bg_of a = bg_none ∨ bg_of a = bg_failed ∨ ∃ img, bg_of a = bg_done img).
Proof.
  intros [Hm Hp Hcfg Htm Hcalls Hst Hbg Hgood Hcon] Hidle.
  destruct s as [w ms pd]. cbn [lw microtasks pending] in *.
  assert (ms = []) as ->.
  { pose proof (Hidle Tick) as E. unfold exec in E. cbn [microtasks] in E.
    by destruct ms. }
  assert (timers w = []) as Hw.
  { pose proof (Hidle Fire) as E. unfold exec in E. cbn [microtasks lw] in E.
    by destruct (timers w). }
  assert (pd = []) as ->.
  { pose proof (Hidle (LoadFailed 0)) as E. unfold exec in E.
    cbn [microtasks pending] in E. by destruct pd. }
  split; [done|]. rewrite Hw in Htm. split; [done|].
  symmetry in Hm, Hp. apply app_eq_nil in Hm as [Hm1 Hm2], Hp as [Hp1 Hp2].
  destruct a as [c b imgs wt tr].
  cbn [stage_of bg_of images waiting trace] in *.
  unfold stage_ok in Hst. cbn [stage_of images] in Hst.
  split.
  - destruct c as [| | |img|img| | |j|]; cbn [main_mt main_pd] in Hm2, Hp2;
      try done; try (by left).
    + by apply next_after_layers in Hm2.
    + apply lookup_lt_is_Some_2 in Hst as [l Hl]. by rewrite Hl in Hp2.
    + apply lookup_lt_is_Some_2 in Hst as [l Hl]. by rewrite Hl in Hm2.
    + apply lookup_lt_is_Some_2 in Hst as [l Hl]. by rewrite Hl in Hm2.
    + right. destruct Hst as [_ Hj].
      destruct (decide (j = length ts)) as [->|Hne]; [done|].
      assert (is_Some (ts !! j)) as [x Hx] by (apply lookup_lt_is_Some_2; lia).
      by rewrite (drop_S _ _ _ Hx), text_fns_cons in Hm2.
  - destruct b as [| | |img|img|img|]; cbn [bg_mt bg_pd bg_image] in *; try done.
    + split; [done|]. by left.
    + split; [done|]. right. right. by exists img.
    + split; [done|]. right. by left.
Qed.

Lemma layer_timers_calls (imgs : list (nat * Z * Z)) :
  Forall layer_ok ls →
  flat_map (timer_calls h cfg) (layer_timers h imgs ls) = layer_calls h imgs ls.
Proof.
  unfold layer_timers, layer_calls. generalize ls.
  induction imgs as [|img imgs IH]; intros [|l ks] Hok; try done.
  apply Forall_cons in Hok as [[p Hp] Hok].
  cbn [zip_with flat_map timer_calls]. unfold layer_props. rewrite Hp.
  rewrite layer_draw_object. cbn [app]. by rewrite IH.
Qed.

Lemma text_timers_calls (xs : list (gmap string value)) :
  flat_map (timer_calls h cfg) (write_text <$> (VObj <$> xs)) = item_calls h cfg xs.
Proof.
  unfold item_calls. induction xs as [|x xs IH]; [done|].
  cbn [fmap list_fmap flat_map timer_calls]. by rewrite <- IH.
Qed.

End Follow.

(** The loop [render()] leaves is at the start of the progress. *)
Lemma tracks_start (w w1 : world) (main : promise) (bgs : list promise)
    (t : gmap string value) (ls ts : list (gmap string value))
    (bg : value) (b0 : bg_stage) :
  render w = (Ok (main, bgs), w1) →
  timers w1 = [] →
  field (config w1) "template" = VObj t →
  field t "images" = VArr (VObj <$> ls) → ls ≠ [] →
  bgs = bg_mt bg b0 → b0 = bg_none ∨ b0 = bg_start →
  tracks (config w1) ls ts bg (calls w1) (console w1)
         (mkProgress at_start b0 [] [] []) (start (bgs ++ [main]) w1).
Proof.
  intros Hr Htim Ht Hi Hls -> Hb0.
  apply render_main in Hr as (p & Hp & ->).
  rewrite (renderImage_eval w1 t (VObj <$> ls)) in Hp; [|done|done|by destruct ls].
  injection Hp as <-.
  change (then_ (Promise_all2 _) _)
    with (thens (thens (resolved VUndef) (layer_fns ls)) after_images).
  rewrite thens_app. unfold start.
  constructor; cbn [lw microtasks pending stage_of bg_of images waiting trace
                    main_mt main_pd texts_done length]; try done.
  - by destruct Hb0 as [-> | ->].
  - by rewrite app_nil_r.
  - by destruct Hb0 as [-> | ->].
Qed.

(** Where a run of a render that has nothing left to do has ended. *)
Lemma render_run_end (w w1 : world) (main : promise) (bgs : list promise) (h : nat)
    (t : gmap string value) (ls ts : list (gmap string value))
    (bg : value) (b0 : bg_stage) (evs : list event) (s : loop) :
  render w = (Ok (main, bgs), w1) →
  timers w1 = [] →
  field (config w1) "canvas" = VElem h →
  field (config w1) "template" = VObj t →
  field t "images" = VArr (VObj <$> ls) → ls ≠ [] →
  field t "text" = VArr (VObj <$> ts) ∨ (truthy (field t "text") = false ∧ ts = []) →
  Forall item_ok ts →
  bgs = bg_mt bg b0 → b0 = bg_none ∨ b0 = bg_start →
  run evs (start (bgs ++ [main]) w1) = Some s →
  idle s →
  let a := follow h (config w1) ls ts (mkProgress at_start b0 [] [] []) evs in
  tracks (config w1) ls ts bg (calls w1) (console w1) a s ∧
  accounted h (config w1) ls ts a ∧
  splits (bg_of a) (flat_map loads_of evs) (images a) ∧
  waiting a = [] ∧
  (microtasks s = [] ∧ pending s = [] ∧ timers (lw s) = []) ∧
  (stage_of a = at_failed ∨ stage_of a = at_text (length ts)) ∧
  (b0 = bg_none → bg_of a = bg_none ∧ (a_load_fails evs → stage_of a = at_failed)) ∧
  (all_load evs → stage_of a ≠ at_failed ∧ bg_of a ≠ bg_failed) ∧
  (b0 = bg_start → bg_of a = bg_failed ∨ ∃ img, bg_of a = bg_done img).
Proof.
  intros Hr Htim Hc Ht Hi Hls Htx Htok Hbgs Hb0 Hrun Hidle a.
  pose proof (tracks_start w w1 main bgs t ls ts bg b0 Hr Htim Ht Hi Hls Hbgs Hb0) as H0.
  destruct (tracks_run h (config w1) t ls ts bg (calls w1) (console w1) Hc Ht Htx Htok
              evs _ _ s [] H0) as (H1 & H2 & H3); [|done|].
  { unfold splits. by destruct Hb0 as [-> | ->]. }
  fold a in H1, H2, H3. cbn [app] in H2.
  destruct (tracks_idle (config w1) ls ts bg (calls w1) (console w1) a s H1 Hidle)
    as (Hq & Hw & Hstage & _ & Hbg).
  assert (Hd : delivered a = images a).
  { unfold delivered. destruct Hstage as [-> | ->]; by rewrite app_nil_r. }
  rewrite Hd in H2.
  split; [done|]. split.
  { apply follow_accounted. exists []. by destruct Hb0 as [-> | ->]. }
  split; [done|]. split; [done|]. split; [done|]. split; [done|].
  split.
  { intros ->. split; [by apply follow_bg_none|]. intros Hf. by apply H3. }
  split.
  { intros Hall.
    destruct (follow_no_failure h (config w1) ls ts evs (mkProgress at_start b0 [] [] []) Hall)
      as [Ha Hb].
    split; [by apply Ha|]. apply Hb. by destruct Hb0 as [-> | ->]. }
  intros ->.
  destruct Hbg as [E | [E | [img E]]].
  - exfalso. by apply (follow_bg_started h (config w1) ls ts evs
                         (mkProgress at_start bg_start [] [] [])).
  - by left.
  - right. by exists img.
Qed.

(** The trace at the end of a run of a render that left no background
    image to load. *)
Lemma render_run_trace (w w1 : world) (main : promise) (h : nat)
    (t : gmap string value) (ls ts : list (gmap string value))
    (evs : list event) (s : loop) :
  render w = (Ok (main, []), w1) →
  timers w1 = [] →
  field (config w1) "canvas" = VElem h →
  field (config w1) "template" = VObj t →
  field t "images" = VArr (VObj <$> ls) → ls ≠ [] → Forall layer_ok ls →
  field t "text" = VArr (VObj <$> ts) ∨ (truthy (field t "text") = false ∧ ts = []) →
  Forall item_ok ts →
  run evs (start [main] w1) = Some s →
  idle s →
  (microtasks s = [] ∧ pending s = [] ∧ timers (lw s) = []) ∧
  (all_load evs →
   length (flat_map loads_of evs) = length ls ∧
   calls (lw s) = calls w1 ++ layer_calls h (flat_map loads_of evs) ls
                  ++ item_calls h (config w1) ts ∧
   (ts = [] → console (lw s) = console w1)) ∧
  (a_load_fails evs →
   length (flat_map loads_of evs) < length ls ∧
   calls (lw s) = calls w1 ++ layer_calls h (flat_map loads_of evs) ls ∧
   console (lw s) = console w1).
Proof.
  intros Hr Htim Hc Ht Hi Hls Hlok Htx Htok Hrun Hidle.
  destruct (render_run_end w w1 main [] h t ls ts VUndef bg_none evs s
              Hr Htim Hc Ht Hi Hls Htx Htok eq_refl (or_introl eq_refl) Hrun Hidle)
    as (Htr & Hacc & Hsp & Hw & Hq & Hstage & Hnone & Hall & _).
  destruct (Hnone eq_refl) as [Hb Hfail]. clear Hnone.
  set (a := follow h (config w1) ls ts (mkProgress at_start bg_none [] [] []) evs) in *.
  unfold splits in Hsp. rewrite Hb in Hsp. cbn [bg_image] in Hsp.
  destruct Hacc as (fired & Hf & Htrace). rewrite Hb in Htrace.
  rewrite Hw, app_nil_r in Hf. subst fired. unfold timers_set in Htrace.
  rewrite flat_map_app, (layer_timers_calls h (config w1) ls _ Hlok),
    text_timers_calls in Htrace.
  pose proof (tracks_calls _ _ _ _ _ _ _ _ Htr) as Hcalls.
  pose proof (tracks_stage _ _ _ _ _ _ _ _ Htr) as Hst. unfold stage_ok in Hst.
  pose proof (tracks_console _ _ _ _ _ _ _ _ Htr) as Hcon.
  rewrite Htrace, <- Hsp in Hcalls. rewrite <- Hsp in Hst.
  split; [done|]. split.
  - intros Hl. destruct (Hall Hl) as [Hnf _].
    destruct Hstage as [E | E]; [done|].
    rewrite E in Hst, Hcalls, Hcon. cbn [texts_done] in Hcalls, Hcon.
    rewrite firstn_all in Hcalls.
    split; [by destruct Hst|]. split; [done|].
    intros ->. by apply Hcon.
  - intros Hf. rewrite (Hfail Hf) in Hst, Hcalls, Hcon.
    cbn [texts_done take] in Hcalls, Hcon.
    cbn [item_calls flat_map] in Hcalls. rewrite app_nil_r in Hcalls.
    split; [done|]. split; [done|]. by apply Hcon.
Qed.

(** The trace at the end of a run of a render that left a background
    image to load: the calls of the background stand where its load
    landed among the timers. *)
Lemma render_run_trace_background (w w1 : world) (main : promise) (bg : value)
    (h : nat) (t : gmap string value) (ls ts : list (gmap string value))
    (evs : list event) (s : loop) :
  render w = (Ok (main, [background_promise bg]), w1) →
  timers w1 = [] →
  field (config w1) "canvas" = VElem h →
  field (config w1) "template" = VObj t →
  field t "images" = VArr (VObj <$> ls) → ls ≠ [] → Forall layer_ok ls →
  field t "text" = VArr (VObj <$> ts) ∨ (truthy (field t "text") = false ∧ ts = []) →
  Forall item_ok ts →
  run evs (start [background_promise bg; main] w1) = Some s →
  all_load evs →
  idle s →
  ∃ img l1 l2 pre post,
    flat_map loads_of evs = l1 ++ img :: l2 ∧
    length (l1 ++ l2) = length ls ∧
    pre ++ post = layer_calls h (l1 ++ l2) ls ++ item_calls h (config w1) ts ∧
    calls (lw s) = calls w1 ++ pre ++ stretch_calls h (config w1) (image_of img) ++ post.
Proof.
  intros Hr Htim Hc Ht Hi Hls Hlok Htx Htok Hrun Hl Hidle.
  destruct (render_run_end w w1 main _ h t ls ts bg bg_start evs s
              Hr Htim Hc Ht Hi Hls Htx Htok eq_refl (or_intror eq_refl) Hrun Hidle)
    as (Htr & Hacc & Hsp & Hw & Hq & Hstage & _ & Hall & Hbg).
  destruct (Hall Hl) as [Hnf Hnb]. clear Hall.
  set (a := follow h (config w1) ls ts (mkProgress at_start bg_start [] [] []) evs) in *.
  destruct (Hbg eq_refl) as [E | [img Hb]]; [done|].
  destruct Hstage as [E | E]; [done|].
  unfold splits in Hsp. rewrite Hb in Hsp. cbn [bg_image] in Hsp.
  destruct Hsp as (l1 & l2 & HL & Himgs).
  destruct Hacc as (fired & Hf & Htrace). rewrite Hb in Htrace.
  destruct Htrace as (pre & post & -> & Htrace).
  rewrite Hw, app_nil_r in Hf. unfold timers_set in Hf.
  rewrite E in Hf. cbn [texts_done] in Hf. rewrite firstn_all in Hf.
  pose proof (tracks_calls _ _ _ _ _ _ _ _ Htr) as Hcalls.
  pose proof (tracks_stage _ _ _ _ _ _ _ _ Htr) as Hst. unfold stage_ok in Hst.
  rewrite E in Hst. rewrite Himgs in Hst, Hf.
  exists img, l1, l2, (flat_map (timer_calls h (config w1)) pre),
    (flat_map (timer_calls h (config w1)) post).
  split; [done|]. split; [by destruct Hst|]. split.
  - rewrite <- flat_map_app, Hf, flat_map_app.
    by rewrite (layer_timers_calls h (config w1) ls _ Hlok), text_timers_calls.
  - by rewrite Hcalls, Htrace.
Qed.

(** ** Every run of a render: the schedules and the theorems *)

Lemma loads_of_load_events (imgs : list (nat * Z * Z)) :
  flat_map loads_of (flat_map load_events imgs) = imgs.
Proof.
  induction imgs as [|[[id iw] ih] imgs IH]; [done|].
  cbn [flat_map load_events app loads_of fst snd]. by rewrite IH.
Qed.

Lemma loads_of_replicate (ev : event) (n : nat) :
  loads_of ev = [] → flat_map loads_of (replicate n ev) = [].
Proof. intros Hev. induction n as [|n IH]; [done|]. cbn. by rewrite Hev, IH. Qed.

Lemma all_load_load_events (imgs : list (nat * Z * Z)) :
  all_load (flat_map load_events imgs).
Proof.
  unfold all_load. induction imgs as [|img imgs IH]; [done|].
  cbn [flat_map load_events app]. by repeat constructor.
Qed.

Lemma all_load_replicate (ev : event) (n : nat) :
  is_failure ev = false → all_load (replicate n ev).
Proof. intros Hev. unfold all_load. induction n; by constructor. Qed.

Lemma loads_of_shift (k : nat) (evs : list event) :
  flat_map loads_of (shift_event k <$> evs) = flat_map loads_of evs.
Proof.
  induction evs as [|ev evs IH]; [done|].
  cbn [fmap list_fmap flat_map]. rewrite IH. by destruct ev.
Qed.

Lemma all_load_shift (k : nat) (evs : list event) :
  all_load evs → all_load (shift_event k <$> evs).
Proof.
  unfold all_load. intros Hall. apply Forall_fmap.
  eapply Forall_impl; [exact Hall|]. by intros [].
Qed.

Lemma loads_full_schedule (imgs : list (nat * Z * Z)) (n : nat) :
  flat_map loads_of (full_schedule imgs n) = imgs.
Proof.
  unfold full_schedule. rewrite !flat_map_app, loads_of_load_events.
  rewrite !loads_of_replicate by done. cbn. by rewrite app_nil_r.
Qed.

Lemma all_load_full_schedule (imgs : list (nat * Z * Z)) (n : nat) :
  all_load (full_schedule imgs n).
Proof.
  unfold full_schedule, all_load. rewrite !Forall_app.
  split; [by repeat constructor|]. split; [apply all_load_load_events|].
  split; [by repeat constructor|]. split; by apply all_load_replicate.
Qed.

Lemma loads_layers_schedule (imgs : list (nat * Z * Z)) :
  flat_map loads_of (layers_schedule imgs) = imgs.
Proof.
  unfold layers_schedule. rewrite !flat_map_app, loads_of_load_events.
  rewrite !loads_of_replicate by done. cbn. by rewrite app_nil_r.
Qed.

Lemma all_load_layers_schedule (imgs : list (nat * Z * Z)) :
  all_load (layers_schedule imgs).
Proof.
  unfold layers_schedule, all_load. rewrite !Forall_app.
  split; [by repeat constructor|]. split; [apply all_load_load_events|].
  split; [by repeat constructor|]. by apply all_load_replicate.
Qed.

Lemma loads_broken_schedule (imgs : list (nat * Z * Z)) :
  flat_map loads_of (broken_schedule imgs) = imgs.
Proof.
  unfold broken_schedule. rewrite !flat_map_app, loads_of_load_events.
  rewrite !loads_of_replicate by done. cbn. by rewrite app_nil_r.
Qed.

Lemma broken_schedule_fails (imgs : list (nat * Z * Z)) :
  a_load_fails (broken_schedule imgs).
Proof.
  unfold broken_schedule, a_load_fails. rewrite !Exists_app.
  right. right. left. apply Exists_cons. right. by apply Exists_cons; left.
Qed.

Lemma all_load_late_background (imgs : list (nat * Z * Z)) (n id : nat) (iw ih : Z) :
  all_load (late_background_schedule imgs n id iw ih).
Proof.
  unfold late_background_schedule, all_load. rewrite !Forall_app.
  split; [by repeat constructor|].
  split; [apply all_load_shift, all_load_full_schedule | by repeat constructor].
Qed.

Lemma idle_empty (w : world) : timers w = [] → idle (mkLoop w [] []).
Proof. intros Hw ev. unfold exec. cbn. rewrite Hw. by destruct ev. Qed.

Lemma layer_calls_take (h : nat) (imgs : list (nat * Z * Z))
    (ls : list (gmap string value)) :
  layer_calls h imgs (take (length imgs) ls) = layer_calls h imgs ls.
Proof.
  unfold layer_calls. revert ls.
  induction imgs as [|img imgs IH]; intros [|l ls]; try done.
  cbn [length take zip_with]. by rewrite IH.
Qed.






End CardMaker.

(** ** The theorems at concrete inputs *)





Lemma makeCanvas_once_witness :
  field (config canvas_world) "canvas" = VElem 1 ∧
  makeCanvas (H := Demo.host) VUndef canvas_world
    = (Throw DuplicateSurfaceError, canvas_world).
Proof.
  split; [done|].
  apply (makeCanvas_once (H := Demo.host) VUndef canvas_world 1). done.
Defined.

Lemma layer_draw_rectangles_witness :
  zero_width_layer !! "x" = None ∧
  (if truthy (field zero_width_layer "x") then field zero_width_layer "x" else VNum 0)
    = VNum 0.
Proof.
  split; [done|].
  destruct (layer_draw_rectangles (H := Demo.host) 1 11 640 480 zero_width_layer
              default_world) as (_ & Habsent & _).
  apply (Habsent "x" (VNum 0)). done.
Defined.

(** A source width given as 0 is not used: the draw takes the natural
    width 640. *)
Lemma layer_draw_zero_width_is_natural :
  zero_width_layer !! "swidth" = Some (VNum 0) ∧
  layer_draw (VImg 11 640 480) (VObj zero_width_layer)
    = Ok (drawImage9 (VImg 11 640 480) (VNum 0) (VNum 0) (VNum 640) (VNum 480)
                     (VNum 0) (VNum 0) (VNum 640) (VNum 480)) ∧
  layer_draw (VImg 11 640 480) (VObj zero_width_layer)
    ≠ Ok (drawImage9 (VImg 11 640 480) (VNum 0) (VNum 0) (VNum 0) (VNum 480)
                     (VNum 0) (VNum 0) (VNum 640) (VNum 480)).
Proof. repeat split; done. Qed.

Lemma enableDownload_unset_throws_witness :
  field (config default_world) "download" = VStr "" ∧
  enableDownload (H := Demo.host) default_world
    = (Throw (ConfigKeyError "download"), default_world).
Proof.
  split; [done|].
  apply (enableDownload_unset_throws (H := Demo.host) default_world). done.
Defined.

Lemma render_without_template_background_witness :
  truthy (field (config canvas_world) "background") = false ∧
  field (config canvas_world) "template" = VObj ∅ ∧
  (∅ : gmap string value) !! "background" = None ∧
  render (H := Demo.host) canvas_world = (Throw TypeError, canvas_world).
Proof.
  split; [done|]. split; [done|]. split; [done|].
  apply (render_without_template_background (H := Demo.host) canvas_world ∅); done.
Defined.

Lemma render_hi_never_draws_text_witness :
  isColor (Host := Demo.host) (VStr "blue") = true ∧
  ∃ s0, render_loop (H := Demo.host) hi_world = Some s0 ∧
        microtasks s0 = [rejected each_error] ∧
        ∀ s, reachable (H := Demo.host) s0 s →
             calls (lw s) = blue_fill ∧ timers (lw s) = [].
Proof.
  split; [done|].
  apply (render_hi_never_draws_text (H := Demo.host)). done.
Defined.

Lemma constructor_throws_without_download_witness :
  let o : gmap string value := {[ "template" := hi_template ]} in
  default_arg (VObj o) (VObj ∅) = VObj o ∧
  o !! "download" = None ∧
  ∃ w', new_CardMaker (H := Demo.host) (VObj o) fresh
        = (Throw (ConfigKeyError "download"), w').
Proof.
  cbv zeta. split; [done|]. split; [done|].
  destruct (constructor_throws_without_download (H := Demo.host)
              (VObj {[ "template" := hi_template ]}) {[ "template" := hi_template ]}
              fresh ltac:(done) ltac:(by left)) as [_ Herr].
  eexists. eapply Herr. vm_compute. reflexivity.
Defined.

(** [render()] on the two-layer instance. *)
Lemma render_demo_world :
  ∃ main,
    render (H := Demo.host) demo_world
    = (Ok (main, []),
       mkWorld (<["background" := VStr "blue"]> (config demo_world)) blue_fill [] [] []).
Proof.
  set (w1 := mkWorld (<["background" := VStr "blue"]> (config demo_world)) [] [] [] []).
  set (w2 := mkWorld (<["background" := VStr "blue"]> (config demo_world)) blue_fill [] [] []).
  assert (Hbg : renderBackground (H := Demo.host) w1 = (Ok [], w2)).
  { rewrite (renderBackground_color w1 (VStr "blue")) by done.
    subst w1 w2. vm_compute. reflexivity. }
  unfold render.
  rewrite (bind_ok _ _ demo_world _ demo_world (getConfig_keys _ demo_world)).
  rewrite (bind_ok _ _ demo_world VUndef demo_world) by (vm_compute; reflexivity).
  rewrite (bind_ok _ _ demo_world tt w1) by (subst w1; vm_compute; reflexivity).
  rewrite (bind_ok _ _ w1 [] w2 Hbg).
  assert (Hne : [demo_layer "a.png" 5; demo_layer "b.png" 60] ≠ []) by done.
  rewrite (bind_ok _ _ w2 _ w2 (renderImage_eval w2 _ _ eq_refl eq_refl Hne)).
  eexists. reflexivity.
Qed.


(** [getImage] on the two sample instances. *)
Example getImage_without_canvas :
  getImage (H := Demo.host) VUndef VUndef default_world
    = (Throw NoSurfaceError, default_world).
Proof. reflexivity. Qed.

Example getImage_default_is_jpeg :
  getImage (H := Demo.host) VUndef VUndef canvas_world
    = (Ok (VStr "data:image/jpeg;base64,"), canvas_world).
Proof. reflexivity. Qed.

Example getImage_png :
  getImage (H := Demo.host) (VStr "png") (VNum 1) canvas_world
    = (Ok (VStr "data:image/png;base64,"), canvas_world).
Proof. reflexivity. Qed.

(** With a trigger that exists, construction goes through. *)
Example constructor_with_trigger :
  ∃ ps w, new_CardMaker (H := Demo.host)
            (VObj (<["download" := VStr "#save"]> (<["template" := hi_template]> ∅)))
            fresh = (Ok ps, w) ∧
          dom w = [appendChild 7 (VElem 1); addEventListener 8 "click"].
Proof. eexists _, _. split; [vm_compute; reflexivity | reflexivity]. Qed.


(** ** The further properties at concrete inputs *)

(** No surface, and the failure of [getImage] is the ConfigKeyError, not
    the one that stands for the NoSurfaceError. *)
Lemma getImage_blank_canvas_is_config_error :
  field (config blank_canvas_world) "canvas" = VStr "" ∧
  getImage (H := Demo.host) VUndef VUndef blank_canvas_world
    = (Throw (ConfigKeyError "canvas"), blank_canvas_world) ∧
  getImage (H := Demo.host) VUndef VUndef blank_canvas_world
    ≠ (Throw NoSurfaceError, blank_canvas_world).
Proof. repeat split; done. Qed.

Lemma getConfig_keys_record_witness :
  Forall (λ k, plain_key k = true) ["width"; "height"] ∧
  ∃ m : gmap string value,
    getConfig (H := Demo.host) (VArr [VStr "width"; VStr "height"]) default_world
      = (Ok (VObj m), default_world) ∧
    m !! "width" = Some (VNum 400) ∧ m !! "height" = Some (VNum 250) ∧
    m !! "color" = None.
Proof.
  assert (Hk : Forall (λ k, plain_key k = true) ["width"; "height"])
    by (repeat constructor).
  split; [exact Hk|].
  destruct (getConfig_keys_record (H := Demo.host) ["width"; "height"] default_world Hk)
    as (m & Hget & Hm & _).
  exists m. split; [exact Hget|]. rewrite !Hm. repeat split; vm_compute; reflexivity.
Defined.

Lemma setConfig_batch_witness :
  ({[ "color" := VStr "red" ]} : gmap string value) !! "__proto__" = None ∧
  setConfig (H := Demo.host) [VObj {[ "color" := VStr "red" ]}] default_world
  = (Ok (VObj {[ "color" := VStr "red" ]}),
     set_config default_world ({[ "color" := VStr "red" ]} ∪ default_config)).
Proof.
  split; [done|].
  destruct (setConfig_batch (H := Demo.host) {[ "color" := VStr "red" ]} default_world
              ltac:(done)) as (Hset & _).
  exact Hset.
Defined.

Lemma setConfig_pairs_commute_witness :
  to_str (VStr "color") ≠ to_str (VStr "align") ∧
  (setConfig (H := Demo.host) [VStr "align"; VStr "center"]
     (setConfig (H := Demo.host) [VStr "color"; VStr "red"] default_world).2).2
  = (setConfig (H := Demo.host) [VStr "color"; VStr "red"]
       (setConfig (H := Demo.host) [VStr "align"; VStr "center"] default_world).2).2.
Proof.
  split; [done|].
  destruct (setConfig_pairs_commute (H := Demo.host) (VStr "color") (VStr "red")
              (VStr "align") (VStr "center") default_world
              ltac:(done) ltac:(done) ltac:(done) ltac:(done) ltac:(done)
              ltac:(done) ltac:(done)) as (Hcomm & _).
  exact Hcomm.
Defined.

Lemma makeCanvas_creates_witness :
  nullish (field (config default_world) "canvas") = true ∧
  makeCanvas (H := Demo.host) VUndef default_world = (Ok (VElem 1), canvas_world) ∧
  getImage (H := Demo.host) VUndef VUndef canvas_world
    = (Ok (VStr "data:image/jpeg;base64,"), canvas_world).
Proof.
  split; [done|].
  destruct (makeCanvas_creates (H := Demo.host) VUndef default_world ltac:(done))
    as (_ & Hmake & _ & Himg).
  split; [exact Hmake | exact Himg].
Defined.

Lemma canvas_sentinel_poisons_witness :
  loose_eq_empty (field (config blank_canvas_world) "canvas") = true ∧
  getImage (H := Demo.host) VUndef VUndef blank_canvas_world
    = (Throw (ConfigKeyError "canvas"), blank_canvas_world) ∧
  writeText (H := Demo.host) (VStr "Hi") VUndef blank_canvas_world
    = (Throw (ConfigKeyError "canvas"), blank_canvas_world).
Proof.
  split; [done|].
  destruct (canvas_sentinel_poisons (H := Demo.host) blank_canvas_world VUndef VUndef
              ltac:(done)) as (_ & _ & Himg & _).
  destruct (canvas_sentinel_poisons (H := Demo.host) blank_canvas_world (VStr "Hi") VUndef
              ltac:(done)) as (_ & _ & _ & _ & Htext).
  split; [exact Himg | exact Htext].
Defined.

Lemma putCanvas_attaches_witness :
  querySelector (Host := Demo.host) (field (config default_world) "el") = Ok (Some 7) ∧
  ∃ w', putCanvas (H := Demo.host) default_world = (Ok (VElem 1), w') ∧
        dom w' = [appendChild 7 (VElem 1)] ∧
        field (config w') "canvas" = VElem 1.
Proof.
  split; [done|]. eexists. split.
  - apply (putCanvas_attaches (H := Demo.host) default_world 7); done.
  - split; done.
Defined.

Lemma putCanvas_without_container_witness :
  querySelector (Host := Demo.host) (field (config lost_world) "el") = Ok None ∧
  ∃ w1, putCanvas (H := Demo.host) lost_world = (Throw ContainerNotFoundError, w1) ∧
        field (config w1) "canvas" = VElem 1 ∧
        putCanvas (H := Demo.host) w1 = (Throw DuplicateSurfaceError, w1).
Proof.
  split; [done|].
  destruct (putCanvas_without_container (H := Demo.host) lost_world
              ltac:(done) ltac:(done)) as (Hput & _ & Hc & Hagain).
  eexists. split; [exact Hput|]. split; [exact Hc | exact Hagain].
Defined.

Lemma changeBackground_color_witness :
  field (config canvas_world) "canvas" = VElem 1 ∧
  changeBackground (H := Demo.host) (VStr "color") (VObj {[ "color" := VStr "blue" ]})
    canvas_world
  = (Ok (Some 1), add_calls canvas_world blue_fill).
Proof.
  split; [done|].
  rewrite (changeBackground_color (H := Demo.host) {[ "color" := VStr "blue" ]}
             canvas_world 1) by done.
  reflexivity.
Defined.

Lemma changeBackground_image_witness :
  field (config canvas_world) "canvas" = VElem 1 ∧
  changeBackground (H := Demo.host) (VStr "image") (VObj {[ "img" := VImg 3 64 64 ]})
    canvas_world
  = (Ok (Some 1),
     add_calls canvas_world
       [(1, beginPath);
        (1, drawImage5 (VImg 3 64 64) (VNum 0) (VNum 0) (VNum 400) (VNum 250));
        (1, closePath)]).
Proof.
  split; [done|].
  rewrite (changeBackground_image (H := Demo.host) {[ "img" := VImg 3 64 64 ]}
             canvas_world 1) by done.
  reflexivity.
Defined.

Lemma changeBackground_other_type_witness :
  is_string (VStr "gradient") "image" = false ∧
  is_string (VStr "gradient") "color" = false ∧
  changeBackground (H := Demo.host) (VStr "gradient") VUndef canvas_world
  = (Ok (Some 1), add_calls canvas_world [(1, beginPath); (1, closePath)]).
Proof.
  split; [done|]. split; [done|].
  rewrite (changeBackground_other_type (H := Demo.host) (VStr "gradient") VUndef
             canvas_world 1) by done.
  reflexivity.
Defined.

Lemma no_canvas_no_paint_witness :
  nullish (field (config default_world) "canvas") = true ∧
  changeBackground (H := Demo.host) (VStr "color") (VObj {[ "color" := VStr "blue" ]})
    default_world
  = (Throw TypeError, default_world).
Proof.
  split; [done|].
  destruct (no_canvas_no_paint (H := Demo.host) (VStr "color")
              (VObj {[ "color" := VStr "blue" ]}) default_world ltac:(done))
    as (Hbg & _).
  exact Hbg.
Defined.


Lemma writeText_null_props_witness :
  field (config canvas_world) "canvas" = VElem 1 ∧
  (writeText (H := Demo.host) (VStr "Hi") VNull canvas_world).1 = Throw TypeError.
Proof.
  split; [done|].
  destruct (writeText_null_props (H := Demo.host) (VStr "Hi") canvas_world 1
              ltac:(done)) as (Herr & _).
  exact Herr.
Defined.

Lemma renderBackground_fallback_witness :
  nullish (field (config canvas_world) "background") = true ∧
  renderBackground (H := Demo.host) canvas_world
  = (Ok [],
     add_console
       (add_calls canvas_world
          [(1, beginPath); (1, set_fillStyle (VStr "#000000"));
           (1, rect (VNum 0) (VNum 0) (VNum 400) (VNum 250)); (1, fill); (1, closePath)])
       [no_background_warning]).
Proof.
  split; [done|].
  rewrite (renderBackground_fallback (H := Demo.host) canvas_world 1) by done.
  reflexivity.
Defined.

Lemma renderBackground_sentinel_witness :
  loose_eq_empty (field (config blank_background_world) "background") = true ∧
  renderBackground (H := Demo.host) blank_background_world
  = (Throw (ConfigKeyError "background"), blank_background_world).
Proof.
  split; [done|].
  destruct (renderBackground_sentinel (H := Demo.host) blank_background_world ∅
              ltac:(done)) as (Hbg & _).
  exact Hbg.
Defined.


Lemma render_copies_template_background_witness :
  truthy (field (config photo_world) "background") = false ∧
  get_prop (field photo_record "background") "length" = Ok (VNum 6) ∧
  render (H := Demo.host) photo_world = render (H := Demo.host) photo_started.
Proof.
  split; [done|]. split; [done|].
  destruct (render_copies_template_background (H := Demo.host) photo_world
              photo_record (VNum 6) ltac:(done) ltac:(done) ltac:(done) ltac:(done))
    as (Hcopy & _).
  exact Hcopy.
Defined.

Lemma enableDownload_trigger_witness :
  field (config trigger_world) "download" = VStr "#save" ∧
  enableDownload (H := Demo.host) trigger_world
  = (Ok tt, add_dom trigger_world [addEventListener 8 "click"]).
Proof.
  split; [done|].
  destruct (enableDownload_trigger (H := Demo.host) trigger_world "#save"
              ltac:(done) ltac:(done)) as (Hfound & _).
  apply Hfound. done.
Defined.

Lemma new_CardMaker_trigger :
  ∃ ps w', new_CardMaker (H := Demo.host) trigger_configs fresh = (Ok ps, w').
Proof. eexists _, _. vm_compute. reflexivity. Qed.

Lemma constructor_success_witness :
  ∃ ps w',
    new_CardMaker (H := Demo.host) trigger_configs fresh = (Ok ps, w') ∧
    field (config w') "canvas" = VElem 1 ∧
    field (config w') "width" = VNum 400 ∧
    timers w' = [] ∧
    dom w' = [appendChild 7 (VElem 1); addEventListener 8 "click"].
Proof.
  destruct new_CardMaker_trigger as (ps & w' & Hnew).
  exists ps, w'. split; [exact Hnew|].
  destruct (constructor_success (H := Demo.host) trigger_configs
              (<["download" := VStr "#save"]> (<["template" := hi_template]> ∅))
              fresh w' ps ltac:(done) ltac:(done) Hnew)
    as (_ & Hc & Hk & Ht & _ & e & He & Hdom).
  split; [exact Hc|].
  split; [unfold field; by rewrite (Hk "width")|].
  split; [exact Ht|].
  assert (e = 7) as -> by (vm_compute in He; congruence).
  destruct Hdom as [Hdom | (b & Hb & Hdom)].
  - exfalso. revert Hdom. clear -Hnew. intros Hdom.
    vm_compute in Hnew. injection Hnew as _ <-. discriminate.
  - assert (b = 8) as -> by (vm_compute in Hb; congruence).
    exact Hdom.
Defined.


Lemma render_demo_painted :
  ∃ main, render (H := Demo.host) demo_world = (Ok (main, []), demo_painted).
Proof. exact render_demo_world. Qed.


Lemma render_photo_world :
  ∃ main, render (H := Demo.host) photo_world
          = (Ok (main, [background_promise (H := Demo.host) (VStr "bg.png")]),
             photo_started).
Proof.
  rewrite (render_copy_step (H := Demo.host) photo_world photo_record (VNum 6));
    [|done..].
  apply (render_with_image (H := Demo.host) photo_started (VStr "bg.png") photo_record
           [demo_layer "a.png" 5; demo_layer "b.png" 60]); done.
Qed.


Lemma render_layers_world :
  ∃ main, render (H := Demo.host) layers_world = (Ok (main, []), layers_painted).
Proof.
  rewrite (render_copy_step (H := Demo.host) layers_world layers_record (VNum 4));
    [|done..].
  destruct (render_with_color (H := Demo.host)
              (set_config layers_world
                 (<["background" := field layers_record "background"]> (config layers_world)))
              1 (VStr "blue") layers_record
              [demo_layer "a.png" 5; demo_layer "b.png" 60]) as [main Hm]; try done.
  exists main. rewrite Hm. reflexivity.
Qed.

(** ** Runs of a render at concrete inputs *)






